(** * GDPR compliance core: PII detection, k-anonymity, pseudonymization

    A shallow embedding of the three core components of the repository
    ([src/pii_detection.py], [src/k_anonymity.py], [src/pseudonymization.py])
    and the properties their specification states about them.

    Conventions of the embedding.
    - A Python [str] is a Rocq [string]; the characters are ASCII, so
      [str.encode()] and [bytes.decode()] are the identity.
    - A call that can raise returns a [result]; [Raise e] is the exception.
    - A pandas DataFrame is a list of named, typed columns, a list of rows
      and the labels of the rows.  A boolean [Series] carries labels too,
      and pandas lines two of them up by label; a [Series] built from a
      Python list has the labels 0, 1, 2, ..., which are also those of a
      frame that comes from [toPandas()] or [pd.DataFrame(...)]
      ([default_index]).
    - The numbers of a numeric column are whole numbers; [generalize]
      computes on them as an [int64] column does.
    - Python floats are binary64 floats ([PrimFloat]).
    - The embedding starts at the bodies of the methods: the names that the
      modules import ([Any] in k_anonymity.py, [PBKDF2], the PBKDF2-HMAC of
      [cryptography], in pseudonymization.py) are taken as resolved. *)

From Stdlib Require Import ZArith List String Ascii Bool Lia.
From Stdlib Require Import PrimFloat Uint63 DecimalString.
From stdpp Require Import base list strings gmap.

Set Warnings "-inexact-float".
Set Default Proof Using "Type".
Open Scope Z_scope.

(** ** Python values, exceptions and fallible calls *)
Module Py.

Inductive exn : Type :=
| ValueError (msg : string)
| KeyError (msg : string)
| TypeError (msg : string).

Inductive result (A : Type) : Type :=
| Ok (a : A)
| Raise (e : exn).
Arguments Ok {A} a.
Arguments Raise {A} e.

#[global] Instance result_ret : MRet result := fun A a => Ok a.
#[global] Instance result_bind : MBind result := fun A B f m =>
  match m with
  | Ok a => f a
  | Raise e => Raise e
  end.

(** A cell of a table, or an element of a sample: [None]/[NaN]/[NaT] is
    [VNull]; numbers are integers; a date has day precision; the two
    period constructors are what [dt.to_period('M')] and
    [dt.to_period('Y')] produce. *)
Inductive value : Type :=
| VNull
| VInt (n : Z)
| VStr (s : string)
| VDate (y m d : Z)
| VPeriodM (y m : Z)
| VPeriodY (y : Z).

#[global] Instance value_eq_dec : EqDecision value.
Proof. solve_decision. Defined.

Definition is_null (v : value) : bool :=
  match v with
  | VNull => true
  | _ => false
  end.

(** Python truthiness, [if v:]. *)
Definition truthy (v : value) : bool :=
  match v with
  | VNull => false
  | VInt n => negb (n =? 0)
  | VStr s => negb (bool_decide (s = ""%string))
  | _ => true
  end.

(** Elementwise [==] of pandas: a missing value equals nothing. *)
Definition py_eq (a b : value) : bool :=
  negb (is_null a) && negb (is_null b) && bool_decide (a = b).

Definition str_of_Z (z : Z) : string := NilZero.string_of_int (Z.to_int z).

Definition pad2 (z : Z) : string :=
  if z <? 10 then ("0" +:+ str_of_Z z)%string else str_of_Z z.

(** [str(v)] as [Series.astype(str)] applies it to one cell. *)
Definition str_of_value (v : value) : string :=
  match v with
  | VNull => "None"
  | VInt n => str_of_Z n
  | VStr s => s
  | VDate y m d => str_of_Z y +:+ "-" +:+ pad2 m +:+ "-" +:+ pad2 d
  | VPeriodM y m => str_of_Z y +:+ "-" +:+ pad2 m
  | VPeriodY y => str_of_Z y
  end%string.

(** [repr] of a list of plain names, as an f-string prints it. *)
Definition repr_str (s : string) : string := ("'" +:+ s +:+ "'")%string.

Fixpoint join (sep : string) (l : list string) : string :=
  match l with
  | [] => ""
  | [s] => s
  | s :: l' => s +:+ sep +:+ join sep l'
  end%string.

Definition repr_list (l : list string) : string :=
  ("[" +:+ join ", " (map repr_str l) +:+ "]")%string.

(** [s[:n]] *)
Definition str_prefix (n : nat) (s : string) : string := substring 0 n s.

End Py.
Export Py.

(** ** [src/k_anonymity.py] *)
Module KAnonymity.

Inductive dtype : Type :=
| DNumeric
| DDatetime
| DPeriod
| DObject.

#[global] Instance dtype_eq_dec : EqDecision dtype.
Proof. solve_decision. Defined.

(** A frame: the named, typed columns, the rows, and the row labels
    [df.index], one per row.  The labels are integers, each used once: a
    [RangeIndex], or what a boolean filter leaves of one. *)
Record DataFrame : Type := mkDataFrame {
  schema : list (string * dtype);
  rows : list (list value);
  index : list Z
}.

Definition columns (df : DataFrame) : list string := fst <$> schema df.

(** [RangeIndex(n)]: the labels 0 to n - 1. *)
Definition range_index (n : nat) : list Z := Z.of_nat <$> seq 0 n.

(** The frame has pandas' default labels, as [pd.DataFrame(rows)],
    [toPandas()] and [reset_index()] give them. *)
Definition default_index (df : DataFrame) : Prop :=
  index df = range_index (length (rows df)).

(** Every column name occurs once and every row has one cell per column. *)
Definition well_formed (df : DataFrame) : Prop :=
  NoDup (columns df) ∧ Forall (fun r => length r = length (schema df)) (rows df).

Fixpoint index_of (c : string) (cols : list string) : option nat :=
  match cols with
  | [] => None
  | c' :: cols' => if decide (c = c') then Some 0%nat else S <$> index_of c cols'
  end.

(** The cell of row [r] in column [c]. *)
Definition cell (cols : list string) (r : list value) (c : string) : value :=
  match index_of c cols with
  | Some i => default VNull (r !! i)
  | None => VNull
  end.

(** The tuple of a row over the columns [subset]. *)
Definition project (cols subset : list string) (r : list value) : list value :=
  cell cols r <$> subset.

Definition has_null (k : list value) : bool := existsb is_null k.

Definition missing (cols subset : list string) : list string :=
  filter (fun c => c ∉ cols) subset.

(** The keys pandas groups by: one tuple per row, rows with a missing
    value in a key column left out ([dropna=True], the default of both
    [value_counts] and [groupby]). *)
Definition group_keys (df : DataFrame) (subset : list string) : list (list value) :=
  filter (fun k => has_null k = false) (project (columns df) subset <$> rows df).

Definition occurrences (k : list value) (keys : list (list value)) : nat :=
  length (filter (fun k' => k' = k) keys).

(** The quasi-identifier groups: every distinct tuple with its number of rows. *)
Definition groups (df : DataFrame) (subset : list string) : list (list value * nat) :=
  let keys := group_keys df subset in
  (fun k => (k, occurrences k keys)) <$> remove_dups keys.

(** The size of the group of row [r]; 0 if [r] has a missing value in a
    key column and so belongs to no group. *)
Definition group_size (df : DataFrame) (subset : list string) (r : list value) : nat :=
  occurrences (project (columns df) subset r) (group_keys df subset).

(** The names that a list gives more than once, in the order of the list. *)
Definition repeated (names : list string) : list string :=
  filter (fun c => (1 < length (filter (fun c' => c' = c) names))%nat) names.

(** [df[subset].value_counts()]: the groups.  pandas lists them by
    decreasing count; nothing below depends on the order.  Selecting an
    absent column raises [KeyError] (the text is the one pandas gives when
    some of the columns are there); a column selected twice makes
    [df[subset]] hold it twice, and grouping by it raises [ValueError];
    grouping a non-empty frame by no column at all raises [ValueError]. *)
Definition value_counts (df : DataFrame) (subset : list string)
  : result (list (list value * nat)) :=
  match missing (columns df) subset with
  | (_ :: _) as absent => Raise (KeyError (repr_list absent +:+ " not in index"))
  | [] =>
      match repeated subset with
      | twice :: _ =>
          Raise (ValueError ("Grouper for '" +:+ twice +:+ "' not 1-dimensional"))
      | [] =>
          match subset, rows df with
          | [], _ :: _ => Raise (ValueError "No group keys passed!")
          | _, _ =>
              Ok (groups df subset)
          end
      end
  end.


Record KAnonymityResult : Type := mkKAnonymityResult {
  k_value : Z;
  is_compliant : bool;
  vulnerable_combinations : list (gmap string value);
  recommendations : list string
}.

(** [int(combination_counts.min())] *)
Definition counts_min (counts : list (list value * nat)) : Z :=
  match counts with
  | [] => 0
  | (_, c) :: rest => fold_left (fun m kc => Z.min m (Z.of_nat (snd kc))) rest (Z.of_nat c)
  end.


(** [dict(zip(names, combo))]: a later pair overwrites an earlier one. *)
Definition dict_zip (names : list string) (combo : list value) : gmap string value :=
  fold_left (fun d p => <[fst p := snd p]> d) (zip names combo) ∅.

(** The entry reported for one vulnerable group:
    [combo_dict = dict(zip(quasi_identifiers, combo));
     combo_dict['count'] = int(count)]. *)
Definition combo_report (quasi_identifiers : list string) (kc : list value * nat)
  : gmap string value :=
  <["count"%string := VInt (Z.of_nat (snd kc))]> (dict_zip quasi_identifiers (fst kc)).

(** Arithmetic of an [int64] column: results wrap around. *)
Definition wrap_int64 (z : Z) : Z := (z + 2 ^ 63) mod 2 ^ 64 - 2 ^ 63.

Section Checker.

(** [self.k_threshold] *)
Variable k_threshold : Z.

(** What [Series.astype(str)] makes of a missing value: [None] when it
    stays missing (pandas 3), the text that takes its place otherwise
    (['None'], ['nan'] or ['NaT'] in pandas 2, by the kind of missing
    value). *)
Variable astype_str_missing : option string.

Definition check_k_anonymity (df : DataFrame) (quasi_identifiers : list string)
  : result KAnonymityResult :=
  match missing (columns df) quasi_identifiers with
  | (_ :: _) as missing_cols =>
      Ok {| k_value := 0;
            is_compliant := false;
            vulnerable_combinations := [];
            recommendations := [("Missing columns: " +:+ repr_list missing_cols)%string] |}
  | [] =>
      combination_counts ← value_counts df quasi_identifiers;
      let min_k := counts_min combination_counts in
      let vulnerable :=
        filter (fun kc => Z.of_nat (snd kc) < k_threshold) combination_counts in
      let vulnerable_combinations := combo_report quasi_identifiers <$> vulnerable in
      let recommendations :=
        if min_k <? k_threshold then
          [("Dataset has k=" +:+ str_of_Z min_k +:+ ", but threshold is "
              +:+ str_of_Z k_threshold)%string;
           ("Found " +:+ str_of_Z (Z.of_nat (length vulnerable_combinations))
              +:+ " vulnerable combinations")%string;
           "Consider: Generalization, Suppression, or Sampling"%string]
        else [] in
      Ok {| k_value := min_k;
            is_compliant := k_threshold <=? min_k;
            vulnerable_combinations := vulnerable_combinations;
            recommendations := recommendations |}
  end.

(** [series.astype(str).str[:n]] on one cell. *)
Definition text_prefix (n : nat) (v : value) : value :=
  match v with
  | VNull =>
      match astype_str_missing with
      | Some text => VStr (str_prefix n text)
      | None => VNull
      end
  | _ => VStr (str_prefix n (str_of_value v))
  end.

(** One cell of [generalize], by the dtype of its column.  The numbers of
    a numeric column are those of an [int64] column, whose arithmetic
    wraps around; a numeric column with a missing value is a [float64]
    column in pandas, which computes the same on the integers up to
    2^53 in magnitude. *)
Definition generalize_value (dt : dtype) (level : string) (v : value) : value :=
  match dt with
  | DNumeric =>
      let base := if decide (level = "low"%string) then 10
                  else if decide (level = "medium"%string) then 100 else 1000 in
      match v with
      | VInt n => VInt (wrap_int64 (n / base * base))
      | _ => v
      end
  | DDatetime =>
      match v with
      | VDate y m _ => if decide (level = "low"%string) then VPeriodM y m else VPeriodY y
      | _ => v
      end
  | _ =>
      if decide (level = "low"%string) then text_prefix 5 v
      else if decide (level = "medium"%string) then text_prefix 3 v
      else VStr "***"
  end.

Definition generalized_dtype (dt : dtype) : dtype :=
  match dt with
  | DNumeric => DNumeric
  | DDatetime => DPeriod
  | _ => DObject
  end.

Definition generalize (df : DataFrame) (column : string) (level : string)
  : result DataFrame :=
  match index_of column (columns df) with
  | None => Raise (ValueError ("Column " +:+ column +:+ " not found"))
  | Some i =>
      let dt := default DObject (snd <$> schema df !! i) in
      Ok {| schema := <[i := (column, generalized_dtype dt)]> (schema df);
            rows := (fun r => <[i := generalize_value dt level (default VNull (r !! i))]> r)
                      <$> rows df;
            index := index df |}
  end.

(** A boolean [Series] is a list of labels with their values.  The value
    at a label; a label the series lacks counts as [False] where pandas
    aligns two series. *)
Definition series_get (s : list (Z * bool)) (label : Z) : bool :=
  match find (fun lb => bool_decide (fst lb = label)) s with
  | Some (_, b) => b
  | None => false
  end.

(** [a & b] and [a | b]: pandas aligns the operands on the union of their
    labels (in an order that nothing below depends on) and combines the
    values label by label, a missing one as [False].  Series with the same
    labels are combined position by position, which is the same. *)
Definition series_op (op : bool -> bool -> bool) (a b : list (Z * bool))
  : list (Z * bool) :=
  (fun l => (l, op (series_get a l) (series_get b l)))
    <$> (a.*1 ++ filter (fun l => l ∉ a.*1) b.*1).

(** [pd.Series([b] * len(df))]: a fresh series has the labels 0 to
    len(df) - 1, whatever the labels of the frame are. *)
Definition const_series (df : DataFrame) (b : bool) : list (Z * bool) :=
  (fun l => (l, b)) <$> range_index (length (rows df)).

(** [df[col] == val], labelled as the frame.  Every [col] it is called
    with is a key of a [combo_dict], hence one of the columns that
    [df[quasi_identifiers]] has already found. *)
Definition series_eq (df : DataFrame) (col : string) (val : value) : list (Z * bool) :=
  zip (index df) ((fun r => py_eq (cell (columns df) r col) val) <$> rows df).

(** [df[mask]] for a mask with labels of its own: pandas brings the mask
    to the labels of the frame (each of them is a label of the mask
    here) and keeps the rows whose label is marked, with their labels. *)
Definition filter_by_mask (df : DataFrame) (mask : list (Z * bool))
  : list (Z * list value) :=
  filter (fun lr => series_get mask (fst lr) = true) (zip (index df) (rows df)).

(** [df[mask]] for a mask taken from the frame itself, one boolean per
    row: the rows that are kept, and their labels. *)
Definition select_rows (df : DataFrame) (mask : list bool) : list (list value) :=
  fst <$> filter (fun rb => snd rb = true) (zip (rows df) mask).

Definition select_index (df : DataFrame) (mask : list bool) : list Z :=
  fst <$> filter (fun lb => snd lb = true) (zip (index df) mask).

(** [min_group_size or self.k_threshold] *)
Definition or_threshold (min_group_size : option Z) : Z :=
  match min_group_size with
  | Some m => if m =? 0 then k_threshold else m
  | None => k_threshold
  end.

(** The inner loop of [suppress_rows]: [row_mask], true for the rows that
    agree with [combo] on every key of [combo_dict].  The two branches of
    [isinstance(combo, tuple)] build the same dictionary; a combination is
    a tuple here also when there is one quasi-identifier. *)
Definition combo_mask (df : DataFrame) (quasi_identifiers : list string)
    (combo : list value) : list (Z * bool) :=
  let combo_dict := dict_zip quasi_identifiers combo in
  fold_left (fun row_mask cv => series_op andb row_mask (series_eq df (fst cv) (snd cv)))
            (map_to_list combo_dict) (const_series df true).

(** The outer loop: [mask], true at the labels of the rows of some valid
    combination. *)
Definition valid_mask (df : DataFrame) (quasi_identifiers : list string)
    (valid_combinations : list (list value)) : list (Z * bool) :=
  fold_left (fun mask combo => series_op orb mask (combo_mask df quasi_identifiers combo))
            valid_combinations (const_series df false).

Definition suppress_rows (df : DataFrame) (quasi_identifiers : list string)
    (min_group_size : option Z) : result DataFrame :=
  let min_group_size := or_threshold min_group_size in
  combination_counts ← value_counts df quasi_identifiers;
  let valid_combinations :=
    fst <$> filter (fun kc => min_group_size <= Z.of_nat (snd kc)) combination_counts in
  match valid_combinations with
  | [] => Ok {| schema := (fun c => (c, DObject)) <$> columns df; rows := []; index := [] |}
  | _ =>
      let mask := valid_mask df quasi_identifiers valid_combinations in
      let kept := filter_by_mask df mask in
      Ok {| schema := schema df; rows := snd <$> kept; index := fst <$> kept |}
  end.

(** The loop over [generalization_strategy.items()]. *)
Fixpoint apply_strategy (df : DataFrame) (items : list (string * string))
  : result DataFrame :=
  match items with
  | [] => Ok df
  | (column, level) :: items' =>
      if decide (column ∈ columns df) then
        result_df ← generalize df column level;
        apply_strategy result_df items'
      else apply_strategy df items'
  end.

Definition ensure_k_anonymity (df : DataFrame) (quasi_identifiers : list string)
    (generalization_strategy : option (list (string * string)))
    (apply_suppression : bool) : result (DataFrame * KAnonymityResult) :=
  result_df ← apply_strategy df (default [] generalization_strategy);
  check_result ← check_k_anonymity result_df quasi_identifiers;
  if negb (is_compliant check_result) && apply_suppression then
    result_df ← suppress_rows result_df quasi_identifiers None;
    check_result ← check_k_anonymity result_df quasi_identifiers;
    Ok (result_df, check_result)
  else Ok (result_df, check_result).

End Checker.

(** *** Aggregate-only views *)

(** [aggregated[column] = values]: overwrite the column if the frame has
    it, add it as the last column otherwise. *)
Definition set_column (df : DataFrame) (column : string) (values : list value)
  : DataFrame :=
  match index_of column (columns df) with
  | Some i =>
      {| schema := <[i := (column, DNumeric)]> (schema df);
         rows := zip_with (fun r v => <[i := v]> r) (rows df) values;
         index := index df |}
  | None =>
      {| schema := schema df ++ [(column, DNumeric)];
         rows := zip_with (fun r v => r ++ [v]) (rows df) values;
         index := index df |}
  end.

(** [aggregated.drop(columns=[column])] *)
Definition drop_column (df : DataFrame) (column : string) : result DataFrame :=
  match index_of column (columns df) with
  | Some i =>
      Ok {| schema := delete i (schema df); rows := delete i <$> rows df; index := index df |}
  | None => Raise (KeyError (repr_list [column] +:+ " not found in axis"))
  end.

(** [aggregated[column] >= bound], one boolean per row. *)
Definition series_ge (df : DataFrame) (column : string) (bound : Z)
  : result (list bool) :=
  match index_of column (columns df) with
  | None => Raise (KeyError (repr_str column))
  | Some i =>
      mapM (fun r => match default VNull (r !! i) with
                     | VInt n => Ok (bound <=? n)
                     | VNull => Ok false
                     | _ => Raise (TypeError "'>=' not supported between these instances")
                     end) (rows df)
  end.

(** [df.groupby(by)]: the distinct key tuples, each with its rows. *)
Definition groupby (df : DataFrame) (by_columns : list string)
  : result (list (list value * list (list value))) :=
  match missing (columns df) by_columns with
  | absent :: _ => Raise (KeyError (repr_str absent))
  | [] =>
      match by_columns, rows df with
      | [], _ :: _ => Raise (ValueError "No group keys passed!")
      | _, _ =>
          Ok ((fun k => (k, filter (fun r => project (columns df) by_columns r = k) (rows df)))
                <$> remove_dups (group_keys df by_columns))
      end
  end.

(** [reset_index()] turns the group keys into leading columns, the last
    key first, and refuses a name that is already there: a value column,
    or a key that comes again later in the list.  [reset_index_conflict]
    is the first name it refuses. *)
Fixpoint reset_index_conflict (by_columns value_columns : list string) : option string :=
  match by_columns with
  | [] => None
  | c :: later =>
      match reset_index_conflict later value_columns with
      | Some refused => Some refused
      | None => if decide (c ∈ value_columns ++ later) then Some c else None
      end
  end.

Definition reset_index (by_columns : list string) (value_columns : list string)
  : result unit :=
  match reset_index_conflict by_columns value_columns with
  | Some c => Raise (ValueError ("cannot insert " +:+ c +:+ ", already exists"))
  | None => Ok ()
  end.

Section AggregateView.

Variable k_threshold : Z.

(** One statistic of one group, [grouped.agg({col: func})]: pandas'
    reduction [func] over the group's cells of the column, or the exception
    pandas raises for a name it does not know. *)
Variable agg_apply : string -> list value -> result value.

Definition key_dtypes (df : DataFrame) (by_columns : list string) : list (string * dtype) :=
  (fun c => (c, default DObject (snd <$> (index_of c (columns df) ≫= fun i => schema df !! i))))
    <$> by_columns.

Definition create_aggregate_only_view (df : DataFrame) (group_by_columns : list string)
    (aggregate_columns : list (string * string)) (min_group_size : option Z)
  : result DataFrame :=
  let min_group_size := or_threshold k_threshold min_group_size in
  grouped ← groupby df group_by_columns;
  let agg_dict := filter (fun cf => fst cf ∈ columns df) aggregate_columns in
  let sizes := (fun g => VInt (Z.of_nat (length (snd g)))) <$> grouped in
  aggregated ←
    (match agg_dict with
     | [] =>
         _ ← reset_index group_by_columns ["count"%string];
         Ok {| schema := key_dtypes df group_by_columns ++ [("count"%string, DNumeric)];
               rows := (fun g => fst g ++ [VInt (Z.of_nat (length (snd g)))]) <$> grouped;
               index := range_index (length grouped) |}
     | _ =>
         stats ← mapM (fun g =>
                    mapM (fun cf => agg_apply (snd cf) ((fun r => cell (columns df) r (fst cf)) <$> snd g))
                         agg_dict) grouped;
         _ ← reset_index group_by_columns (fst <$> agg_dict);
         let aggregated :=
           {| schema := key_dtypes df group_by_columns ++ ((fun cf => (fst cf, DObject)) <$> agg_dict);
              rows := zip_with (fun g st => fst g ++ st) grouped stats;
              index := range_index (length grouped) |} in
         Ok (set_column aggregated "_group_count" sizes)
     end);
  if min_group_size =? 0 then Ok aggregated
  else
    mask ← series_ge aggregated "_group_count" min_group_size;
    drop_column {| schema := schema aggregated;
                   rows := select_rows aggregated mask;
                   index := select_index aggregated mask |}
                "_group_count".

End AggregateView.

(** *** Frames and an aggregator to run the definitions on *)

Definition example_rows (zip : string) (n : nat) : list (list value) :=
  replicate n [VStr zip; VInt 1].

(** Twenty rows in groups of 2, 5, 5 and 8 over the column [zip]. *)
Definition example_frame : DataFrame :=
  {| schema := [("zip"%string, DObject); ("visits"%string, DNumeric)];
     rows := example_rows "10115" 2 ++ example_rows "20095" 5
             ++ example_rows "50667" 5 ++ example_rows "80331" 8;
     index := range_index 20 |}.

(** Two rows of one city and two rows whose city is missing. *)
Definition frame_with_missing_city : DataFrame :=
  {| schema := [("city"%string, DObject)];
     rows := [[VStr "Berlin"]; [VStr "Berlin"]; [VNull]; [VNull]];
     index := range_index 4 |}.

(** One row, in a column that is itself called [count]. *)
Definition frame_with_count_column : DataFrame :=
  {| schema := [("count"%string, DNumeric)]; rows := [[VInt 7]]; index := range_index 1 |}.

(** The reduction ["count"]: the number of cells that are not missing. *)
Definition count_cells (func : string) (cells : list value) : result value :=
  if decide (func = "count"%string)
  then Ok (VInt (Z.of_nat (length (filter (fun v => is_null v = false) cells))))
  else Raise (TypeError ("no reduction named " +:+ func)).

End KAnonymity.

(** ** Regular expressions, as far as [PIIDetector.PATTERNS] uses them *)
Module Regex.

Inductive regex : Type :=
| Eps
| Chr (p : ascii -> bool)
| Cat (r1 r2 : regex)
| Alt (r1 r2 : regex)
| Star (r : regex)
| WordB.

Definition code (c : ascii) : N := N_of_ascii c.

Definition in_range (lo hi : ascii) (c : ascii) : bool :=
  ((code lo <=? code c) && (code c <=? code hi))%N.

Definition one_of (set : string) (c : ascii) : bool :=
  existsb (fun c' => bool_decide (c = c')) (list_ascii_of_string set).

Definition either (p q : ascii -> bool) (c : ascii) : bool := p c || q c.

(** [\d], [\s] and the characters [\b] counts as part of a word, on ASCII
    text.  On a [str] Python's classes are those of Unicode: [\d] also
    matches the decimal digits of other scripts, [\s] and [\b] other
    spaces and letters. *)
Definition digit : ascii -> bool := in_range "0" "9".
Definition letter : ascii -> bool := either (in_range "A" "Z") (in_range "a" "z").
Definition space (c : ascii) : bool :=
  ((code c =? 32) || ((9 <=? code c) && (code c <=? 13))
   || ((28 <=? code c) && (code c <=? 31)))%N.
Definition word_char : ascii -> bool := either letter (either digit (one_of "_")).

Definition is_word (o : option ascii) : bool :=
  match o with
  | Some c => word_char c
  | None => false
  end.

(** Backtracking matcher: [run r prev s k] matches [r] at the front of [s]
    ([prev] is the character before it) and hands the rest to [k]. *)
Fixpoint run (r : regex) (prev : option ascii) (s : list ascii)
    (k : option ascii -> list ascii -> bool) : bool :=
  match r with
  | Eps => k prev s
  | Chr p =>
      match s with
      | c :: s' => p c && k (Some c) s'
      | [] => false
      end
  | Cat r1 r2 => run r1 prev s (fun prev' s' => run r2 prev' s' k)
  | Alt r1 r2 => run r1 prev s k || run r2 prev s k
  | Star r1 =>
      (fix loop (fuel : nat) (prev : option ascii) (s : list ascii) : bool :=
         k prev s ||
         match fuel with
         | O => false
         | S fuel' =>
             run r1 prev s
                 (fun prev' s' => (length s' <? length s)%nat && loop fuel' prev' s')
         end) (length s) prev s
  | WordB => xorb (is_word prev) (is_word (head s)) && k prev s
  end.

Fixpoint search_from (r : regex) (prev : option ascii) (s : list ascii) : bool :=
  run r prev s (fun _ _ => true) ||
  match s with
  | [] => false
  | c :: s' => search_from r (Some c) s'
  end.

(** [pattern.search(s)] as a truth value. *)
Definition search (r : regex) (s : string) : bool :=
  search_from r None (list_ascii_of_string s).

(** Derived forms: [r?], [r+], [r{n}], [r{m,n}], [r{m,}], sequences. *)
Definition Opt (r : regex) : regex := Alt r Eps.
Definition Plus (r : regex) : regex := Cat r (Star r).

Fixpoint Times (n : nat) (r : regex) : regex :=
  match n with
  | O => Eps
  | S n' => Cat r (Times n' r)
  end.

Fixpoint UpTo (n : nat) (r : regex) : regex :=
  match n with
  | O => Eps
  | S n' => Opt (Cat r (UpTo n' r))
  end.

Definition Between (m n : nat) (r : regex) : regex := Cat (Times m r) (UpTo (n - m) r).
Definition AtLeast (m : nat) (r : regex) : regex := Cat (Times m r) (Star r).
Definition Seq (rs : list regex) : regex := fold_right Cat Eps rs.
Definition Lit (set : string) : regex := Chr (one_of set).

End Regex.

(** ** [src/pii_detection.py] *)
Module PIIDetection.
Import Regex.

Inductive PIIType : Type :=
| EMAIL
| PHONE
| SSN
| CREDIT_CARD
| IP_ADDRESS
| PASSPORT
| DRIVER_LICENSE
| BANK_ACCOUNT
| DATE_OF_BIRTH
| NAME.

#[global] Instance PIIType_eq_dec : EqDecision PIIType.
Proof. solve_decision. Defined.

Record PIIDetection : Type := mkPIIDetection {
  pii_type : PIIType;
  column_name : string;
  row_count : Z;
  sample_values : list value;
  confidence : float
}.

Definition D : regex := Chr digit.
Definition sep_dash_dot_space : regex := Opt (Chr (either (one_of "-.") space)).
Definition sep_dash_space : regex := Opt (Chr (either (one_of "-") space)).
Definition slash_or_dash : regex := Lit "/-".

(** [(0?[1-9]|1[0-2])] and [(0?[1-9]|[12]\d|3[01])] *)
Definition month : regex :=
  Alt (Cat (Opt (Lit "0")) (Chr (in_range "1" "9"))) (Cat (Lit "1") (Chr (in_range "0" "2"))).
Definition day : regex :=
  Alt (Cat (Opt (Lit "0")) (Chr (in_range "1" "9")))
      (Alt (Cat (Lit "12") D) (Cat (Lit "3") (Lit "01"))).

(** [\b[A-Za-z0-9._%+-]+@[A-Za-z0-9.-]+\.[A-Z|a-z]{2,}\b]; the classes
    already hold both cases, which is all [re.IGNORECASE] adds on ASCII. *)
Definition email_pattern : regex :=
  Seq [WordB;
       Plus (Chr (either letter (either digit (one_of "._%+-"))));
       Lit "@";
       Plus (Chr (either letter (either digit (one_of ".-"))));
       Lit ".";
       AtLeast 2 (Chr (either letter (one_of "|")));
       WordB].

(** [(\+?\d{1,3}[-.\s]?)?\(?\d{3}\)?[-.\s]?\d{3}[-.\s]?\d{4}|\+\d{1,3}\s?\d{9,14}] *)
Definition phone_pattern : regex :=
  Alt (Seq [Opt (Seq [Opt (Lit "+"); Between 1 3 D; sep_dash_dot_space]);
            Opt (Lit "("); Times 3 D; Opt (Lit ")"); sep_dash_dot_space;
            Times 3 D; sep_dash_dot_space; Times 4 D])
      (Seq [Lit "+"; Between 1 3 D; Opt (Chr space); Between 9 14 D]).

(** [\b\d{3}-\d{2}-\d{4}\b|\b\d{9}\b] *)
Definition ssn_pattern : regex :=
  Alt (Seq [WordB; Times 3 D; Lit "-"; Times 2 D; Lit "-"; Times 4 D; WordB])
      (Seq [WordB; Times 9 D; WordB]).

(** [\b\d{4}[-\s]?\d{4}[-\s]?\d{4}[-\s]?\d{4}\b] *)
Definition credit_card_pattern : regex :=
  Seq [WordB; Times 4 D; sep_dash_space; Times 4 D; sep_dash_space;
       Times 4 D; sep_dash_space; Times 4 D; WordB].

(** [\b(?:\d{1,3}\.){3}\d{1,3}\b] *)
Definition ip_address_pattern : regex :=
  Seq [WordB; Times 3 (Cat (Between 1 3 D) (Lit ".")); Between 1 3 D; WordB].

(** [\b(0?[1-9]|1[0-2])[/-](0?[1-9]|[12]\d|3[01])[/-](\d{4}|\d{2})\b
     |\b(19|20)\d{2}[/-](0?[1-9]|1[0-2])[/-](0?[1-9]|[12]\d|3[01])\b] *)
Definition date_of_birth_pattern : regex :=
  Alt (Seq [WordB; month; slash_or_dash; day; slash_or_dash;
            Alt (Times 4 D) (Times 2 D); WordB])
      (Seq [WordB; Alt (Seq [Lit "1"; Lit "9"]) (Seq [Lit "2"; Lit "0"]); Times 2 D;
            slash_or_dash; month; slash_or_dash; day; WordB]).

(** [PIIDetector.PATTERNS], in the order of the dictionary literal. *)
Definition PATTERNS : list (PIIType * regex) :=
  [(EMAIL, email_pattern);
   (PHONE, phone_pattern);
   (SSN, ssn_pattern);
   (CREDIT_CARD, credit_card_pattern);
   (IP_ADDRESS, ip_address_pattern);
   (DATE_OF_BIRTH, date_of_birth_pattern)].

Definition COMMON_NAMES : list string :=
  ["john"; "jane"; "smith"; "johnson"; "williams"; "brown"; "jones";
   "garcia"; "miller"; "davis"; "rodriguez"; "martinez"; "hernandez"]%string.

Definition name_indicators : list string :=
  ["name"; "firstname"; "lastname"; "fullname"; "customer_name"]%string.

(** [s.lower()], [needle in s] and [s.split()] on ASCII strings. *)
Definition lower_char (c : ascii) : ascii :=
  if in_range "A" "Z" c then ascii_of_N (code c + 32) else c.

Fixpoint lower (s : string) : string :=
  match s with
  | EmptyString => EmptyString
  | String c s' => String (lower_char c) (lower s')
  end.

Fixpoint contains (needle s : string) : bool :=
  String.prefix needle s ||
  match s with
  | EmptyString => false
  | String _ s' => contains needle s'
  end.

Fixpoint split_from (word : string) (s : string) : list string :=
  let flush := if decide (word = EmptyString) then [] else [word] in
  match s with
  | EmptyString => flush
  | String c s' =>
      if space c then flush ++ split_from EmptyString s'
      else split_from (word +:+ String c EmptyString) s'
  end.

Definition split (s : string) : list string := split_from EmptyString s.

(** [len(xs) / n], [min(a, b)] and [a >= b] on floats. *)
Definition float_of_nat (n : nat) : float := PrimFloat.of_uint63 (Uint63.of_Z (Z.of_nat n)).
Definition py_min (a b : float) : float := if PrimFloat.ltb b a then b else a.
Definition float_ge (a b : float) : bool := PrimFloat.leb b a.

(** [value and isinstance(value, str)], then the test on the string. *)
Definition str_test (test : string -> bool) (v : value) : bool :=
  match v with
  | VStr s => negb (bool_decide (s = EmptyString)) && test s
  | _ => false
  end.

Definition looks_like_name (s : string) : bool :=
  existsb (fun word => bool_decide (word ∈ COMMON_NAMES)) (split (lower s)).

Section Detector.

(** [self.min_confidence] *)
Variable min_confidence : float.

Definition _detect_names (column_name : string) (sample_values : list value)
  : list PIIDetection :=
  if existsb (fun indicator => contains indicator (lower column_name)) name_indicators then
    let name_count := length (filter (fun v => str_test looks_like_name v = true) sample_values) in
    if (0 <? name_count)%nat then
      let confidence :=
        py_min (PrimFloat.mul (PrimFloat.div (float_of_nat name_count)
                                             (float_of_nat (length sample_values))) 1.5)
               0.9 in
      if float_ge confidence min_confidence then
        [{| pii_type := NAME;
            column_name := column_name;
            row_count := Z.of_nat (length sample_values);
            sample_values := filter (fun v => truthy v = true) (take 5 sample_values);
            confidence := confidence |}]
      else []
    else []
  else [].

(** The values of the sample that a pattern finds. *)
Definition pattern_matches (pattern : regex) (sample_values : list value) : list value :=
  filter (fun v => str_test (search pattern) v = true) sample_values.

Definition pattern_confidence (matches sample_size : nat) : float :=
  py_min (PrimFloat.mul (PrimFloat.div (float_of_nat matches) (float_of_nat sample_size)) 1.2)
         1.0.

(** One turn of the loop over [self.PATTERNS.items()]. *)
Definition detect_pattern (column_name : string) (sample_values : list value)
    (full_data_size : option Z) (entry : PIIType * regex) : list PIIDetection :=
  let sample_size := length sample_values in
  let matches := pattern_matches (snd entry) sample_values in
  match matches with
  | [] => []
  | _ =>
      let confidence := pattern_confidence (length matches) sample_size in
      if float_ge confidence min_confidence then
        let row_count :=
          match full_data_size with
          | Some n => if n =? 0 then Z.of_nat sample_size else n
          | None => Z.of_nat sample_size
          end in
        [{| pii_type := fst entry;
            column_name := column_name;
            row_count := row_count;
            sample_values := take 5 matches;
            confidence := confidence |}]
      else []
  end.

Definition detect_pii_in_column (column_name : string) (sample_values : list value)
    (full_data_size : option Z) : list PIIDetection :=
  match sample_values with
  | [] => []
  | _ =>
      flat_map (detect_pattern column_name sample_values full_data_size) PATTERNS
      ++ _detect_names column_name sample_values
  end.

End Detector.

End PIIDetection.

(** ** [src/pseudonymization.py] *)
Module Pseudonymization.

(** The functions of [cryptography], [hashlib] and [base64] that the module
    calls.  [entropy] is what one Fernet token draws from the operating
    system: the random IV and the current time. *)
Class CryptoLib : Type := mkCryptoLib {
  entropy : Type;
  (** [Fernet(key).encrypt(data)] and [Fernet(key).decrypt(token)];
      [None] is [InvalidToken]. *)
  fernet_encrypt : string -> entropy -> string -> string;
  fernet_decrypt : string -> string -> option string;
  (** [PBKDF2(SHA256, length=32, salt, iterations).derive(password)] *)
  pbkdf2_sha256 : string -> Z -> string -> string;
  (** [hashlib.sha256(data).digest()] *)
  sha256_digest : string -> string;
  urlsafe_b64encode : string -> string;
  (** [None] is [binascii.Error] *)
  urlsafe_b64decode : string -> option string;
  (** [None] is [ValueError] *)
  bytes_fromhex : string -> option string
}.

(** What the module relies on from the libraries: a token decrypts under
    the key that made it, and a token is never the empty string. *)
Class CryptoLaws (C : CryptoLib) : Prop := mkCryptoLaws {
  fernet_round_trip : forall key e data,
    fernet_decrypt key (fernet_encrypt key e data) = Some data;
  fernet_token_nonempty : forall key e data,
    fernet_encrypt key e data <> EmptyString
}.

(** The argument of the constructor: a [str], a [bytes], or anything else. *)
Inductive key_arg : Type :=
| KStr (s : string)
| KBytes (b : string)
| KOther.

(** The instance: [self.key] (which determines [self.cipher]) and
    [self.mapping_cache], a dictionary in insertion order. *)
Record Pseudonymizer : Type := mkPseudonymizer {
  key : string;
  mapping_cache : list (string * string)
}.

Definition dict_get (d : list (string * string)) (k : string) : option string :=
  snd <$> find (fun kv => bool_decide (fst kv = k)) d.

(** [d[k] = v]: in place for a key the dictionary has, at the end for a new one. *)
Fixpoint dict_set (d : list (string * string)) (k v : string) : list (string * string) :=
  match d with
  | [] => [(k, v)]
  | (k', v') :: d' => if decide (k' = k) then (k, v) :: d' else (k', v') :: dict_set d' k v
  end.

Section WithCrypto.

Context {C : CryptoLib}.

(** The operating system's randomness and clock: an endless supply of
    draws and how many were taken. *)
Record World : Type := mkWorld {
  supply : nat -> entropy;
  taken : nat
}.

Definition draw (w : World) : entropy * World :=
  (supply w (taken w), {| supply := supply w; taken := S (taken w) |}).

(** First attempt of [_prepare_key]: the key is already base64 of 32 bytes. *)
Definition try_base64 (k : key_arg) : option string :=
  match k with
  | KStr s | KBytes s =>
      match urlsafe_b64decode s with
      | Some decoded => if (String.length decoded =? 32)%nat then Some s else None
      | None => None
      end
  | KOther => None
  end.

(** Second attempt: 64 characters that [bytes.fromhex] accepts. *)
Definition try_hex (k : key_arg) : option string :=
  match k with
  | KStr s =>
      if (String.length s =? 64)%nat then urlsafe_b64encode <$> bytes_fromhex s else None
  | _ => None
  end.

Definition _prepare_key (k : key_arg) : result string :=
  match try_base64 k with
  | Some prepared => Ok prepared
  | None =>
      match try_hex k with
      | Some prepared => Ok prepared
      | None =>
          match k with
          | KStr s =>
              Ok (urlsafe_b64encode (pbkdf2_sha256 "gdpr_compliance_salt" 100000 s))
          | _ => Raise (ValueError "Invalid key format")
          end
      end
  end.

(** [Fernet(key)] checks its key. *)
Definition Fernet (k : string) : result string :=
  match urlsafe_b64decode k with
  | Some decoded =>
      if (String.length decoded =? 32)%nat then Ok k
      else Raise (ValueError "Fernet key must be 32 url-safe base64-encoded bytes.")
  | None => Raise (ValueError "Fernet key must be 32 url-safe base64-encoded bytes.")
  end.

(** [Pseudonymizer(key)] *)
Definition init (k : key_arg) : result Pseudonymizer :=
  prepared ← _prepare_key k;
  cipher_key ← Fernet prepared;
  Ok {| key := cipher_key; mapping_cache := [] |}.

(** [self.pseudonymize(value, deterministic)] for a [str]; anything else
    is returned as it is.  The key of [det_cipher] is the base64 of 32
    derived bytes, which [Fernet] accepts. *)
Definition pseudonymize (st : Pseudonymizer * World) (value : string) (deterministic : bool)
  : string * (Pseudonymizer * World) :=
  let '(self, w) := st in
  if decide (value = EmptyString) then (value, st)
  else
    match (if deterministic then dict_get (mapping_cache self) value else None) with
    | Some cached => (cached, st)
    | None =>
        let '(e, w) := draw w in
        let encrypted := fernet_encrypt (key self) e value in
        if deterministic then
          let hash_value := str_prefix 16 (sha256_digest value) in
          let det_key := urlsafe_b64encode (pbkdf2_sha256 hash_value 1000 value) in
          let '(e', w) := draw w in
          let pseudonymized := urlsafe_b64encode (fernet_encrypt det_key e' value) in
          (pseudonymized,
           ({| key := key self;
               mapping_cache := dict_set (mapping_cache self) value pseudonymized |}, w))
        else (encrypted, (self, w))
    end.

Definition depseudonymize (self : Pseudonymizer) (pseudonymized_value : string)
  : result string :=
  if decide (pseudonymized_value = EmptyString) then Ok pseudonymized_value
  else
    match fernet_decrypt (key self) pseudonymized_value with
    | Some decrypted => Ok decrypted
    | None =>
        match find (fun kv => bool_decide (snd kv = pseudonymized_value)) (mapping_cache self) with
        | Some (original, _) => Ok original
        | None =>
            Raise (ValueError ("Cannot depseudonymize value: " +:+ pseudonymized_value))
        end
    end.

(** A sequence of later calls of [pseudonymize] on the same instance. *)
Fixpoint pseudonymize_all (st : Pseudonymizer * World) (calls : list (string * bool))
  : Pseudonymizer * World :=
  match calls with
  | [] => st
  | (value, deterministic) :: calls' =>
      pseudonymize_all (snd (pseudonymize st value deterministic)) calls'
  end.

End WithCrypto.

(** A small library instance on which the definitions can be run: a token
    is the IV character, the key and the data; decoding base64 takes the
    string as its own encoding. *)
Definition demo_decrypt (k token : string) : option string :=
  match token with
  | EmptyString => None
  | String _ body =>
      if String.prefix k body then
        Some (substring (String.length k) (String.length body - String.length k) body)
      else None
  end.

Definition demo_crypto : CryptoLib :=
  {| entropy := ascii;
     fernet_encrypt := fun k e data => String e (k +:+ data);
     fernet_decrypt := demo_decrypt;
     pbkdf2_sha256 := fun salt _ password =>
       str_prefix 32 (salt +:+ password +:+ "00000000000000000000000000000000")%string;
     sha256_digest := fun data => data;
     urlsafe_b64encode := fun data => data;
     urlsafe_b64decode := fun s => Some s;
     bytes_fromhex := fun s => Some s |}.

(** [bytes.fromhex] itself.  It skips ASCII whitespace in front of a pair
    of hexadecimal digits and after the last pair, makes one byte of each
    pair, and raises [ValueError] ([None]) for anything else: another
    character, a digit without its second, whitespace inside a pair. *)
Definition is_space (c : ascii) : bool :=
  let n := N_of_ascii c in ((n =? 32) || ((9 <=? n) && (n <=? 13)))%N.

Definition hex_digit (c : ascii) : option N :=
  let n := N_of_ascii c in
  if ((48 <=? n) && (n <=? 57))%N then Some (n - 48)%N
  else if ((97 <=? n) && (n <=? 102))%N then Some (n - 87)%N
  else if ((65 <=? n) && (n <=? 70))%N then Some (n - 55)%N
  else None.

Fixpoint fromhex (s : string) : option string :=
  match s with
  | EmptyString => Some EmptyString
  | String c rest =>
      if is_space c then fromhex rest
      else
        match hex_digit c, rest with
        | Some top, String d rest' =>
            match hex_digit d with
            | Some bot => String (ascii_of_N (16 * top + bot)) <$> fromhex rest'
            | None => None
            end
        | _, _ => None
        end
  end.

(** The small instance with [bytes.fromhex] as it is. *)
Definition hex_crypto : CryptoLib :=
  {| entropy := ascii;
     fernet_encrypt := fun k e data => String e (k +:+ data);
     fernet_decrypt := demo_decrypt;
     pbkdf2_sha256 := fun salt _ password =>
       str_prefix 32 (salt +:+ password +:+ "00000000000000000000000000000000")%string;
     sha256_digest := fun data => data;
     urlsafe_b64encode := fun data => data;
     urlsafe_b64decode := fun s => Some s;
     bytes_fromhex := fromhex |}.

(** 62 hexadecimal digits and two spaces: 64 characters. *)
Definition spaced_hex : string :=
  "ababababababababababababababababababababababababababababababab  ".


Definition demo_supply (n : nat) : @entropy demo_crypto := ascii_of_nat (65 + n).

Definition demo_world : @World demo_crypto := {| supply := demo_supply; taken := 0 |}.

Definition demo_instance : Pseudonymizer :=
  {| key := "0123456789abcdef0123456789abcdef"; mapping_cache := [] |}.

End Pseudonymization.

(** ** More of [src/k_anonymity.py]: what [generalize] looks at *)
Module KAnonymityMore.
Import KAnonymity.

(** The dtype that [generalize] finds for a column,
    [pd.api.types.is_numeric_dtype(df[column])] and the like. *)
Definition dtype_of (df : DataFrame) (column : string) : option dtype :=
  i ← index_of column (columns df); snd <$> schema df !! i.

(** The tuple of a generalized row, from the tuple of the row: the value
    under the generalized column goes through [f]. *)
Definition lift_tuple (f : value -> value) (c : string) (qis : list string)
    (k : list value) : list value :=
  zip_with (fun q v => if decide (q = c) then f v else v) qis k.



(** Five rows of one city and one row whose city is missing. *)
Definition frame_with_one_missing_city : DataFrame :=
  {| schema := [("city"%string, DObject)];
     rows := replicate 5 [VStr "Berlin"] ++ [[VNull]];
     index := range_index 6 |}.

(** Ages in a numeric column. *)
Definition frame_with_ages : DataFrame :=
  {| schema := [("age"%string, DNumeric); ("city"%string, DObject)];
     rows := [[VInt 31; VStr "Berlin"]; [VInt 38; VStr "Bonn"]; [VInt 42; VStr "Berlin"];
              [VInt 47; VStr "Bonn"]; [VInt (-3); VNull]];
     index := range_index 5 |}.

End KAnonymityMore.

(** ** [PIIDetector.scan_dataframe] and what a pattern needs to see *)
Module PIIScan.
Import Regex PIIDetection KAnonymity.

(** The 256 characters. *)
Definition all_ascii : list ascii := (fun n => ascii_of_nat n) <$> seq 0 256.

(** A sufficient syntactic test that every match of [r] takes in a
    character of the class [p]. *)
Fixpoint must_have (p : ascii -> bool) (r : regex) : bool :=
  match r with
  | Eps => false
  | Chr q => forallb (fun c => implb (q c) (p c)) all_ascii
  | Cat r1 r2 => must_have p r1 || must_have p r2
  | Alt r1 r2 => must_have p r1 && must_have p r2
  | Star _ => false
  | WordB => false
  end.

(** Text in ASCII, where the classes of [Regex] are those of [re]. *)
Definition ascii_text (s : string) : Prop :=
  Forall (fun c => (code c < 128)%N) (list_ascii_of_string s).

(** The character a value of each pattern cannot do without: [@] for an
    e-mail address, a digit for the others. *)
Definition required_char (t : PIIType) : ascii -> bool :=
  match t with
  | EMAIL => one_of "@"
  | _ => digit
  end.

Section Scanner.

(** [self.min_confidence] *)
Variable min_confidence : float.

(** [df.sample(n)] on the rows: pandas draws [n] of them at random. *)
Variable sample : nat -> list (list value) -> list (list value).

(** [Series.astype(str).tolist()] on a series without missing values. *)
Variable astype_str : list value -> list string.

(** [sample_df[column].dropna()] *)
Definition column_values (cols : list string) (sample_rows : list (list value))
    (column : string) : list value :=
  filter (fun v => is_null v = false) ((fun r => cell cols r column) <$> sample_rows).

(** The rows that are scanned: all of them, or a sample when there are
    more than [sample_size]; pandas refuses a negative size. *)
Definition sample_df (df : DataFrame) (sample_size : Z) : result (list (list value)) :=
  let len := Z.of_nat (length (rows df)) in
  if sample_size <? len then
    let n := Z.min sample_size len in
    if n <? 0
    then Raise (ValueError "A negative number of rows requested. Please provide `n` >= 0.")
    else Ok (sample (Z.to_nat n) (rows df))
  else Ok (rows df).

(** One turn of the loop over [df.columns]. *)
Definition scan_column (df : DataFrame) (sample_rows : list (list value)) (column : string)
  : list (string * list PIIDetection) :=
  let sample_values := VStr <$> astype_str (column_values (columns df) sample_rows column) in
  let detections :=
    detect_pii_in_column min_confidence column sample_values
                         (Some (Z.of_nat (length (rows df)))) in
  match detections with
  | [] => []
  | _ => [(column, detections)]
  end.

(** The dictionary of results, in insertion order; the column names of
    the frame are distinct. *)
Definition scan_dataframe (df : DataFrame) (sample_size : Z)
  : result (list (string * list PIIDetection)) :=
  sample_rows ← sample_df df sample_size;
  Ok (flat_map (scan_column df sample_rows) (columns df)).

End Scanner.

(** A sampler and a conversion to run the definitions on: the first [n]
    rows, and [str] cell by cell. *)
Definition first_rows (n : nat) (l : list (list value)) : list (list value) := take n l.
Definition str_cells (l : list value) : list string := str_of_value <$> l.

(** Three customers; the second has no e-mail address, nobody has a fax. *)
Definition customers : DataFrame :=
  {| schema := [("customer_name"%string, DObject); ("email"%string, DObject);
                ("fax"%string, DObject)];
     rows := [[VStr "John Smith"; VStr "john@example.org"; VNull];
              [VStr "Ann Lee"; VNull; VNull];
              [VStr "Jane Brown"; VStr "jane@example.org"; VNull]];
     index := range_index 3 |}.

End PIIScan.

(** ** [Pseudonymizer.pseudonymize_column] and its helpers *)
Module PseudonymizationFrames.
Import KAnonymity Pseudonymization.

(** What the constructor relies on from [base64] and PBKDF2: decoding
    undoes encoding, and a key derived with [length=32] has 32 bytes. *)
Class CodecLaws (C : CryptoLib) : Prop := mkCodecLaws {
  b64_round_trip : forall data, urlsafe_b64decode (urlsafe_b64encode data) = Some data;
  pbkdf2_length : forall salt iterations password,
    String.length (pbkdf2_sha256 salt iterations password) = 32%nat
}.

(** The strings on which the constructor fails: 64 characters that are not
    themselves a key and that [bytes.fromhex] turns into a number of bytes
    other than 32. *)
Definition hex_of_other_length {C : CryptoLib} (s : string) : Prop :=
  try_base64 (KStr s) = None /\ String.length s = 64%nat /\
  exists raw, bytes_fromhex s = Some raw /\ String.length raw <> 32%nat.

(** What [from pyspark.sql import SparkSession] followed by
    [SparkSession.getActiveSession()] finds. *)
Inductive spark_env : Type :=
| NoPyspark
| NoActiveSession
| ActiveSession.

(** The ways a call on a frame can fail: an exception of the kinds above,
    or one of the two that only the dispatch on the kind of frame meets. *)
Inductive failure : Type :=
| PyExn (e : exn)
| AttributeError (msg : string)
| ModuleNotFoundError (msg : string).

Inductive outcome (A : Type) : Type :=
| Returns (a : A)
| Fails (f : failure).
Arguments Returns {A} a.
Arguments Fails {A} f.

Definition of_result {A} (r : result A) : outcome A :=
  match r with
  | Ok a => Returns a
  | Raise e => Fails (PyExn e)
  end.

Section Frames.

Context {C : CryptoLib}.

(** [str(x)] for a cell that is not missing. *)
Variable py_str : value -> string.

(** The dtype pandas infers for the result of [Series.apply], from the
    dtype of the column and the new cells. *)
Variable apply_dtype : dtype -> list value -> dtype.

(** [lambda x: self.pseudonymize(str(x), deterministic) if pd.notna(x) else x] *)
Definition pseudonymize_cell (deterministic : bool) (st : Pseudonymizer * World) (x : value)
  : value * (Pseudonymizer * World) :=
  if is_null x then (x, st)
  else let '(token, st') := pseudonymize st (py_str x) deterministic in (VStr token, st').

(** [Series.apply]: the cells one after the other, from the first row on. *)
Fixpoint apply_cells (deterministic : bool) (st : Pseudonymizer * World) (cells : list value)
  : list value * (Pseudonymizer * World) :=
  match cells with
  | [] => ([], st)
  | x :: cells' =>
      let '(y, st1) := pseudonymize_cell deterministic st x in
      let '(ys, st2) := apply_cells deterministic st1 cells' in
      (y :: ys, st2)
  end.

(** The frame is a pandas frame with distinct column names. *)
Definition _pseudonymize_pandas_column (st : Pseudonymizer * World) (df : DataFrame)
    (column_name : string) (deterministic : bool)
  : result (DataFrame * (Pseudonymizer * World)) :=
  match index_of column_name (columns df) with
  | None => Raise (KeyError (repr_str column_name))
  | Some i =>
      let dt := default DObject (snd <$> schema df !! i) in
      let '(cells, st') :=
        apply_cells deterministic st ((fun r => default VNull (r !! i)) <$> rows df) in
      Ok ({| schema := <[i := (column_name, apply_dtype dt cells)]> (schema df);
             rows := zip_with (fun r v => <[i := v]> r) (rows df) cells;
             index := index df |}, st')
  end.

(** [_pseudonymize_spark_column] called on a pandas frame: the imports,
    then [df.withColumn], which a pandas frame does not have. *)
Definition _pseudonymize_spark_column_on_pandas (env : spark_env)
  : outcome (DataFrame * (Pseudonymizer * World)) :=
  match env with
  | NoPyspark => Fails (ModuleNotFoundError "No module named 'pyspark'")
  | _ => Fails (AttributeError "'DataFrame' object has no attribute 'withColumn'")
  end.

(** [pseudonymize_column] on a pandas frame, for which
    [hasattr(df, 'sparkSession')] is false; [spark_session] tells whether
    the caller passed a session. *)
Definition pseudonymize_column (env : spark_env) (st : Pseudonymizer * World) (df : DataFrame)
    (column_name : string) (deterministic : bool) (spark_session : bool)
  : outcome (DataFrame * (Pseudonymizer * World)) :=
  match (if spark_session then Returns true
         else match env with
              | NoPyspark => Fails (ModuleNotFoundError "No module named 'pyspark'")
              | NoActiveSession => Returns false
              | ActiveSession => Returns true
              end) with
  | Fails f => Fails f
  | Returns true => _pseudonymize_spark_column_on_pandas env
  | Returns false => of_result (_pseudonymize_pandas_column st df column_name deterministic)
  end.

Fixpoint pseudonymize_multiple_columns (env : spark_env) (st : Pseudonymizer * World)
    (df : DataFrame) (column_names : list string) (deterministic : bool) (spark_session : bool)
  : outcome (DataFrame * (Pseudonymizer * World)) :=
  match column_names with
  | [] => Returns (df, st)
  | column_name :: column_names' =>
      match pseudonymize_column env st df column_name deterministic spark_session with
      | Returns (result_df, st') =>
          pseudonymize_multiple_columns env st' result_df column_names' deterministic
                                        spark_session
      | Fails f => Fails f
      end
  end.

End Frames.

(** A frame of strings to run the definitions on; on it [str] is the
    identity and [apply] returns an object column. *)
Definition contacts : DataFrame :=
  {| schema := [("email"%string, DObject); ("backup_email"%string, DObject)];
     rows := [[VStr "ann@example.org"; VStr "bob@example.org"];
              [VStr "bob@example.org"; VNull];
              [VStr "ann@example.org"; VStr "ann@example.org"]];
     index := range_index 3 |}.

Definition object_dtype (dt : dtype) (cells : list value) : dtype := DObject.

End PseudonymizationFrames.

(** ** Properties of the pseudonymizer *)
Module PseudonymizationFacts.
Import Pseudonymization.

Lemma dict_get_set_eq d k v : dict_get (dict_set d k v) k = Some v.
Proof.
  unfold dict_get. induction d as [|[k' v'] d IH]; simpl.
  - rewrite bool_decide_eq_true_2; done.
  - destruct (decide (k' = k)) as [->|Hne]; simpl.
    + rewrite bool_decide_eq_true_2; done.
    + rewrite bool_decide_eq_false_2; done.
Qed.

Lemma dict_get_set_ne d k k' v : k' <> k -> dict_get (dict_set d k v) k' = dict_get d k'.
Proof.
  intros Hne. unfold dict_get. induction d as [|[k0 v0] d IH]; simpl.
  - rewrite bool_decide_eq_false_2; [done | congruence].
  - destruct (decide (k0 = k)) as [->|Hk]; simpl.
    + repeat case_bool_decide; simplify_eq; done.
    + destruct (bool_decide (k0 = k')); [done | exact IH].
Qed.

Section WithCrypto.

Context {C : CryptoLib}.

(** A call of [pseudonymize] never replaces the key of the instance. *)
Lemma pseudonymize_key st value deterministic :
  key (fst (snd (pseudonymize st value deterministic))) = key (fst st).
Proof.
  destruct st as [self w]. unfold pseudonymize.
  destruct (decide (value = EmptyString)); [done|].
  destruct deterministic; [destruct (dict_get _ _)|]; done.
Qed.

(** A cached token stays what it is through any later call. *)
Lemma pseudonymize_keeps_cached st value deterministic v token :
  dict_get (mapping_cache (fst st)) v = Some token ->
  dict_get (mapping_cache (fst (snd (pseudonymize st value deterministic)))) v = Some token.
Proof.
  destruct st as [self w]. unfold pseudonymize. simpl. intros Hv.
  destruct (decide (value = EmptyString)); [done|].
  destruct deterministic; [|done].
  destruct (dict_get (mapping_cache self) value) eqn:Hc; [done|]. simpl.
  rewrite dict_get_set_ne; [done|]. intros ->. congruence.
Qed.

Lemma pseudonymize_all_keeps_cached calls st v token :
  dict_get (mapping_cache (fst st)) v = Some token ->
  dict_get (mapping_cache (fst (pseudonymize_all st calls))) v = Some token.
Proof.
  revert st. induction calls as [|[value deterministic] calls IH]; intros st Hv; [done|].
  simpl. apply IH. by apply pseudonymize_keeps_cached.
Qed.

Lemma pseudonymize_all_key calls st :
  key (fst (pseudonymize_all st calls)) = key (fst st).
Proof.
  revert st. induction calls as [|[value deterministic] calls IH]; intros st; [done|].
  simpl. rewrite IH. apply pseudonymize_key.
Qed.

(** In deterministic mode, a value that is cached is answered from the cache. *)
Lemma pseudonymize_cached st value token :
  value <> EmptyString ->
  dict_get (mapping_cache (fst st)) value = Some token ->
  pseudonymize st value true = (token, st).
Proof.
  destruct st as [self w]. simpl. intros Hne Hc. unfold pseudonymize.
  destruct (decide (value = EmptyString)); [done|]. by rewrite Hc.
Qed.

(** After a deterministic call the cache holds the returned token. *)
Lemma pseudonymize_stores st value :
  value <> EmptyString ->
  dict_get (mapping_cache (fst (snd (pseudonymize st value true)))) value
  = Some (fst (pseudonymize st value true)).
Proof.
  destruct st as [self w]. intros Hne. unfold pseudonymize.
  destruct (decide (value = EmptyString)); [done|].
  destruct (dict_get (mapping_cache self) value) eqn:Hc; simpl; [done|].
  apply dict_get_set_eq.
Qed.

(** C5. On one instance, the token that a deterministic call of
    [pseudonymize] returns for a non-empty string is stored in the cache of
    the instance, and every later deterministic call for the same string,
    whatever other calls of [pseudonymize] come in between, returns that
    same token and leaves the instance as it is. *)
Theorem pseudonymize_deterministic_stable st value calls :
  value <> EmptyString ->
  let first := pseudonymize st value true in
  let later := pseudonymize_all (snd first) calls in
  dict_get (mapping_cache (fst (snd first))) value = Some (fst first) /\
  pseudonymize later value true = (fst first, later).
Proof.
  intros Hne first later. split.
  - by apply pseudonymize_stores.
  - apply pseudonymize_cached; [done|].
    apply pseudonymize_all_keeps_cached. by apply pseudonymize_stores.
Qed.

(** C6. A non-empty string pseudonymized in non-deterministic mode is
    recovered exactly by [depseudonymize] on the same instance, at once or
    after any further calls of [pseudonymize]; the call itself leaves the
    cache untouched. *)
Theorem depseudonymize_round_trip `{!CryptoLaws C} st value calls :
  value <> EmptyString ->
  let first := pseudonymize st value false in
  mapping_cache (fst (snd first)) = mapping_cache (fst st) /\
  depseudonymize (fst (pseudonymize_all (snd first) calls)) (fst first) = Ok value.
Proof.
  intros Hne first. destruct st as [self w].
  assert (Hfirst : first = (fernet_encrypt (key self) (supply w (taken w)) value,
                            (self, snd (draw w)))).
  { unfold first, pseudonymize. destruct (decide (value = EmptyString)); done. }
  split; [by rewrite Hfirst|].
  unfold depseudonymize. rewrite pseudonymize_all_key, Hfirst. simpl.
  destruct (decide (_ = EmptyString)) as [Hempty|_].
  - by apply fernet_token_nonempty in Hempty.
  - by rewrite fernet_round_trip.
Qed.


(** The last branch of [_prepare_key] is there for what is not a string. *)
Lemma prepare_key_other_raises :
  _prepare_key KOther = Raise (ValueError "Invalid key format").
Proof. reflexivity. Qed.

End WithCrypto.


Lemma substring_whole (s : string) : substring 0 (String.length s) s = s.
Proof. induction s as [|c s IH]; simpl; [done | by rewrite IH]. Qed.

Lemma demo_decrypt_encrypt k e data :
  demo_decrypt k (String e (k +:+ data)) = Some data.
Proof.
  unfold demo_decrypt.
  assert (Hp : String.prefix k (k +:+ data) = true).
  { induction k as [|c k IH]; simpl; [by destruct data|].
    destruct (ascii_dec c c); [done | congruence]. }
  rewrite Hp. f_equal.
  induction k as [|c k IH]; simpl.
  - rewrite Nat.sub_0_r. apply substring_whole.
  - apply IH. simpl in Hp. by destruct (ascii_dec c c).
Qed.

#[local] Instance demo_laws : CryptoLaws demo_crypto.
Proof. split; [apply demo_decrypt_encrypt | done]. Qed.

Lemma pseudonymize_deterministic_stable_witness :
  "alice"%string <> EmptyString /\
  let first := pseudonymize (demo_instance, demo_world) "alice" true in
  let later := pseudonymize_all (snd first) [("bob"%string, true); ("alice"%string, false)] in
  dict_get (mapping_cache (fst (snd first))) "alice" = Some (fst first) /\
  pseudonymize later "alice" true = (fst first, later).
Proof.
  split; [done|].
  apply (pseudonymize_deterministic_stable (C := demo_crypto)). done.
Defined.

Lemma depseudonymize_round_trip_witness :
  "alice"%string <> EmptyString /\
  let first := pseudonymize (demo_instance, demo_world) "alice" false in
  mapping_cache (fst (snd first)) = mapping_cache demo_instance /\
  depseudonymize (C := demo_crypto)
    (fst (pseudonymize_all (snd first) [("bob"%string, true)])) (fst first)
  = Ok "alice"%string.
Proof.
  split; [done|].
  apply (depseudonymize_round_trip (C := demo_crypto) (demo_instance, demo_world)). done.
Defined.

End PseudonymizationFacts.

(** ** Properties of the k-anonymity engine *)
Module KAnonymityFacts.
Import KAnonymity.

(** *** Columns and cells *)

Lemma index_of_lookup c cols i : index_of c cols = Some i -> cols !! i = Some c.
Proof.
  revert i. induction cols as [|c' cols IH]; intros i; simpl; [done|].
  destruct (decide (c = c')) as [->|Hne].
  - by intros [= <-].
  - destruct (index_of c cols) as [j|]; simpl; [|done].
    intros [= <-]. by apply IH.
Qed.

Lemma index_of_elem c cols : c ∈ cols -> is_Some (index_of c cols).
Proof.
  induction cols as [|c' cols IH]; simpl.
  - by intros ?%elem_of_nil.
  - intros [->|Hin]%elem_of_cons.
    + rewrite decide_True by done. eauto.
    + destruct (decide (c = c')); [eauto|].
      destruct (IH Hin) as [j ->]. simpl. eauto.
Qed.

Lemma index_of_not_elem c cols : c ∉ cols -> index_of c cols = None.
Proof.
  induction cols as [|c' cols IH]; simpl; [done|].
  intros [Hne Hnin]%not_elem_of_cons.
  rewrite decide_False by done. by rewrite IH.
Qed.

Lemma missing_nil cols subset :
  missing cols subset = [] <-> forall c, c ∈ subset -> c ∈ cols.
Proof.
  unfold missing. induction subset as [|c subset IH]; simpl.
  - split; [|done]. intros _ c Hc. by apply elem_of_nil in Hc.
  - rewrite filter_cons. destruct (decide (c ∉ cols)) as [Hnin|Hin].
    + split; [done|]. intros H. destruct Hnin. apply H. left.
    + rewrite IH. apply dec_stable in Hin. split.
      * intros H c' [->|?]%elem_of_cons; auto.
      * intros H c' ?. apply H. by right.
Qed.

(** *** Groups *)

Lemma filter_none {A} (P : A -> Prop) `{!forall x, Decision (P x)} (l : list A) :
  (forall x, x ∈ l -> ~ P x) -> filter P l = [].
Proof.
  induction l as [|x l IH]; intros Hno; [done|].
  rewrite filter_cons_False by (apply Hno; left).
  apply IH. intros y Hy. apply Hno. by right.
Qed.

Lemma filter_eq_NoDup (c : string) names :
  NoDup names -> (length (filter (fun c' => c' = c) names) <= 1)%nat.
Proof.
  induction 1 as [|c' names Hnin Hnd IH]; [simpl; lia|].
  rewrite filter_cons. destruct (decide (c' = c)) as [->|Hne]; [|exact IH].
  assert (Hnone : filter (fun c' => c' = c) names = []).
  { apply filter_none. intros c'' Hin ->. done. }
  by rewrite Hnone.
Qed.

Lemma repeated_NoDup names : NoDup names -> repeated names = [].
Proof.
  intros Hnd. unfold repeated. apply filter_none.
  intros c _ Hc. pose proof (filter_eq_NoDup c names Hnd). lia.
Qed.

Lemma repeated_elem names c : c ∈ repeated names -> ~ NoDup names.
Proof. intros Hc Hnd. rewrite (repeated_NoDup _ Hnd) in Hc. by apply elem_of_nil in Hc. Qed.

Lemma value_counts_present df subset :
  missing (columns df) subset = [] -> subset <> [] -> NoDup subset ->
  value_counts df subset = Ok (groups df subset).
Proof.
  intros Hm Hne Hnd. unfold value_counts. rewrite Hm, (repeated_NoDup _ Hnd).
  destruct subset; [done|]. by destruct (rows df).
Qed.

Lemma value_counts_absent df subset :
  missing (columns df) subset <> [] ->
  value_counts df subset
  = Raise (KeyError (repr_list (missing (columns df) subset) +:+ " not in index")).
Proof. intros Hm. unfold value_counts. by destruct (missing _ _). Qed.

Lemma elem_of_group_keys df subset k :
  k ∈ group_keys df subset <->
  has_null k = false /\ exists r, r ∈ rows df /\ k = project (columns df) subset r.
Proof.
  unfold group_keys. rewrite list_elem_of_filter, list_elem_of_fmap. split.
  - intros (Hn & r & -> & Hr). eauto.
  - intros (Hn & r & Hr & ->). eauto.
Qed.

Lemma occurrences_pos {k : list value} {keys} : k ∈ keys -> (0 < occurrences k keys)%nat.
Proof.
  intros Hin. unfold occurrences.
  assert (Hk : k ∈ filter (fun k' => k' = k) keys) by (by apply list_elem_of_filter).
  destruct (filter _ keys); [by apply elem_of_nil in Hk | simpl; lia].
Qed.

Lemma elem_of_groups df subset k c :
  (k, c) ∈ groups df subset <->
  k ∈ group_keys df subset /\ c = occurrences k (group_keys df subset).
Proof.
  unfold groups. rewrite list_elem_of_fmap. split.
  - intros (k' & Heq & Hin). inversion Heq; subst. by rewrite elem_of_remove_dups in Hin.
  - intros [Hin ->]. exists k. by rewrite elem_of_remove_dups.
Qed.

(** Every group has at least one row. *)
Lemma groups_pos df subset k c : (k, c) ∈ groups df subset -> (0 < c)%nat.
Proof. intros [Hin ->]%elem_of_groups. by apply occurrences_pos. Qed.

(** *** The smallest group *)

Lemma fold_min_le (l : list (list value * nat)) a :
  fold_left (fun m kc => Z.min m (Z.of_nat (snd kc))) l a <= a /\
  forall kc, kc ∈ l -> fold_left (fun m kc => Z.min m (Z.of_nat (snd kc))) l a <= Z.of_nat (snd kc).
Proof.
  revert a. induction l as [|x l IH]; intros a; simpl.
  - split; [lia|]. intros kc Hkc. by apply elem_of_nil in Hkc.
  - destruct (IH (Z.min a (Z.of_nat (snd x)))) as [H1 H2]. split; [lia|].
    intros kc [->|Hin]%elem_of_cons; [lia | by apply H2].
Qed.

Lemma fold_min_attained (l : list (list value * nat)) a :
  fold_left (fun m kc => Z.min m (Z.of_nat (snd kc))) l a = a \/
  exists kc, kc ∈ l /\ fold_left (fun m kc => Z.min m (Z.of_nat (snd kc))) l a = Z.of_nat (snd kc).
Proof.
  revert a. induction l as [|x l IH]; intros a; simpl; [by left|].
  destruct (IH (Z.min a (Z.of_nat (snd x)))) as [H|(kc & Hin & H)].
  - rewrite H. destruct (Z.min_spec a (Z.of_nat (snd x))) as [[_ ->]|[_ ->]]; [by left|].
    right. exists x. split; [left | done].
  - right. exists kc. split; [by right | done].
Qed.

Lemma counts_min_le counts kc : kc ∈ counts -> counts_min counts <= Z.of_nat (snd kc).
Proof.
  destruct counts as [|[k0 c0] rest]; [by intros ?%elem_of_nil|]. simpl.
  destruct (fold_min_le rest (Z.of_nat c0)) as [H1 H2].
  intros [->|Hin]%elem_of_cons; [done | by apply H2].
Qed.

Lemma counts_min_attained counts :
  counts <> [] -> exists kc, kc ∈ counts /\ counts_min counts = Z.of_nat (snd kc).
Proof.
  destruct counts as [|[k0 c0] rest]; [done|]. intros _. simpl.
  destruct (fold_min_attained rest (Z.of_nat c0)) as [H|(kc & Hin & H)].
  - exists (k0, c0). split; [left | done].
  - exists kc. split; [by right | done].
Qed.


(** A bound that every group meets is met by the smallest one. *)
Lemma counts_min_ge counts t :
  counts <> [] -> (forall kc, kc ∈ counts -> t <= Z.of_nat (snd kc)) -> t <= counts_min counts.
Proof.
  intros Hne Hall. destruct (counts_min_attained counts Hne) as (kc & Hin & ->). by apply Hall.
Qed.


(** *** What [check_k_anonymity] returns *)

Section Check.

Variable k_threshold : Z.

(** With every declared column present, the check returns the size of the
    smallest group (0 if there is none), the comparison of that size with
    the threshold, and one report per group below the threshold. *)
Lemma check_k_anonymity_present df qis :
  missing (columns df) qis = [] -> qis <> [] -> NoDup qis ->
  exists res,
    check_k_anonymity k_threshold df qis = Ok res /\
    k_value res = counts_min (groups df qis) /\
    is_compliant res = (k_threshold <=? k_value res) /\
    vulnerable_combinations res
    = combo_report qis <$> filter (fun kc => Z.of_nat (snd kc) < k_threshold) (groups df qis).
Proof.
  intros Hm Hne Hnd. unfold check_k_anonymity. rewrite Hm.
  rewrite (value_counts_present _ _ Hm Hne Hnd). simpl. eauto.
Qed.


Lemma check_k_anonymity_absent df qis :
  missing (columns df) qis <> [] ->
  check_k_anonymity k_threshold df qis
  = Ok {| k_value := 0;
          is_compliant := false;
          vulnerable_combinations := [];
          recommendations :=
            [("Missing columns: " +:+ repr_list (missing (columns df) qis))%string] |}.
Proof. intros Hm. unfold check_k_anonymity. by destruct (missing _ _). Qed.

End Check.

(** *** The entry reported for a group *)

Lemma dict_zip_acc_lookup (f : string -> value) names (d : gmap string value) c :
  fold_left (fun d p => <[fst p := snd p]> d) (zip names (f <$> names)) d !! c
  = if decide (c ∈ names) then Some (f c) else d !! c.
Proof.
  revert d. induction names as [|n names IH]; intros d; simpl.
  - destruct (decide (c ∈ [])) as [Hin|_]; [by apply elem_of_nil in Hin | done].
  - rewrite IH. destruct (decide (c ∈ names)) as [Hin|Hnin].
    + destruct (decide (c ∈ n :: names)) as [_|Hn]; [done|].
      destruct Hn. by right.
    + destruct (decide (c ∈ n :: names)) as [[->|Hin]%elem_of_cons|Hn].
      * apply lookup_insert_eq.
      * done.
      * apply lookup_insert_ne. intros ->. apply Hn. left.
Qed.

Lemma dict_zip_lookup (f : string -> value) names c :
  dict_zip names (f <$> names) !! c = if decide (c ∈ names) then Some (f c) else None.
Proof. unfold dict_zip. by rewrite dict_zip_acc_lookup, lookup_empty. Qed.


(** *** Boolean masks over the rows *)

Lemma replicate_length_fmap {A B} (l : list A) (b : B) :
  replicate (length l) b = (fun _ => b) <$> l.
Proof. induction l as [|x l IH]; [done | by f_equal/=]. Qed.

Lemma zip_with_fmap_same {A B} (op : B -> B -> B) (f g : A -> B) (l : list A) :
  zip_with op (f <$> l) (g <$> l) = (fun x => op (f x) (g x)) <$> l.
Proof. induction l as [|x l IH]; [done | by f_equal/=]. Qed.

Lemma fmap_ext_all {A B} (f g : A -> B) (l : list A) :
  (forall x, f x = g x) -> f <$> l = g <$> l.
Proof. intros H. apply list_fmap_ext. auto. Qed.

Lemma filter_ext_elem {A} (P Q : A -> Prop)
    `{!forall x, Decision (P x), !forall x, Decision (Q x)} (l : list A) :
  (forall x, x ∈ l -> P x <-> Q x) -> filter P l = filter Q l.
Proof.
  induction l as [|x l IH]; intros Hext; [done|].
  rewrite !filter_cons.
  assert (Hx : P x <-> Q x) by (apply Hext; left).
  rewrite IH by (intros y Hy; apply Hext; by right).
  destruct (decide (P x)), (decide (Q x)); tauto.
Qed.

Lemma select_rows_fmap df (f : list value -> bool) :
  select_rows df (f <$> rows df) = filter (fun r => f r = true) (rows df).
Proof.
  unfold select_rows. induction (rows df) as [|r l IH]; [done|].
  cbn [fmap list_fmap zip zip_with]. rewrite !filter_cons.
  destruct (decide ((r, f r).2 = true)) as [H1|H1], (decide (f r = true)) as [H2|H2];
    simpl in H1; try done.
  cbn [fmap list_fmap fst]. f_equal. exact IH.
Qed.

(** *** Boolean series with labels *)

Lemma series_get_fmap (f : Z -> bool) (labels : list Z) l :
  series_get ((fun l' => (l', f l')) <$> labels) l = if decide (l ∈ labels) then f l else false.
Proof.
  unfold series_get. induction labels as [|l' labels IH]; [done|].
  cbn [fmap list_fmap find fst]. case_bool_decide as Hl.
  - subst l'. by rewrite decide_True by left.
  - rewrite IH. destruct (decide (l ∈ labels)) as [Hin|Hnin].
    + by rewrite decide_True by (by right).
    + rewrite decide_False; [done|]. intros [?|?]%elem_of_cons; congruence.
Qed.

Lemma series_get_not_label (s : list (Z * bool)) l : l ∉ s.*1 -> series_get s l = false.
Proof.
  unfold series_get. induction s as [|[l' b] s IH]; [done|].
  intros [Hne Hnin]%not_elem_of_cons. cbn [find fst].
  rewrite bool_decide_eq_false_2 by (simpl in Hne; congruence). by apply IH.
Qed.

(** Combining two series combines their values label by label. *)
Lemma series_get_op op a b l :
  op false false = false ->
  series_get (series_op op a b) l = op (series_get a l) (series_get b l).
Proof.
  intros Hop. unfold series_op.
  rewrite (series_get_fmap (fun l => op (series_get a l) (series_get b l))).
  destruct (decide (l ∈ a.*1 ++ filter (fun l => l ∉ a.*1) b.*1)) as [Hin|Hnin]; [done|].
  rewrite !series_get_not_label, ?Hop; [done| |].
  - intros Hb. apply Hnin, elem_of_app.
    destruct (decide (l ∈ a.*1)); [by left|]. right. by apply list_elem_of_filter.
  - intros Ha. apply Hnin, elem_of_app. by left.
Qed.

Lemma elem_of_range_index n l : l ∈ range_index n <-> 0 <= l < Z.of_nat n.
Proof.
  unfold range_index. rewrite list_elem_of_fmap. split.
  - intros (i & -> & Hi%elem_of_seq). lia.
  - intros Hl. exists (Z.to_nat l). split; [lia|]. apply elem_of_seq. lia.
Qed.

Lemma series_get_const df b l :
  series_get (const_series df b) l
  = if decide (0 <= l < Z.of_nat (length (rows df))) then b else false.
Proof.
  unfold const_series. rewrite (series_get_fmap (fun _ => b)).
  destruct (decide (l ∈ range_index _)) as [Hin|Hnin].
  - by rewrite decide_True by (by apply elem_of_range_index).
  - rewrite decide_False; [done|]. intros H. by apply Hnin, elem_of_range_index.
Qed.

(** A series over the default labels holds at label [i] its value at
    position [i]. *)
Lemma series_get_zip_seq (vals : list bool) (start i : nat) :
  series_get (zip (Z.of_nat <$> seq start (length vals)) vals) (Z.of_nat (start + i))
  = default false (vals !! i).
Proof.
  revert start i. induction vals as [|b vals IH]; intros start i; [by destruct i|].
  cbn [length seq fmap list_fmap zip zip_with]. unfold series_get. cbn [find fst].
  destruct i as [|i].
  - rewrite Nat.add_0_r. by rewrite bool_decide_eq_true_2.
  - rewrite bool_decide_eq_false_2 by lia.
    replace (start + S i)%nat with (S start + i)%nat by lia. apply IH.
Qed.

Lemma series_get_eq_default df col val i r :
  default_index df -> rows df !! i = Some r ->
  series_get (series_eq df col val) (Z.of_nat i) = py_eq (cell (columns df) r col) val.
Proof.
  intros Hdef Hr. unfold series_eq. rewrite Hdef. unfold range_index.
  rewrite <- (length_fmap (fun r => py_eq (cell (columns df) r col) val) (rows df)).
  rewrite (series_get_zip_seq _ 0 i), list_lookup_fmap, Hr. done.
Qed.

(** The value of the two masks of [suppress_rows] at a label. *)
Lemma combo_mask_fold df items init l :
  series_get
    (fold_left (fun row_mask cv => series_op andb row_mask (series_eq df (fst cv) (snd cv)))
               items init) l
  = series_get init l
    && forallb (fun cv => series_get (series_eq df (fst cv) (snd cv)) l) items.
Proof.
  revert init. induction items as [|cv items IH]; intros init; cbn [fold_left forallb].
  - by rewrite andb_true_r.
  - rewrite IH, series_get_op by done. by rewrite andb_assoc.
Qed.

Lemma valid_mask_fold df qis valid init l :
  series_get
    (fold_left (fun mask combo => series_op orb mask (combo_mask df qis combo)) valid init) l
  = series_get init l
    || existsb (fun combo => series_get (combo_mask df qis combo) l) valid.
Proof.
  revert init. induction valid as [|combo valid IH]; intros init; cbn [fold_left existsb].
  - by rewrite orb_false_r.
  - rewrite IH, series_get_op by done. by rewrite orb_assoc.
Qed.

(** With the default labels, the mask marks the label of a row exactly
    when the row carries one of the valid combinations. *)
Lemma valid_mask_default df qis valid i r :
  default_index df -> rows df !! i = Some r ->
  series_get (valid_mask df qis valid) (Z.of_nat i)
  = existsb (fun combo =>
               forallb (fun cv => py_eq (cell (columns df) r (fst cv)) (snd cv))
                       (map_to_list (dict_zip qis combo))) valid.
Proof.
  intros Hdef Hr. unfold valid_mask. rewrite valid_mask_fold, series_get_const.
  assert (Hi : 0 <= Z.of_nat i < Z.of_nat (length (rows df))).
  { apply lookup_lt_Some in Hr. lia. }
  rewrite decide_True by done. cbn [orb].
  induction valid as [|combo valid IH]; [done|]. cbn [existsb]. rewrite IH. f_equal.
  unfold combo_mask. rewrite combo_mask_fold, series_get_const, decide_True by done.
  cbn [andb]. induction (map_to_list (dict_zip qis combo)) as [|cv items IHi]; [done|].
  cbn [forallb]. by rewrite IHi, (series_get_eq_default df _ _ i r).
Qed.

(** [df[mask]] on a frame with the default labels. *)
Lemma filter_by_mask_seq (mask : list (Z * bool)) (f : list value -> bool)
    (l : list (list value)) (start : nat) :
  (forall i r, l !! i = Some r -> series_get mask (Z.of_nat (start + i)) = f r) ->
  snd <$> filter (fun lr : Z * list value => series_get mask (fst lr) = true)
                 (zip (Z.of_nat <$> seq start (length l)) l)
  = filter (fun r => f r = true) l.
Proof.
  revert start. induction l as [|r l IH]; intros start Hf; [done|].
  cbn [length seq fmap list_fmap zip zip_with]. rewrite !filter_cons. cbn [fst].
  pose proof (Hf 0%nat r eq_refl) as H0. rewrite Nat.add_0_r in H0. rewrite H0.
  assert (Hrest : snd <$> filter (fun lr : Z * list value => series_get mask (fst lr) = true)
                                 (zip (Z.of_nat <$> seq (S start) (length l)) l)
                  = filter (fun r => f r = true) l).
  { apply IH. intros i r' Hr'. replace (S start + i)%nat with (start + S i)%nat by lia.
    by apply Hf. }
  destruct (decide (f r = true)); [cbn [fmap list_fmap snd]|]; by rewrite Hrest.
Qed.

Lemma filter_by_mask_default df mask (f : list value -> bool) :
  default_index df ->
  (forall i r, rows df !! i = Some r -> series_get mask (Z.of_nat i) = f r) ->
  snd <$> filter_by_mask df mask = filter (fun r => f r = true) (rows df).
Proof.
  intros Hdef Hf. unfold filter_by_mask. rewrite Hdef. unfold range_index.
  by apply (filter_by_mask_seq mask f (rows df) 0).
Qed.

Lemma py_eq_true a b : py_eq a b = true <-> is_null b = false /\ a = b.
Proof.
  unfold py_eq. split.
  - intros [[Ha Hb]%andb_true_iff Heq%bool_decide_eq_true]%andb_true_iff.
    split; [by destruct (is_null b) | done].
  - intros [Hb ->]. rewrite Hb. simpl. by apply bool_decide_eq_true.
Qed.

Lemma has_null_false k : has_null k = false <-> forall v, v ∈ k -> is_null v = false.
Proof.
  unfold has_null. induction k as [|v k IH]; simpl.
  - split; [|done]. intros _ v Hv. by apply elem_of_nil in Hv.
  - rewrite orb_false_iff, IH. split.
    + intros [Hv Hk] v' [->|Hin]%elem_of_cons; auto.
    + intros H. split; [apply H; left | intros v' Hv'; apply H; by right].
Qed.

(** A row passes the test of a combination exactly when it carries that
    combination in the quasi-identifier columns. *)
Lemma combo_test_project cols qis r r0 :
  has_null (project cols qis r0) = false ->
  forallb (fun cv => py_eq (cell cols r (fst cv)) (snd cv))
          (map_to_list (dict_zip qis (project cols qis r0))) = true
  <-> project cols qis r = project cols qis r0.
Proof.
  intros Hnn. rewrite has_null_false in Hnn. unfold project in *.
  rewrite forallb_forall. split.
  - intros H. apply Forall_fmap_ext_1, Forall_forall. intros q Hq.
    specialize (H (q, cell cols r0 q)). simpl in H. apply py_eq_true in H; [by destruct H|].
    apply list_elem_of_In, elem_of_map_to_list. rewrite dict_zip_lookup. by rewrite decide_True.
  - intros Heq [c v] Hin. simpl.
    apply list_elem_of_In, elem_of_map_to_list in Hin. rewrite dict_zip_lookup in Hin.
    destruct (decide (c ∈ qis)) as [Hc|]; [|done]. injection Hin as <-.
    apply py_eq_true. split.
    + apply Hnn. by apply list_elem_of_fmap_2.
    + apply Forall_fmap_ext in Heq. rewrite Forall_forall in Heq. by apply Heq.
Qed.

(** *** What [suppress_rows] keeps *)

Lemma valid_test_group_size df qis (m : Z) r :
  r ∈ rows df ->
  existsb (fun combo =>
      forallb (fun cv => py_eq (cell (columns df) r (fst cv)) (snd cv))
              (map_to_list (dict_zip qis combo)))
    (fst <$> filter (fun kc => m <= Z.of_nat (snd kc)) (groups df qis)) = true
  <-> has_null (project (columns df) qis r) = false /\ m <= Z.of_nat (group_size df qis r).
Proof.
  intros Hr. rewrite existsb_exists. unfold group_size. split.
  - intros (combo & Hin & Htest).
    apply list_elem_of_In, list_elem_of_fmap in Hin as ([k c] & -> & Hin).
    apply list_elem_of_filter in Hin as [Hm Hin]. simpl in *.
    apply elem_of_groups in Hin as [Hk ->].
    pose proof Hk as Hk'. apply elem_of_group_keys in Hk' as (Hnn & r0 & Hr0 & ->).
    apply combo_test_project in Htest; [|done]. by rewrite Htest.
  - intros [Hnn Hm]. exists (project (columns df) qis r). split.
    + apply list_elem_of_In, list_elem_of_fmap.
      exists (project (columns df) qis r, occurrences (project (columns df) qis r) (group_keys df qis)).
      split; [done|]. apply list_elem_of_filter. split; [done|].
      apply elem_of_groups. split; [|done]. apply elem_of_group_keys. eauto.
    + by apply combo_test_project.
Qed.

Section Suppress.

Variable k_threshold : Z.

(** With the declared columns present, [suppress_rows] returns a frame with
    the columns of its input whose rows are those rows of the input that
    carry no missing quasi-identifier and whose group has at least
    [min_group_size or k_threshold] rows, in the order of the input. *)
Lemma suppress_rows_present df qis mgs :
  missing (columns df) qis = [] -> qis <> [] -> NoDup qis -> default_index df ->
  exists out,
    suppress_rows k_threshold df qis mgs = Ok out /\
    columns out = columns df /\
    rows out = filter (fun r => has_null (project (columns df) qis r) = false /\
                                or_threshold k_threshold mgs <= Z.of_nat (group_size df qis r))
                      (rows df).
Proof.
  intros Hm Hne Hnd Hdef. unfold suppress_rows. rewrite (value_counts_present _ _ Hm Hne Hnd).
  cbn [mbind result_bind].
  set (m := or_threshold k_threshold mgs).
  set (valid := fst <$> filter (fun kc => m <= Z.of_nat (snd kc)) (groups df qis)).
  set (test := fun r => existsb (fun combo =>
                 forallb (fun cv => py_eq (cell (columns df) r (fst cv)) (snd cv))
                         (map_to_list (dict_zip qis combo))) valid).
  assert (Htest : filter (fun r => test r = true) (rows df)
                  = filter (fun r => has_null (project (columns df) qis r) = false /\
                                     m <= Z.of_nat (group_size df qis r)) (rows df)).
  { apply filter_ext_elem. intros r Hr. by apply valid_test_group_size. }
  assert (Hsel : snd <$> filter_by_mask df (valid_mask df qis valid)
                 = filter (fun r => has_null (project (columns df) qis r) = false /\
                                    m <= Z.of_nat (group_size df qis r)) (rows df)).
  { rewrite <- Htest. apply filter_by_mask_default; [done|].
    intros i r Hr. by apply valid_mask_default. }
  destruct valid as [|combo valid'] eqn:Hvalid.
  - eexists. split; [done|]. split.
    + unfold columns. simpl. rewrite <- list_fmap_compose. apply list_fmap_id.
    + rewrite <- Htest. cbn [rows]. symmetry. apply filter_none. intros r _. done.
  - eexists. split; [done|]. split; [done | exact Hsel].
Qed.

End Suppress.

(** *** The groups that survive suppression *)

Lemma fmap_filter_comm {A B} (f : A -> B) (P : A -> Prop) (Q : B -> Prop)
    `{!forall x, Decision (P x), !forall y, Decision (Q y)} (l : list A) :
  (forall x, P x <-> Q (f x)) ->
  f <$> filter P l = filter Q (f <$> l).
Proof.
  intros HPQ. induction l as [|x l IH]; [done|].
  cbn [fmap list_fmap]. rewrite !filter_cons.
  destruct (decide (P x)) as [HP|HP], (decide (Q (f x))) as [HQ|HQ];
    try (by apply HPQ in HP); try (by apply HPQ in HQ);
    cbn [fmap list_fmap]; by rewrite <- IH.
Qed.

Lemma occurrences_filter (R : list value -> Prop) `{!forall k, Decision (R k)} k keys :
  occurrences k (filter R keys) = if decide (R k) then occurrences k keys else 0%nat.
Proof.
  unfold occurrences. rewrite list_filter_filter. destruct (decide (R k)) as [Hk|Hk].
  - f_equal. apply list_filter_iff. intros k'. split; [tauto|]. by intros ->.
  - rewrite filter_none; [done|]. intros k' _ [-> ?]. done.
Qed.

Lemma keys_of_kept_rows (cols qis : list string) (keys : list (list value)) (m : Z)
    (l : list (list value)) :
  filter (fun k => has_null k = false)
         (project cols qis <$>
            filter (fun r => has_null (project cols qis r) = false /\
                             m <= Z.of_nat (occurrences (project cols qis r) keys)) l)
  = filter (fun k => m <= Z.of_nat (occurrences k keys))
           (filter (fun k => has_null k = false) (project cols qis <$> l)).
Proof.
  rewrite (fmap_filter_comm (project cols qis) _
             (fun k => has_null k = false /\ m <= Z.of_nat (occurrences k keys))) by done.
  rewrite !list_filter_filter. apply list_filter_iff. intros k. tauto.
Qed.

Lemma group_keys_suppressed df out qis (m : Z) :
  columns out = columns df ->
  rows out = filter (fun r => has_null (project (columns df) qis r) = false /\
                              m <= Z.of_nat (group_size df qis r)) (rows df) ->
  group_keys out qis
  = filter (fun k => m <= Z.of_nat (occurrences k (group_keys df qis))) (group_keys df qis).
Proof.
  intros Hcols Hrows. unfold group_keys at 1. rewrite Hcols, Hrows.
  apply keys_of_kept_rows.
Qed.

(** After suppression the groups are the groups of the input that reach
    the minimum, each with the number of rows it had. *)
Lemma elem_of_groups_suppressed df out qis (m : Z) k c :
  columns out = columns df ->
  rows out = filter (fun r => has_null (project (columns df) qis r) = false /\
                              m <= Z.of_nat (group_size df qis r)) (rows df) ->
  (k, c) ∈ groups out qis <-> (k, c) ∈ groups df qis /\ m <= Z.of_nat c.
Proof.
  intros Hcols Hrows. rewrite !elem_of_groups.
  rewrite (group_keys_suppressed df out qis m Hcols Hrows).
  rewrite list_elem_of_filter, occurrences_filter. split.
  - intros [[Hm Hk] ->]. rewrite decide_True by done. done.
  - intros [[Hk ->] Hm]. by rewrite decide_True.
Qed.

(** *** Generalization keeps the columns *)

Lemma generalize_columns missing_text df column level :
  column ∈ columns df ->
  exists g, generalize missing_text df column level = Ok g /\ columns g = columns df.
Proof.
  intros Hin. unfold generalize.
  destruct (index_of_elem _ _ Hin) as [i Hi]. rewrite Hi.
  eexists. split; [done|]. unfold columns. simpl.
  rewrite list_fmap_insert. simpl. apply list_insert_id.
  by apply index_of_lookup.
Qed.

Lemma apply_strategy_columns missing_text items df :
  exists g, apply_strategy missing_text df items = Ok g /\ columns g = columns df.
Proof.
  revert df. induction items as [|[column level] items IH]; intros df; simpl; [eauto|].
  destruct (decide (column ∈ columns df)) as [Hin|_]; [|apply IH].
  destruct (generalize_columns missing_text df column level Hin) as (g & -> & Hg). simpl.
  destruct (IH g) as (g' & -> & Hg'). exists g'. split; [done | congruence].
Qed.



(** *** The operations as the specification states them *)

Section Engine.

Variable k_threshold : Z.
Variable astype_str_missing : option string.



Lemma or_threshold_default mgs :
  mgs <> Some 0 -> or_threshold k_threshold mgs = default k_threshold mgs.
Proof.
  destruct mgs as [m|]; [|done]. intros Hm. unfold or_threshold. simpl.
  destruct (m =? 0) eqn:Hz; [|done]. apply Z.eqb_eq in Hz. congruence.
Qed.

(** C4, amended.  For a well-formed frame with pandas' default row
    labels, with at least one declared quasi-identifier, each named once
    and all of them present, and with the minimum [min_group_size or
    k_threshold] (the threshold when [min_group_size] is left out or is
    0), [suppress_rows] returns a frame with the columns of its input that
    keeps, in their order, exactly the rows that have no missing
    quasi-identifier and whose group has at least the minimum number of
    rows; every other row is removed.  If no group reaches the minimum,
    the returned frame has no rows. *)
Theorem suppress_rows_keeps_valid_groups df qis mgs :
  well_formed df -> default_index df ->
  qis <> [] -> NoDup qis -> (forall q, q ∈ qis -> q ∈ columns df) ->
  exists out,
    suppress_rows k_threshold df qis mgs = Ok out /\
    columns out = columns df /\
    rows out = filter (fun r => has_null (project (columns df) qis r) = false /\
                                or_threshold k_threshold mgs
                                <= Z.of_nat (group_size df qis r))
                      (rows df) /\
    ((forall k c, (k, c) ∈ groups df qis -> Z.of_nat c < or_threshold k_threshold mgs) ->
       rows out = []).
Proof.
  intros _ Hdef Hne Hnd Hall. apply missing_nil in Hall.
  destruct (suppress_rows_present k_threshold df qis mgs Hall Hne Hnd Hdef)
    as (out & Hout & Hco & Hro).
  exists out. split; [done|]. split; [done|]. split; [done|].
  intros Hsmall. rewrite Hro. apply filter_none. intros r Hr [Hnn Hsize].
  assert (Hin : (project (columns df) qis r, group_size df qis r) ∈ groups df qis).
  { apply elem_of_groups. split; [|done]. apply elem_of_group_keys. eauto. }
  apply Hsmall in Hin. lia.
Qed.

(** C9.  When a declared quasi-identifier is absent, [check_k_anonymity]
    returns k = 0, not compliant, with the recommendation that names the
    missing columns; [ensure_k_anonymity] with suppression then calls
    [suppress_rows], whose [df[quasi_identifiers]] raises [KeyError]. *)
Theorem missing_columns_check_reports_ensure_raises df qis strategy :
  missing (columns df) qis <> [] ->
  check_k_anonymity k_threshold df qis
  = Ok {| k_value := 0;
          is_compliant := false;
          vulnerable_combinations := [];
          recommendations :=
            [("Missing columns: " +:+ repr_list (missing (columns df) qis))%string] |} /\
  exists msg,
    ensure_k_anonymity k_threshold astype_str_missing df qis strategy true
    = Raise (KeyError msg).
Proof.
  intros Hm. split; [by apply check_k_anonymity_absent|].
  destruct (apply_strategy_columns astype_str_missing (default [] strategy) df)
    as (g & Hg & Hcols).
  unfold ensure_k_anonymity. rewrite Hg. cbn [mbind result_bind].
  rewrite <- Hcols in Hm.
  rewrite (check_k_anonymity_absent k_threshold g qis Hm).
  cbn [mbind result_bind is_compliant negb andb].
  unfold suppress_rows. rewrite (value_counts_absent g qis Hm). eauto.
Qed.

(** Without suppression the same call returns the frame and that result. *)
Lemma missing_columns_ensure_without_suppression df qis strategy :
  missing (columns df) qis <> [] ->
  exists g res,
    ensure_k_anonymity k_threshold astype_str_missing df qis strategy false = Ok (g, res) /\
    k_value res = 0 /\ is_compliant res = false.
Proof.
  intros Hm.
  destruct (apply_strategy_columns astype_str_missing (default [] strategy) df)
    as (g & Hg & Hcols).
  unfold ensure_k_anonymity. rewrite Hg. cbn [mbind result_bind].
  rewrite <- Hcols in Hm.
  rewrite (check_k_anonymity_absent k_threshold g qis Hm). cbn. eauto.
Qed.

Lemma groupby_present df by_columns :
  missing (columns df) by_columns = [] -> by_columns <> [] ->
  exists grouped, groupby df by_columns = Ok grouped.
Proof.
  intros Hm Hne. unfold groupby. rewrite Hm.
  destruct by_columns; [done|]. destruct (rows df); eauto.
Qed.

Lemma key_dtypes_columns df by_columns : fst <$> key_dtypes df by_columns = by_columns.
Proof.
  unfold key_dtypes. rewrite <- list_fmap_compose.
  induction by_columns as [|c l IH]; [done|]. cbn [fmap list_fmap]. by rewrite IH.
Qed.

(** [reset_index] goes through exactly when the keys are distinct and
    none of them is a value column. *)
Lemma reset_index_conflict_None by_columns value_columns :
  reset_index_conflict by_columns value_columns = None
  <-> NoDup by_columns /\ forall c, c ∈ by_columns -> c ∉ value_columns.
Proof.
  induction by_columns as [|c later IH]; cbn [reset_index_conflict].
  - split; [|done]. intros _. split; [constructor|]. by intros c ?%elem_of_nil.
  - destruct (reset_index_conflict later value_columns) as [refused|] eqn:Hlater.
    + split; [done|]. intros [Hnd Hfresh]. apply NoDup_cons in Hnd as [_ Hnd].
      exfalso. assert (Some refused = None); [|done]. apply IH. split; [done|].
      intros c' Hc'. apply Hfresh. by right.
    + destruct (proj1 IH eq_refl) as [Hnd Hfresh].
      destruct (decide (c ∈ value_columns ++ later)) as [Hin|Hnin].
      * split; [done|]. intros [Hnd' Hfresh']. apply NoDup_cons in Hnd' as [Hc _].
        exfalso. apply elem_of_app in Hin as [Hin|Hin]; [|done].
        by apply (Hfresh' c); [left|].
      * split; [|done]. intros _. apply not_elem_of_app in Hnin as [Hv Hl].
        split; [by constructor|]. intros c' [->|Hc']%elem_of_cons; [done | by apply Hfresh].
Qed.

Lemma reset_index_Ok by_columns value_columns :
  reset_index by_columns value_columns = Ok ()
  <-> NoDup by_columns /\ forall c, c ∈ by_columns -> c ∉ value_columns.
Proof.
  rewrite <- reset_index_conflict_None. unfold reset_index.
  destruct (reset_index_conflict by_columns value_columns); split; done.
Qed.

Lemma reset_index_conflict_Some by_columns value_columns c :
  reset_index_conflict by_columns value_columns = Some c -> c ∈ by_columns.
Proof.
  induction by_columns as [|c' later IH]; cbn [reset_index_conflict]; [done|].
  destruct (reset_index_conflict later value_columns) as [refused|].
  - intros [= ->]. right. by apply IH.
  - destruct (decide (c' ∈ value_columns ++ later)); [|done]. intros [= ->]. left.
Qed.

(** C3.  When the aggregation map names no column of the frame (it may be
    empty), the view is built by [grouped.size().reset_index(name='count')],
    which has no column [_group_count]; no view is returned: the filter on
    that column raises [KeyError]; with a group-by column listed twice,
    [reset_index] itself raises [ValueError] before. *)
Theorem aggregate_view_without_statistics_raises agg_apply df group_by aggregate_columns mgs :
  group_by <> [] -> (forall c, c ∈ group_by -> c ∈ columns df) ->
  "count"%string ∉ group_by -> "_group_count"%string ∉ group_by ->
  (forall cf, cf ∈ aggregate_columns -> fst cf ∉ columns df) ->
  or_threshold k_threshold mgs <> 0 ->
  exists e,
    create_aggregate_only_view k_threshold agg_apply df group_by aggregate_columns mgs
    = Raise e /\
    (NoDup group_by -> e = KeyError "'_group_count'") /\
    (~ NoDup group_by ->
     exists c, c ∈ group_by /\
               e = ValueError ("cannot insert " +:+ c +:+ ", already exists")).
Proof.
  intros Hne Hall Hcount Hgc Hagg Hmin. apply missing_nil in Hall.
  destruct (groupby_present df group_by Hall Hne) as (grouped & Hgrouped).
  unfold create_aggregate_only_view. rewrite Hgrouped. cbn [mbind result_bind].
  rewrite (filter_none (fun cf => fst cf ∈ columns df) aggregate_columns)
    by (intros cf Hcf ?; by apply (Hagg cf)).
  destruct (reset_index group_by ["count"%string]) as [[]|e] eqn:Hreset.
  - cbn [mbind result_bind].
    destruct (or_threshold k_threshold mgs =? 0) eqn:Hz; [by apply Z.eqb_eq in Hz|].
    unfold series_ge, columns. cbn [schema]. rewrite fmap_app, key_dtypes_columns.
    apply reset_index_Ok in Hreset as [Hnd _].
    rewrite index_of_not_elem.
    + eexists. split; [done|]. split; [done|]. by intros [].
    + intros [?|Hin]%elem_of_app; [done|].
      apply list_elem_of_singleton in Hin. done.
  - cbn [mbind result_bind]. exists e. split; [done|]. split.
    + intros Hnd.
      assert (Hok : reset_index group_by ["count"%string] = Ok ()); [|congruence].
      apply reset_index_Ok. split; [done|]. intros c Hc ->%list_elem_of_singleton. done.
    + intros _. unfold reset_index in Hreset.
      destruct (reset_index_conflict group_by ["count"%string]) as [c|] eqn:Hc; [|done].
      injection Hreset as <-. exists c. split; [|done].
      by eapply reset_index_conflict_Some.
Qed.

End Engine.


(** *** The aggregate-only view with at least one statistic *)

Lemma mapM_Ok {A B} (f : A -> result B) (l : list A) (ys : list B) :
  mapM f l = Ok ys -> Forall2 (fun x y => f x = Ok y) l ys.
Proof.
  revert ys. induction l as [|x l IH]; intros ys; cbn.
  - intros [= <-]. constructor.
  - destruct (f x) as [y|e] eqn:Hx; cbn; [|done].
    destruct (mapM f l) as [k|e] eqn:Hl; cbn; [|done].
    intros [= <-]. constructor; [done | by apply IH].
Qed.

Lemma index_of_app_fresh c l1 l2 i :
  c ∉ l1 -> index_of c (l1 ++ l2) = Some i -> (length l1 <= i)%nat.
Proof.
  revert i. induction l1 as [|c' l1 IH]; intros i Hnin; simpl; [lia|].
  apply not_elem_of_cons in Hnin as [Hne Hnin].
  rewrite decide_False by done.
  destruct (index_of c (l1 ++ l2)) as [j|] eqn:Hj; simpl; [|done].
  intros [= <-]. specialize (IH j Hnin eq_refl). lia.
Qed.

Lemma index_of_snoc_fresh c l : c ∉ l -> index_of c (l ++ [c]) = Some (length l).
Proof.
  induction l as [|c' l IH]; intros Hnin; simpl.
  - by rewrite decide_True.
  - apply not_elem_of_cons in Hnin as [Hne Hnin].
    rewrite decide_False by done. by rewrite IH.
Qed.

Lemma take_delete_ge {A} (l : list A) n i : (n <= i)%nat -> take n (delete i l) = take n l.
Proof.
  intros Hle. apply list_eq. intros j. rewrite !lookup_take.
  destruct (decide (j < n)%nat); [|done]. apply list_lookup_delete_lt. lia.
Qed.

(** After [aggregated[column] = values] every row holds its value in that
    column and is otherwise as before in front of it. *)
Lemma set_column_rows df column vals i :
  index_of column (columns (set_column df column vals)) = Some i ->
  Forall (fun r => length r = length (schema df)) (rows df) ->
  forall j r', rows (set_column df column vals) !! j = Some r' ->
    exists r v, rows df !! j = Some r /\ vals !! j = Some v /\ r' !! i = Some v /\
                forall n, (n <= i)%nat -> take n r' = take n r.
Proof.
  unfold set_column. intros Hi Hlen j r' Hj.
  destruct (index_of column (columns df)) as [i0|] eqn:Hi0; simpl in *.
  - assert (Hcols : fst <$> <[i0:=(column, DNumeric)]> (schema df) = columns df).
    { rewrite list_fmap_insert. apply list_insert_id. by apply index_of_lookup. }
    unfold columns at 1 in Hi. simpl in Hi. rewrite Hcols, Hi0 in Hi. injection Hi as <-.
    apply lookup_zip_with_Some in Hj as (r & v & -> & Hr & Hv).
    exists r, v. split; [done|]. split; [done|]. split.
    + apply list_lookup_insert_eq.
      rewrite Forall_lookup in Hlen. rewrite (Hlen j r Hr).
      apply index_of_lookup, lookup_lt_Some in Hi0. unfold columns in Hi0.
      by rewrite length_fmap in Hi0.
    + intros n Hn. by apply take_insert_ge.
  - unfold columns at 1 in Hi. simpl in Hi. rewrite fmap_app in Hi. simpl in Hi.
    assert (Hnin : column ∉ columns df).
    { intros [i' Hi']%index_of_elem. congruence. }
    fold (columns df) in Hi. rewrite (index_of_snoc_fresh _ _ Hnin) in Hi. injection Hi as <-.
    apply lookup_zip_with_Some in Hj as (r & v & -> & Hr & Hv).
    exists r, v. split; [done|]. split; [done|].
    rewrite Forall_lookup in Hlen. pose proof (Hlen j r Hr) as Hr'.
    unfold columns. rewrite length_fmap, <- Hr'. split.
    + apply list_lookup_middle. done.
    + intros n Hn. by apply take_app_le.
Qed.

Lemma elem_of_select_rows df mask row :
  row ∈ select_rows df mask ->
  exists j, rows df !! j = Some row /\ mask !! j = Some true.
Proof.
  unfold select_rows. intros ([r b] & -> & [Hb Hin]%list_elem_of_filter)%list_elem_of_fmap.
  simpl in *. subst b.
  apply list_elem_of_lookup in Hin as [j Hj].
  apply lookup_zip_with_Some in Hj as (r' & b' & [= -> ->] & Hr & Hb).
  eauto.
Qed.

Lemma elem_of_groupby df by_columns grouped k members :
  groupby df by_columns = Ok grouped -> (k, members) ∈ grouped ->
  length k = length by_columns /\
  members = filter (fun r => project (columns df) by_columns r = k) (rows df).
Proof.
  unfold groupby. destruct (missing _ _); [|done].
  assert (Hin : (k, members) ∈
                  (fun k => (k, filter (fun r => project (columns df) by_columns r = k) (rows df)))
                    <$> remove_dups (group_keys df by_columns) ->
                length k = length by_columns /\
                members = filter (fun r => project (columns df) by_columns r = k) (rows df)).
  { intros (k' & [= -> ->] & Hk)%list_elem_of_fmap. split; [|done].
    rewrite elem_of_remove_dups in Hk.
    apply elem_of_group_keys in Hk as (_ & r & _ & ->). unfold project. apply length_fmap. }
  destruct by_columns; [destruct (rows df); [|done]|]; intros [= <-]; exact Hin.
Qed.

Section AggregateFacts.

Variable k_threshold : Z.
Variable agg_apply : string -> list value -> result value.

(** X9.  When no group-by column is called [_group_count], the aggregation
    map names a column of the frame and the view is returned, every row of
    the view starts with the key of a group that has at least
    [min_group_size or k_threshold] rows. *)
Lemma aggregate_view_rows_from_large_groups df group_by aggregate_columns mgs out :
  "_group_count"%string ∉ group_by ->
  filter (fun cf => fst cf ∈ columns df) aggregate_columns <> [] ->
  or_threshold k_threshold mgs <> 0 ->
  create_aggregate_only_view k_threshold agg_apply df group_by aggregate_columns mgs = Ok out ->
  exists grouped,
    groupby df group_by = Ok grouped /\
    forall row, row ∈ rows out ->
      exists k members,
        (k, members) ∈ grouped /\
        take (length group_by) row = k /\
        or_threshold k_threshold mgs <= Z.of_nat (length members).
Proof.
  intros Hgc Hagg Hmin. unfold create_aggregate_only_view.
  destruct (groupby df group_by) as [grouped|e] eqn:Hgrouped; [|done].
  cbn [mbind result_bind].
  set (agg_dict := filter (fun cf => fst cf ∈ columns df) aggregate_columns) in *.
  destruct agg_dict as [|cf0 agg_rest] eqn:Hdict; [done|]. rewrite <- Hdict. clear Hagg.
  destruct (mapM _ grouped) as [stats|e] eqn:Hstats; [|done]. cbn [mbind result_bind].
  destruct (reset_index _ _) as [[]|e]; [|done]. cbn [mbind result_bind].
  destruct (or_threshold k_threshold mgs =? 0) eqn:Hz; [by apply Z.eqb_eq in Hz|].
  set (aggregated := {| schema := key_dtypes df group_by ++ ((fun cf => (fst cf, DObject)) <$> agg_dict);
                        rows := zip_with (fun g st => fst g ++ st) grouped stats;
                        index := range_index (length grouped) |}).
  set (sizes := (fun g => VInt (Z.of_nat (length (snd g)))) <$> grouped).
  destruct (series_ge (set_column aggregated "_group_count" sizes) "_group_count" _)
    as [mask|e] eqn:Hmask; [|done]. cbn [mbind result_bind].
  unfold drop_column. cbn [schema rows index].
  unfold series_ge in Hmask.
  assert (Hsame : columns {| schema := schema (set_column aggregated "_group_count" sizes);
                             rows := select_rows (set_column aggregated "_group_count" sizes) mask;
                             index := select_index (set_column aggregated "_group_count" sizes) mask |}
                  = columns (set_column aggregated "_group_count" sizes)) by done.
  rewrite Hsame.
  destruct (index_of "_group_count" (columns (set_column aggregated "_group_count" sizes)))
    as [i|] eqn:Hi; [|done].
  intros [= <-]. exists grouped. split; [done|]. cbn [rows].
  intros row (r' & -> & Hr')%list_elem_of_fmap.
  apply elem_of_select_rows in Hr' as (j & Hj & Hmj).
  (* the rows before the count column was set *)
  apply mapM_Ok in Hstats.
  assert (Hlen : Forall (fun r => length r = length (schema aggregated)) (rows aggregated)).
  { apply Forall_lookup. intros j' r Hr.
    apply lookup_zip_with_Some in Hr as (g & st & -> & Hg & Hst).
    destruct g as [k members].
    destruct (elem_of_groupby df group_by grouped k members Hgrouped) as [Hk _];
      [by eapply list_elem_of_lookup_2|].
    pose proof (Forall2_lookup_lr _ _ _ _ _ _ Hstats Hg Hst) as Hrow.
    apply mapM_Ok, Forall2_length in Hrow.
    unfold aggregated. cbn [schema fst]. rewrite !length_app, !length_fmap.
    unfold key_dtypes. rewrite length_fmap. lia. }
  destruct (set_column_rows aggregated "_group_count" sizes i Hi Hlen j r' Hj)
    as (r & v & Hr & Hv & Hcell & Htake).
  apply lookup_zip_with_Some in Hr as (g & st & -> & Hg & Hst).
  destruct g as [k members]. cbn [fst] in *.
  exists k, members.
  destruct (elem_of_groupby df group_by grouped k members Hgrouped) as [Hk _];
    [by eapply list_elem_of_lookup_2|].
  assert (Hgi : (length group_by <= i)%nat).
  { apply (index_of_app_fresh "_group_count" group_by
             (drop (length group_by) (columns (set_column aggregated "_group_count" sizes))));
      [done|].
    rewrite <- Hi. f_equal.
    assert (Hpre : take (length group_by) (columns (set_column aggregated "_group_count" sizes))
                   = group_by).
    { unfold set_column. destruct (index_of "_group_count" (columns aggregated)) as [i0|] eqn:Hi0.
      - unfold columns at 1. cbn [schema]. rewrite list_fmap_insert. cbn [fst].
        rewrite list_insert_id by (by apply index_of_lookup).
        unfold columns, aggregated. cbn [schema]. rewrite fmap_app, key_dtypes_columns.
        apply take_app_length.
      - unfold columns, aggregated. cbn [schema]. rewrite !fmap_app, key_dtypes_columns.
        rewrite <- app_assoc. apply take_app_length. }
    rewrite <- Hpre at 1. apply take_drop. }
  split; [by eapply list_elem_of_lookup_2|]. split.
  - rewrite take_delete_ge by done. rewrite (Htake _ Hgi).
    by apply take_app_length'.
  - (* the mask is true only where the count reaches the minimum *)
    apply mapM_Ok in Hmask.
    pose proof (Forall2_lookup_lr _ _ _ _ _ _ Hmask Hj Hmj) as Hge.
    cbv beta in Hge. rewrite Hcell in Hge. cbn [default] in Hge.
    unfold sizes in Hv. rewrite list_lookup_fmap, Hg in Hv. injection Hv as <-.
    cbn [snd] in Hge. injection Hge as Hge. by apply Z.leb_le.
Qed.

End AggregateFacts.

(** *** The examples of the specification and of the claims *)

(** Groups of sizes 2, 5, 5 and 8 with threshold 5: k = 2, not compliant,
    one vulnerable group, the one of size 2. *)
Example check_example_frame :
  (res ← check_k_anonymity 5 example_frame ["zip"%string];
   Ok (k_value res, is_compliant res,
       (fun entry => (entry !! "zip"%string, entry !! "count"%string))
         <$> vulnerable_combinations res))
  = Ok (2, false, [(Some (VStr "10115"), Some (VInt 2))]).
Proof. vm_compute. reflexivity. Qed.

(** Suppressing at minimum 5 keeps 18 of the 20 rows; the check of the
    result reports k = 5, compliant. *)
Example suppress_example_frame :
  (out ← suppress_rows 5 example_frame ["zip"%string] None;
   res ← check_k_anonymity 5 out ["zip"%string];
   Ok (length (rows out), k_value res, is_compliant res))
  = Ok (18%nat, 5, true).
Proof. vm_compute. reflexivity. Qed.

Lemma zip_in_example_frame q : q ∈ ["zip"%string] -> q ∈ columns example_frame.
Proof. intros ->%list_elem_of_singleton. left. Qed.

Lemma example_frame_well_formed : well_formed example_frame.
Proof. split; apply (bool_decide_unpack _); vm_compute; exact I. Qed.

Lemma example_frame_default_index : default_index example_frame.
Proof. reflexivity. Qed.


Lemma suppress_rows_keeps_valid_groups_witness :
  well_formed example_frame /\ default_index example_frame /\
  ["zip"%string] <> [] /\ NoDup ["zip"%string] /\
  (forall q, q ∈ ["zip"%string] -> q ∈ columns example_frame) /\
  exists out,
    suppress_rows 5 example_frame ["zip"%string] (Some 6) = Ok out /\
    columns out = columns example_frame /\
    rows out = example_rows "80331" 8.
Proof.
  assert (H1 : ["zip"%string] <> []) by done.
  assert (H3 : NoDup ["zip"%string]) by (apply NoDup_singleton).
  split; [exact example_frame_well_formed|]. split; [exact example_frame_default_index|].
  split; [exact H1|]. split; [exact H3|]. split; [exact zip_in_example_frame|].
  destruct (suppress_rows_keeps_valid_groups 5 example_frame ["zip"%string] (Some 6)
              example_frame_well_formed example_frame_default_index H1 H3
              zip_in_example_frame)
    as (out & Hout & Hco & Hro & _).
  exists out. split; [exact Hout|]. split; [exact Hco|].
  rewrite Hro. vm_compute. reflexivity.
Defined.

(** What [suppress_rows] does with two rows of one city and two rows whose
    city is missing, at minimum 2. *)
Example suppress_frame_with_missing_city :
  groups frame_with_missing_city ["city"%string] = [([VStr "Berlin"], 2%nat)] /\
  suppress_rows 2 frame_with_missing_city ["city"%string] None
  = Ok {| schema := [("city"%string, DObject)];
          rows := [[VStr "Berlin"]; [VStr "Berlin"]];
          index := [0; 1] |}.
Proof. split; vm_compute; reflexivity. Qed.

(** C4 as stated fails on that frame.  It is not the case that the rows
    removed are exactly the rows of a group smaller than the minimum: no
    group is smaller than 2, and the rows whose city is missing are
    removed.  Nor are the rows kept exactly those that share their tuple
    with at least 2 rows: the two rows with a missing city share theirs. *)
Lemma suppress_rows_removes_rows_of_no_group :
  let df := frame_with_missing_city in
  let qis := ["city"%string] in
  ~ (forall out r,
       suppress_rows 2 df qis None = Ok out -> r ∈ rows df ->
       (r ∉ rows out <->
        exists k c, (k, c) ∈ groups df qis /\ project (columns df) qis r = k /\
                    Z.of_nat c < 2)) /\
  ~ (forall out r,
       suppress_rows 2 df qis None = Ok out -> r ∈ rows df ->
       (r ∈ rows out <->
        2 <= Z.of_nat (length (filter (fun r' => project (columns df) qis r'
                                                 = project (columns df) qis r) (rows df))))).
Proof.
  intros df qis.
  destruct suppress_frame_with_missing_city as [Hgroups Hout].
  assert (Hin : [VNull] ∈ rows df) by (apply (bool_decide_unpack _); vm_compute; exact I).
  assert (Hnot : [VNull] ∉ [[VStr "Berlin"]; [VStr "Berlin"]])
    by (apply (bool_decide_unpack _); vm_compute; exact I).
  split; intros Hclaim.
  - destruct (Hclaim _ [VNull] Hout Hin) as [Hremoved _].
    destruct (Hremoved Hnot) as (k & c & Hkc & _ & Hc).
    unfold df, qis in Hkc. rewrite Hgroups in Hkc.
    apply list_elem_of_singleton in Hkc. injection Hkc as -> ->. lia.
  - destruct (Hclaim _ [VNull] Hout Hin) as [_ Hkept].
    apply Hnot, Hkept. vm_compute. discriminate.
Qed.


(** What the hypotheses on the row labels and on the names are for.  The
    18 rows that suppression at minimum 5 keeps of the example frame carry
    the labels 2 to 19.  Called on them with threshold 7,
    [ensure_k_anonymity] suppresses again; the fresh masks of
    [suppress_rows] carry the labels 0 to 17 and meet the comparisons of
    the frame by label, so that the rows labelled 12 to 17 are kept, 6 of
    the 8 rows of the one group that is large enough: k = 6, not
    compliant. *)
Example ensure_on_relabelled_frame :
  (kept ← suppress_rows 5 example_frame ["zip"%string] None;
   p ← ensure_k_anonymity 7 None kept ["zip"%string] None true;
   Ok (index kept, rows (fst p), index (fst p), k_value (snd p), is_compliant (snd p)))
  = Ok (Z.of_nat <$> seq 2 18, example_rows "80331" 6, [12; 13; 14; 15; 16; 17], 6, false).
Proof. vm_compute. reflexivity. Qed.

(** A quasi-identifier named twice: [value_counts] raises, in the check
    as in [suppress_rows]. *)
Example check_with_repeated_name :
  check_k_anonymity 5 example_frame ["zip"%string; "zip"%string]
  = Raise (ValueError "Grouper for 'zip' not 1-dimensional") /\
  suppress_rows 5 example_frame ["zip"%string; "zip"%string] None
  = Raise (ValueError "Grouper for 'zip' not 1-dimensional").
Proof. split; vm_compute; reflexivity. Qed.

Lemma missing_columns_check_reports_ensure_raises_witness :
  missing (columns example_frame) ["zip"%string; "age"%string] <> [] /\
  check_k_anonymity 5 example_frame ["zip"%string; "age"%string]
  = Ok {| k_value := 0;
          is_compliant := false;
          vulnerable_combinations := [];
          recommendations := ["Missing columns: ['age']"%string] |} /\
  exists msg,
    ensure_k_anonymity 5 None example_frame ["zip"%string; "age"%string] None true
    = Raise (KeyError msg).
Proof.
  assert (H : missing (columns example_frame) ["zip"%string; "age"%string] <> [])
    by (vm_compute; discriminate).
  split; [exact H|].
  exact (missing_columns_check_reports_ensure_raises 5 None example_frame
           ["zip"%string; "age"%string] None H).
Defined.

(** The exception of that call, as pandas words it. *)
Example ensure_with_absent_age :
  ensure_k_anonymity 5 None example_frame ["zip"%string; "age"%string] None true
  = Raise (KeyError "['age'] not in index").
Proof. vm_compute. reflexivity. Qed.

Lemma aggregate_view_without_statistics_raises_witness :
  ["zip"%string] <> [] /\
  (forall c, c ∈ ["zip"%string] -> c ∈ columns example_frame) /\
  ("count"%string ∉ ["zip"%string]) /\ ("_group_count"%string ∉ ["zip"%string]) /\
  (forall cf : string * string, cf ∈ [] -> fst cf ∉ columns example_frame) /\
  or_threshold 5 None <> 0 /\ NoDup ["zip"%string] /\
  create_aggregate_only_view 5 count_cells example_frame ["zip"%string] [] None
  = Raise (KeyError "'_group_count'").
Proof.
  assert (H1 : ["zip"%string] <> []) by done.
  assert (H3 : "count"%string ∉ ["zip"%string]) by (by intros ?%list_elem_of_singleton).
  assert (H4 : "_group_count"%string ∉ ["zip"%string]) by (by intros ?%list_elem_of_singleton).
  assert (H5 : forall cf : string * string, cf ∈ [] -> fst cf ∉ columns example_frame)
    by (by intros cf ?%elem_of_nil).
  assert (H6 : or_threshold 5 None <> 0) by done.
  split; [exact H1|]. split; [exact zip_in_example_frame|]. split; [exact H3|].
  assert (H7 : NoDup ["zip"%string]) by (apply NoDup_singleton).
  split; [exact H4|]. split; [exact H5|]. split; [exact H6|]. split; [exact H7|].
  destruct (aggregate_view_without_statistics_raises 5 count_cells example_frame
              ["zip"%string] [] None H1 zip_in_example_frame H3 H4 H5 H6)
    as (e & Hraise & Hkind & _).
  rewrite Hraise. f_equal. exact (Hkind H7).
Defined.

(** With the group-by column listed twice, [reset_index] refuses it. *)
Example aggregate_view_with_repeated_key :
  create_aggregate_only_view 5 count_cells example_frame ["zip"%string; "zip"%string] [] None
  = Raise (ValueError "cannot insert zip, already exists").
Proof. vm_compute. reflexivity. Qed.

(** With a statistic asked for, the view is returned and leaves out the
    group of 2 rows. *)
Example aggregate_view_with_count :
  create_aggregate_only_view 5 count_cells example_frame ["zip"%string]
    [("visits"%string, "count"%string)] None
  = Ok {| schema := [("zip"%string, DObject); ("visits"%string, DObject)];
          rows := [[VStr "20095"; VInt 5]; [VStr "50667"; VInt 5]; [VStr "80331"; VInt 8]];
          index := [1; 2; 3] |}.
Proof. vm_compute. reflexivity. Qed.

(** C2 at a frame whose quasi-identifier column is called [count]: the
    entry of the vulnerable group holds the count 1 under ["count"] and
    nothing of the tuple (7). *)
Lemma check_report_overwrites_count_column :
  groups frame_with_count_column ["count"%string] = [([VInt 7], 1%nat)] /\
  (res ← check_k_anonymity 5 frame_with_count_column ["count"%string];
   Ok (k_value res, is_compliant res, map_to_list <$> vulnerable_combinations res))
  = Ok (1, false, [[("count"%string, VInt 1)]]).
Proof. split; vm_compute; reflexivity. Qed.

End KAnonymityFacts.

(** ** Properties of the PII detector *)
Module PIIDetectionFacts.
Import Regex PIIDetection.

(** No pattern finds anything in the empty string, so leaving out empty
    strings loses no match. *)
Lemma patterns_reject_empty :
  forallb (fun entry => negb (search (snd entry) EmptyString)) PATTERNS = true.
Proof. vm_compute. reflexivity. Qed.

Lemma PATTERNS_functional e e' :
  e ∈ PATTERNS -> e' ∈ PATTERNS -> fst e = fst e' -> e = e'.
Proof.
  unfold PATTERNS. rewrite !elem_of_cons, !elem_of_nil.
  intros H H'. 
  repeat (destruct H as [->|H]; [repeat (destruct H' as [->|H']; [done || by intros ?|]); done|]).
  done.
Qed.

Lemma PATTERNS_not_NAME e : e ∈ PATTERNS -> fst e <> NAME.
Proof.
  unfold PATTERNS. rewrite !elem_of_cons, !elem_of_nil.
  intros H. repeat (destruct H as [->|H]; [done|]). done.
Qed.

Section Detector.

Variable min_confidence : float.

(** Whether the loop emits a detection for a pattern: at least one value
    matches and the confidence reaches [min_confidence]. *)
Lemma elem_of_detect_pattern column sample fds entry d :
  d ∈ detect_pattern min_confidence column sample fds entry ->
  pii_type d = fst entry /\
  sample_values d = take 5 (pattern_matches (snd entry) sample) /\
  confidence d = pattern_confidence (length (pattern_matches (snd entry) sample)) (length sample) /\
  (0 < length (pattern_matches (snd entry) sample))%nat /\
  float_ge (confidence d) min_confidence = true.
Proof.
  unfold detect_pattern.
  destruct (pattern_matches (snd entry) sample) as [|v matches] eqn:Hm.
  - by intros ?%elem_of_nil.
  - destruct (float_ge _ min_confidence) eqn:Hge; [|by intros ?%elem_of_nil].
    intros ->%list_elem_of_singleton. simpl. repeat split; try done. lia.
Qed.

Lemma detect_pattern_emits column sample fds entry :
  (0 < length (pattern_matches (snd entry) sample))%nat ->
  float_ge (pattern_confidence (length (pattern_matches (snd entry) sample)) (length sample))
           min_confidence = true ->
  exists d, d ∈ detect_pattern min_confidence column sample fds entry /\ pii_type d = fst entry.
Proof.
  intros Hpos Hge. unfold detect_pattern.
  destruct (pattern_matches (snd entry) sample) as [|v matches] eqn:Hm; [simpl in Hpos; lia|].
  rewrite Hge. eexists. split; [apply list_elem_of_singleton; reflexivity | done].
Qed.

Lemma elem_of_detect_names column sample d :
  d ∈ _detect_names min_confidence column sample ->
  pii_type d = NAME /\
  sample_values d = filter (fun v => truthy v = true) (take 5 sample) /\
  row_count d = Z.of_nat (length sample).
Proof.
  unfold _detect_names.
  destruct (existsb _ name_indicators); [|by intros ?%elem_of_nil].
  destruct (0 <? _)%nat; [|by intros ?%elem_of_nil].
  destruct (float_ge _ min_confidence); [|by intros ?%elem_of_nil].
  by intros ->%list_elem_of_singleton.
Qed.

Lemma elem_of_detect_pii_in_column column sample fds d :
  d ∈ detect_pii_in_column min_confidence column sample fds ->
  (exists entry, entry ∈ PATTERNS /\
                 d ∈ detect_pattern min_confidence column sample fds entry) \/
  d ∈ _detect_names min_confidence column sample.
Proof.
  unfold detect_pii_in_column. destruct sample as [|v sample]; [by intros ?%elem_of_nil|].
  intros [Hin|Hin]%elem_of_app; [left | by right].
  apply list_elem_of_In, in_flat_map in Hin as (entry & He & Hd).
  exists entry. split; by apply list_elem_of_In.
Qed.

(** C7, amended.  An empty sample yields no classification.  For a type
    with a pattern, a classification of that type is returned exactly when
    at least one sampled value matches the pattern and
    min(matches / sample size * 1.2, 1.0) reaches the minimum confidence. *)
Theorem pattern_detection_emitted_iff column sample fds t pattern :
  (t, pattern) ∈ PATTERNS ->
  detect_pii_in_column min_confidence column [] fds = [] /\
  ((exists d, d ∈ detect_pii_in_column min_confidence column sample fds /\ pii_type d = t)
   <-> (0 < length (pattern_matches pattern sample))%nat /\
       float_ge (pattern_confidence (length (pattern_matches pattern sample)) (length sample))
                min_confidence = true).
Proof.
  intros Hin. split; [done|]. split.
  - intros (d & Hd & Ht).
    apply elem_of_detect_pii_in_column in Hd as [(entry & He & Hd)|Hd].
    + apply elem_of_detect_pattern in Hd as (Hty & _ & Hconf & Hpos & Hge).
      assert (entry = (t, pattern)) as -> by (apply PATTERNS_functional; [done..|simpl; congruence]).
      simpl in *. by rewrite <- Hconf.
    + apply elem_of_detect_names in Hd as [Hty _].
      apply PATTERNS_not_NAME in Hin. simpl in Hin. congruence.
  - intros [Hpos Hge].
    destruct (detect_pattern_emits column sample fds (t, pattern) Hpos Hge) as (d & Hd & Hty).
    exists d. split; [|done]. unfold detect_pii_in_column.
    destruct sample as [|v sample]; [simpl in Hpos; lia|].
    apply elem_of_app. left. apply list_elem_of_In, in_flat_map.
    exists (t, pattern). split; by apply list_elem_of_In.
Qed.

(** The matches counted are the sampled values that are strings in which
    the pattern finds something. *)
Lemma pattern_matches_strings entry sample v :
  entry ∈ PATTERNS ->
  v ∈ pattern_matches (snd entry) sample <->
  v ∈ sample /\ exists s, v = VStr s /\ search (snd entry) s = true.
Proof.
  intros He. unfold pattern_matches. rewrite list_elem_of_filter. split.
  - intros [Ht Hv]. split; [done|]. destruct v as [|n|s|y m d'|y m|y]; try done.
    exists s. split; [done|]. simpl in Ht. by apply andb_true_iff in Ht as [_ ?].
  - intros [Hv (s & -> & Hs)]. split; [|done]. simpl. apply andb_true_iff. split; [|done].
    apply negb_true_iff, bool_decide_eq_false. intros ->.
    pose proof patterns_reject_empty as Hall. rewrite forallb_forall in Hall.
    apply list_elem_of_In, Hall in He. by rewrite Hs in He.
Qed.

(** Every classification carries at most five sample values. *)
Lemma sample_values_at_most_five column sample fds d :
  d ∈ detect_pii_in_column min_confidence column sample fds ->
  (length (sample_values d) <= 5)%nat.
Proof.
  intros [(entry & _ & Hd)|Hd]%elem_of_detect_pii_in_column.
  - apply elem_of_detect_pattern in Hd as (_ & -> & _). rewrite length_take. lia.
  - apply elem_of_detect_names in Hd as (_ & -> & _).
    etrans; [apply length_filter|]. rewrite length_take. lia.
Qed.

(** X30.  A classification from a pattern carries values that the pattern
    matched, and the full size of the column when the caller gave it. *)
Lemma pattern_detection_samples_matched column sample n d :
  d ∈ detect_pii_in_column min_confidence column sample (Some n) ->
  pii_type d <> NAME -> n <> 0 ->
  row_count d = n /\
  exists entry, entry ∈ PATTERNS /\ pii_type d = fst entry /\
    forall v, v ∈ sample_values d -> v ∈ pattern_matches (snd entry) sample.
Proof.
  intros [(entry & He & Hd)|Hd]%elem_of_detect_pii_in_column Hty Hn.
  - pose proof Hd as Hd'. apply elem_of_detect_pattern in Hd' as (Ht & Hs & _).
    split.
    + unfold detect_pattern in Hd.
      destruct (pattern_matches (snd entry) sample); [by apply elem_of_nil in Hd|].
      destruct (float_ge _ min_confidence); [|by apply elem_of_nil in Hd].
      apply list_elem_of_singleton in Hd as ->. simpl.
      destruct (n =? 0) eqn:Hz; [by apply Z.eqb_eq in Hz | done].
    + exists entry. split; [done|]. split; [done|]. intros v Hv. rewrite Hs in Hv.
      by apply subseteq_take in Hv.
  - by apply elem_of_detect_names in Hd as [? _].
Qed.

End Detector.

(** The two examples of the specification: 8 of 10 values are e-mail
    addresses, then 3 of 10. *)
Example eight_of_ten_emails :
  detect_pii_in_column 0.7 "contact"
    (replicate 8 (VStr "ann@example.org") ++ replicate 2 (VStr "n/a")) (Some 2000)
  = [{| pii_type := EMAIL;
        column_name := "contact";
        row_count := 2000;
        sample_values := replicate 5 (VStr "ann@example.org");
        confidence := 0.96 |}].
Proof. vm_compute. reflexivity. Qed.

Example three_of_ten_emails :
  detect_pii_in_column 0.7 "contact"
    (replicate 3 (VStr "ann@example.org") ++ replicate 7 (VStr "n/a")) (Some 2000)
  = [].
Proof. vm_compute. reflexivity. Qed.

Lemma pattern_detection_emitted_iff_witness :
  (EMAIL, email_pattern) ∈ PATTERNS /\
  exists d, d ∈ detect_pii_in_column 0.7 "contact"
                  (replicate 8 (VStr "ann@example.org") ++ replicate 2 (VStr "n/a")) None /\
            pii_type d = EMAIL.
Proof.
  assert (Hin : (EMAIL, email_pattern) ∈ PATTERNS) by (unfold PATTERNS; left).
  split; [exact Hin|].
  apply (pattern_detection_emitted_iff 0.7 "contact" _ None EMAIL email_pattern Hin).
  split; vm_compute; [lia | reflexivity].
Defined.

(** C7 as stated fails when the minimum confidence is 0: with no match
    the confidence is 0, which reaches the minimum, and yet no
    classification is returned. *)
Lemma pattern_detection_needs_a_match :
  ~ ((exists d, d ∈ detect_pii_in_column 0 "contact" [VStr "n/a"] None /\ pii_type d = EMAIL)
     <-> float_ge (pattern_confidence (length (pattern_matches email_pattern [VStr "n/a"])) 1)
                  0 = true).
Proof.
  intros [_ Hemit]. destruct Hemit as (d & Hd & _); [vm_compute; reflexivity|].
  vm_compute in Hd. by apply elem_of_nil in Hd.
Qed.

(** C8 at the column [name] with the sample ["john", "xyz"] and 1000 rows:
    the NAME classification lists "xyz", which the name detector did not
    match, and reports 2 rows. *)
Lemma name_detection_reports_unmatched_sample :
  detect_pii_in_column 0.7 "name" [VStr "john"; VStr "xyz"] (Some 1000)
  = [{| pii_type := NAME;
        column_name := "name";
        row_count := 2;
        sample_values := [VStr "john"; VStr "xyz"];
        confidence := 0.75 |}] /\
  str_test looks_like_name (VStr "xyz") = false.
Proof. split; vm_compute; reflexivity. Qed.

End PIIDetectionFacts.

(** ** More properties of the k-anonymity engine *)
Module KAnonymityExtras.
Import KAnonymity KAnonymityFacts KAnonymityMore.

(** *** [generalize] *)

Lemma cell_insert_same cols (r : list value) c i v :
  index_of c cols = Some i -> (i < length r)%nat -> cell cols (<[i:=v]> r) c = v.
Proof. intros Hi Hlt. unfold cell. rewrite Hi. by rewrite list_lookup_insert_eq. Qed.

Lemma index_of_eq cols c q i : index_of c cols = Some i -> index_of q cols = Some i -> q = c.
Proof. intros Hc%index_of_lookup Hq%index_of_lookup. congruence. Qed.

Lemma cell_insert_other cols (r : list value) c q i v :
  index_of c cols = Some i -> q <> c -> cell cols (<[i:=v]> r) q = cell cols r q.
Proof.
  intros Hi Hne. unfold cell. destruct (index_of q cols) as [j|] eqn:Hj; [|done].
  rewrite list_lookup_insert_ne; [done|]. intros ->. by apply Hne, (index_of_eq cols c q j).
Qed.

Lemma dtype_of_present df c i :
  index_of c (columns df) = Some i -> exists dt, dtype_of df c = Some dt /\ schema df !! i = Some (c, dt).
Proof.
  intros Hi. unfold dtype_of. rewrite Hi. simpl.
  pose proof (index_of_lookup _ _ _ Hi) as Hc. unfold columns in Hc.
  rewrite list_lookup_fmap in Hc. destruct (schema df !! i) as [[c' dt]|] eqn:Hs; [|done].
  simpl in Hc. injection Hc as ->. eauto.
Qed.

Lemma generalize_cells missing_text df c level :
  well_formed df -> c ∈ columns df ->
  exists g dt,
    generalize missing_text df c level = Ok g /\ dtype_of df c = Some dt /\
    columns g = columns df /\ well_formed g /\
    Forall2 (fun r r' => forall q,
               cell (columns df) r' q
               = if decide (q = c)
                 then generalize_value missing_text dt level (cell (columns df) r c)
                 else cell (columns df) r q)
            (rows df) (rows g).
Proof.
  intros [Hnd Hlen] Hin. destruct (index_of_elem _ _ Hin) as [i Hi].
  destruct (dtype_of_present df c i Hi) as (dt & Hdt & Hs).
  destruct (generalize_columns missing_text df c level Hin) as (g & Hg & Hcols).
  exists g, dt. split; [done|]. split; [done|]. split; [done|].
  unfold generalize in Hg. rewrite Hi, Hs in Hg. simpl in Hg. injection Hg as <-.
  simpl. split.
  - split; [by rewrite Hcols|]. simpl. rewrite length_insert.
    apply Forall_fmap. eapply Forall_impl; [exact Hlen|].
    intros r Hr. simpl. by rewrite length_insert.
  - apply Forall2_fmap_r, Forall_Forall2_diag.
    eapply Forall_impl; [exact Hlen|]. intros r Hr q. simpl in Hr.
    assert (Hlt : (i < length r)%nat).
    { rewrite Hr. apply index_of_lookup, lookup_lt_Some in Hi.
      unfold columns in Hi. by rewrite length_fmap in Hi. }
    destruct (decide (q = c)) as [->|Hne].
    + rewrite (cell_insert_same _ _ _ _ _ Hi Hlt). unfold cell. by rewrite Hi.
    + by apply (cell_insert_other _ _ c).
Qed.

Lemma frame_with_ages_well_formed : well_formed frame_with_ages.
Proof. split; apply (bool_decide_unpack _); vm_compute; exact I. Qed.





(** Below the range it does not: the least [int64], rounded down to a
    multiple of 1000, comes out positive and is no multiple of 1000; a
    second rounding changes it again. *)
Example generalize_value_wraps_around :
  generalize_value None DNumeric "high" (VInt (- 2 ^ 63)) = VInt 9223372036854775616 /\
  generalize_value None DNumeric "high" (VInt 9223372036854775616)
  = VInt 9223372036854775000.
Proof. split; vm_compute; reflexivity. Qed.










(** *** Generalization and k *)

Lemma generalize_value_keeps_null missing_text dt level v :
  dt = DNumeric \/ dt = DDatetime ->
  is_null (generalize_value missing_text dt level v) = is_null v.
Proof.
  intros [->| ->]; destruct v; try done.
  simpl. by destruct (decide (level = "low"%string)).
Qed.

Lemma zip_with_fmap_right {A B C} (g : A -> B -> C) (h : A -> B) (l : list A) :
  zip_with g l (h <$> l) = (fun x => g x (h x)) <$> l.
Proof. induction l as [|x l IH]; [done | by f_equal/=]. Qed.

Lemma lift_tuple_project f c cols qis (r r' : list value) :
  (forall q, cell cols r' q = if decide (q = c) then f (cell cols r c) else cell cols r q) ->
  project cols qis r' = lift_tuple f c qis (project cols qis r).
Proof.
  intros Hq. unfold project, lift_tuple. rewrite zip_with_fmap_right.
  apply list_fmap_ext. intros _ q _. rewrite Hq. by destruct (decide (q = c)) as [->|].
Qed.

Lemma lift_tuple_has_null f c cols qis (r : list value) :
  (forall v, is_null (f v) = is_null v) ->
  has_null (lift_tuple f c qis (project cols qis r)) = has_null (project cols qis r).
Proof.
  intros Hf. unfold lift_tuple, project, has_null. rewrite zip_with_fmap_right.
  induction qis as [|q qis IH]; [done|]. cbn [fmap list_fmap existsb]. rewrite IH.
  f_equal. destruct (decide (q = c)); [apply Hf | done].
Qed.

Lemma Forall2_fmap_eq {A B C} (f : A -> C) (g : B -> C) (l : list A) (k : list B) :
  Forall2 (fun x y => g y = f x) l k -> g <$> k = f <$> l.
Proof. induction 1 as [|x y l k Hxy _ IH]; [done|]. cbn [fmap list_fmap]. by rewrite Hxy, IH. Qed.

Lemma fmap_filter_comm_elem {A B} (f : A -> B) (P : A -> Prop) (Q : B -> Prop)
    `{!forall x, Decision (P x), !forall y, Decision (Q y)} (l : list A) :
  (forall x, x ∈ l -> P x <-> Q (f x)) ->
  f <$> filter P l = filter Q (f <$> l).
Proof.
  induction l as [|x l IH]; intros HPQ; [done|].
  cbn [fmap list_fmap]. rewrite !filter_cons.
  assert (Hx : P x <-> Q (f x)) by (apply HPQ; left).
  rewrite <- IH by (intros y Hy; apply HPQ; by right).
  destruct (decide (P x)), (decide (Q (f x))); try tauto; done.
Qed.

Lemma occurrences_fmap (f : list value -> list value) k keys :
  (occurrences k keys <= occurrences (f k) (f <$> keys))%nat.
Proof.
  unfold occurrences. induction keys as [|k' keys IH]; [done|].
  cbn [fmap list_fmap]. rewrite !filter_cons.
  destruct (decide (k' = k)) as [->|Hne].
  - rewrite decide_True by done. simpl. lia.
  - destruct (decide (f k' = f k)); simpl; lia.
Qed.

Lemma remove_dups_nil_inv {A} `{EqDecision A} (l : list A) : remove_dups l = [] -> l = [].
Proof.
  destruct l as [|x l]; [done|]. intros Hnil.
  assert (Hx : x ∈ remove_dups (x :: l)) by (rewrite elem_of_remove_dups; left).
  rewrite Hnil in Hx. by apply elem_of_nil in Hx.
Qed.

(** The groups of a frame whose rows carry the lifted tuples. *)
Lemma group_keys_lifted f c df g qis :
  (forall v, is_null (f v) = is_null v) ->
  columns g = columns df ->
  Forall2 (fun r r' => forall q,
             cell (columns df) r' q
             = if decide (q = c) then f (cell (columns df) r c) else cell (columns df) r q)
          (rows df) (rows g) ->
  group_keys g qis = lift_tuple f c qis <$> group_keys df qis.
Proof.
  intros Hf Hcols Hrows. unfold group_keys. rewrite Hcols.
  rewrite (Forall2_fmap_eq (fun r => lift_tuple f c qis (project (columns df) qis r))
             (project (columns df) qis) (rows df) (rows g)).
  2:{ eapply Forall2_impl; [exact Hrows|]. intros r r' Hq. by apply lift_tuple_project. }
  rewrite (list_fmap_compose (project (columns df) qis) (lift_tuple f c qis)).
  symmetry. apply fmap_filter_comm_elem.
  intros k (r & -> & _)%list_elem_of_fmap. by rewrite lift_tuple_has_null.
Qed.

(** X6.  Generalizing a numeric or a date column never lowers k: on a
    well-formed frame that has the declared quasi-identifiers, each named
    once, the check of the generalized frame reports a k that is at least
    the k of the frame before, and a frame that was compliant stays
    compliant. *)
Theorem generalize_never_lowers_k k_threshold astype_str_missing df qis c level :
  well_formed df -> qis <> [] -> NoDup qis -> (forall q, q ∈ qis -> q ∈ columns df) ->
  dtype_of df c = Some DNumeric \/ dtype_of df c = Some DDatetime ->
  exists g res res',
    generalize astype_str_missing df c level = Ok g /\
    check_k_anonymity k_threshold df qis = Ok res /\
    check_k_anonymity k_threshold g qis = Ok res' /\
    k_value res <= k_value res' /\
    (is_compliant res = true -> is_compliant res' = true).
Proof.
  intros Hwf Hne Hnd Hall Hdt.
  assert (Hin : c ∈ columns df).
  { unfold dtype_of in Hdt. destruct (index_of c (columns df)) as [i|] eqn:Hi.
    - by eapply list_elem_of_lookup_2, index_of_lookup.
    - by destruct Hdt. }
  destruct (generalize_cells astype_str_missing df c level Hwf Hin)
    as (g & dt & Hg & Hdt' & Hcols & _ & Hrows).
  assert (Hnull : forall v, is_null (generalize_value astype_str_missing dt level v)
                            = is_null v).
  { intros v. apply generalize_value_keeps_null.
    rewrite Hdt' in Hdt. destruct Hdt as [[= ->]|[= ->]]; auto. }
  pose proof (group_keys_lifted _ c df g qis Hnull Hcols Hrows) as Hkeys.
  pose proof Hall as Hm. apply missing_nil in Hm.
  assert (Hm' : missing (columns g) qis = []) by (by rewrite Hcols).
  destruct (check_k_anonymity_present k_threshold df qis Hm Hne Hnd)
    as (res & Hres & Hk & Hc & _).
  destruct (check_k_anonymity_present k_threshold g qis Hm' Hne Hnd)
    as (res' & Hres' & Hk' & Hc' & _).
  exists g, res, res'. split; [done|]. split; [done|]. split; [done|].
  assert (Hle : k_value res <= k_value res').
  { rewrite Hk, Hk'. destruct (decide (group_keys df qis = [])) as [Hnil|Hnn].
    - unfold groups. rewrite Hkeys, Hnil. done.
    - apply counts_min_ge.
      + unfold groups. intros Hg0%fmap_nil_inv%remove_dups_nil_inv.
        rewrite Hkeys in Hg0. by apply fmap_nil_inv in Hg0.
      + intros [k' c'] [Hk'in ->]%elem_of_groups. cbn [snd].
        rewrite Hkeys in Hk'in |- *.
        apply list_elem_of_fmap in Hk'in as (k & -> & Hkin).
        etrans; [|apply inj_le, occurrences_fmap].
        apply (counts_min_le (groups df qis) (k, occurrences k (group_keys df qis))).
        by apply elem_of_groups. }
  split; [done|]. rewrite Hc, Hc'. intros Hcomp%Z.leb_le. apply Z.leb_le. lia.
Qed.

Lemma ages_in_frame q : q ∈ ["age"%string] -> q ∈ columns frame_with_ages.
Proof. intros ->%list_elem_of_singleton. left. Qed.

Lemma generalize_never_lowers_k_witness :
  well_formed frame_with_ages /\ ["age"%string] <> [] /\ NoDup ["age"%string] /\
  (forall q, q ∈ ["age"%string] -> q ∈ columns frame_with_ages) /\
  (dtype_of frame_with_ages "age" = Some DNumeric \/
   dtype_of frame_with_ages "age" = Some DDatetime) /\
  exists g res res',
    generalize None frame_with_ages "age" "low" = Ok g /\
    check_k_anonymity 2 frame_with_ages ["age"%string] = Ok res /\
    check_k_anonymity 2 g ["age"%string] = Ok res' /\
    k_value res = 1 /\ k_value res' = 1.
Proof.
  assert (Hne : ["age"%string] <> []) by done.
  assert (Hnd : NoDup ["age"%string]) by (apply NoDup_singleton).
  assert (Hdt : dtype_of frame_with_ages "age" = Some DNumeric \/
                dtype_of frame_with_ages "age" = Some DDatetime) by (left; reflexivity).
  split; [exact frame_with_ages_well_formed|]. split; [exact Hne|]. split; [exact Hnd|].
  split; [exact ages_in_frame|]. split; [exact Hdt|].
  destruct (generalize_never_lowers_k 2 None frame_with_ages ["age"%string] "age" "low"
              frame_with_ages_well_formed Hne Hnd ages_in_frame Hdt)
    as (g & res & res' & Hg & Hres & Hres' & _).
  exists g, res, res'. split; [exact Hg|]. split; [exact Hres|]. split; [exact Hres'|].
  vm_compute in Hg. injection Hg as <-.
  vm_compute in Hres. injection Hres as <-.
  vm_compute in Hres'. injection Hres' as <-.
  split; reflexivity.
Defined.

(** On a text column, where [astype(str)] writes the text of [None] for a
    missing value, the row that belonged to no group becomes a group of its
    own: k falls from 5 to 1.  Where the value stays missing, k stays 5. *)
Example generalize_text_column_with_missing_value :
  (res ← check_k_anonymity 5 frame_with_one_missing_city ["city"%string];
   g ← generalize (Some "None"%string) frame_with_one_missing_city "city" "low";
   res' ← check_k_anonymity 5 g ["city"%string];
   Ok (k_value res, is_compliant res, groups g ["city"%string], k_value res', is_compliant res'))
  = Ok (5, true, [([VStr "Berli"], 5%nat); ([VStr "None"], 1%nat)], 1, false) /\
  (g ← generalize None frame_with_one_missing_city "city" "low";
   res' ← check_k_anonymity 5 g ["city"%string];
   Ok (groups g ["city"%string], k_value res', is_compliant res'))
  = Ok ([([VStr "Berli"], 5%nat)], 5, true).
Proof. split; vm_compute; reflexivity. Qed.

(** *** The result of a check *)

Lemma counts_min_nonneg counts : 0 <= counts_min counts.
Proof.
  destruct (decide (counts = [])) as [->|Hne]; [done|].
  destruct (counts_min_attained counts Hne) as (kc & _ & ->). lia.
Qed.

(** X2.  For a well-formed frame that has the declared
    quasi-identifiers, each named once, the parts of the result of
    [check_k_anonymity]
    agree with each other: k is not negative; the result is compliant
    exactly when it carries no recommendation, and carries three of them
    otherwise; a compliant result lists no vulnerable combination; and
    there are never more vulnerable combinations than groups. *)
Theorem check_result_is_consistent k_threshold df qis :
  well_formed df -> qis <> [] -> NoDup qis -> (forall q, q ∈ qis -> q ∈ columns df) ->
  exists res,
    check_k_anonymity k_threshold df qis = Ok res /\
    0 <= k_value res /\
    (is_compliant res = true <-> recommendations res = []) /\
    (is_compliant res = false -> length (recommendations res) = 3%nat) /\
    (is_compliant res = true -> vulnerable_combinations res = []) /\
    (length (vulnerable_combinations res) <= length (groups df qis))%nat.
Proof.
  intros _ Hne Hnd Hall. apply missing_nil in Hall.
  unfold check_k_anonymity. rewrite Hall, (value_counts_present _ _ Hall Hne Hnd).
  cbn [mbind result_bind]. eexists. split; [done|]. cbn [k_value is_compliant recommendations
    vulnerable_combinations].
  split; [apply counts_min_nonneg|].
  destruct (counts_min (groups df qis) <? k_threshold) eqn:Hlt.
  - apply Z.ltb_lt in Hlt.
    assert (Hleb : (k_threshold <=? counts_min (groups df qis)) = false) by (apply Z.leb_gt; lia).
    rewrite Hleb. split; [done|]. split; [done|]. split; [done|].
    rewrite length_fmap. apply length_filter.
  - apply Z.ltb_ge in Hlt.
    assert (Hleb : (k_threshold <=? counts_min (groups df qis)) = true) by (by apply Z.leb_le).
    rewrite Hleb. split; [done|]. split; [done|]. split.
    + intros _. rewrite filter_none; [done|]. intros kc Hkc Hsmall.
      pose proof (counts_min_le _ _ Hkc). lia.
    + rewrite length_fmap. apply length_filter.
Qed.

Lemma zip_named_once : NoDup ["zip"%string].
Proof. apply NoDup_singleton. Qed.

Lemma check_result_is_consistent_witness :
  well_formed example_frame /\ ["zip"%string] <> [] /\ NoDup ["zip"%string] /\
  (forall q, q ∈ ["zip"%string] -> q ∈ columns example_frame) /\
  exists res,
    check_k_anonymity 5 example_frame ["zip"%string] = Ok res /\
    is_compliant res = false /\ length (recommendations res) = 3%nat.
Proof.
  assert (Hne : ["zip"%string] <> []) by done.
  split; [exact example_frame_well_formed|].
  split; [exact Hne|]. split; [exact zip_named_once|]. split; [exact zip_in_example_frame|].
  destruct (check_result_is_consistent 5 example_frame ["zip"%string]
              example_frame_well_formed Hne zip_named_once zip_in_example_frame)
    as (res & Hres & _ & _ & Hthree & _).
  exists res. split; [exact Hres|].
  assert (Hc : is_compliant res = false).
  { vm_compute in Hres. injection Hres as <-. reflexivity. }
  split; [exact Hc | exact (Hthree Hc)].
Defined.


(** *** Suppression followed by a check *)

Section SuppressCheck.

Variable k_threshold : Z.
Variable astype_str_missing : option string.

(** X7.  After [suppress_rows] on a well-formed frame with the row labels
    0, 1, 2, ... and the quasi-identifiers each named once, with a minimum
    that is not below the threshold, a check of the returned frame finds it
    compliant, with k at least the minimum, unless the frame has no rows
    left, in which case k is 0. *)
Theorem suppress_then_check_complies df qis mgs :
  well_formed df -> default_index df ->
  qis <> [] -> NoDup qis -> (forall q, q ∈ qis -> q ∈ columns df) ->
  k_threshold <= or_threshold k_threshold mgs ->
  exists out res,
    suppress_rows k_threshold df qis mgs = Ok out /\
    check_k_anonymity k_threshold out qis = Ok res /\
    (rows out = [] \/
     (is_compliant res = true /\ or_threshold k_threshold mgs <= k_value res)) /\
    (rows out = [] -> k_value res = 0).
Proof.
  intros _ Hdef Hne Hnd Hall Hmin. apply missing_nil in Hall.
  destruct (suppress_rows_present k_threshold df qis mgs Hall Hne Hnd Hdef)
    as (out & Hout & Hco & Hro).
  assert (Hm' : missing (columns out) qis = []) by (by rewrite Hco).
  destruct (check_k_anonymity_present k_threshold out qis Hm' Hne Hnd)
    as (res & Hres & Hk & Hc & _).
  exists out, res. split; [done|]. split; [done|].
  assert (Hsurv : forall k c, (k, c) ∈ groups out qis <->
                    (k, c) ∈ groups df qis /\ or_threshold k_threshold mgs <= Z.of_nat c).
  { intros k c. by apply elem_of_groups_suppressed. }
  split.
  - destruct (decide (groups out qis = [])) as [Hnil|Hnn].
    + left. rewrite Hro. apply filter_none. intros r Hr [Hnull Hsize].
      assert (Hin : (project (columns df) qis r, group_size df qis r) ∈ groups out qis).
      { apply Hsurv. split; [|done]. apply elem_of_groups. split; [|done].
        apply elem_of_group_keys. eauto. }
      rewrite Hnil in Hin. by apply elem_of_nil in Hin.
    + right.
      assert (Hge : or_threshold k_threshold mgs <= k_value res).
      { rewrite Hk. apply counts_min_ge; [done|].
        intros [k c] Hin. by apply Hsurv in Hin as [_ ?]. }
      split; [|done]. rewrite Hc. apply Z.leb_le. lia.
  - intros Hnil. rewrite Hk. unfold groups, group_keys. by rewrite Hnil.
Qed.

(** X8.  [ensure_k_anonymity] with suppression and without a
    generalization strategy is idempotent on well-formed frames with the
    row labels 0, 1, 2, ... and the quasi-identifiers each named once:
    called again on the frame it returned (whose rows keep the labels they
    had), with the same quasi-identifiers, it returns that frame and the
    same result. *)
Theorem ensure_k_anonymity_idempotent df qis :
  well_formed df -> default_index df ->
  qis <> [] -> NoDup qis -> (forall q, q ∈ qis -> q ∈ columns df) ->
  exists out res,
    ensure_k_anonymity k_threshold astype_str_missing df qis None true = Ok (out, res) /\
    ensure_k_anonymity k_threshold astype_str_missing out qis None true = Ok (out, res).
Proof.
  intros _ Hdef Hne Hnd Hall. apply missing_nil in Hall.
  destruct (check_k_anonymity_present k_threshold df qis Hall Hne Hnd)
    as (res1 & Hres1 & Hk1 & Hc1 & _).
  unfold ensure_k_anonymity at 1. cbn [default apply_strategy mbind result_bind].
  rewrite Hres1. cbn [mbind result_bind].
  destruct (is_compliant res1) eqn:Hcomp; cbn [negb andb].
  - exists df, res1. split; [done|].
    unfold ensure_k_anonymity. cbn [default apply_strategy mbind result_bind].
    rewrite Hres1. cbn [mbind result_bind]. by rewrite Hcomp.
  - destruct (suppress_rows_present k_threshold df qis None Hall Hne Hnd Hdef)
      as (out & Hout & Hco & Hro).
    rewrite Hout. cbn [mbind result_bind].
    assert (Hm' : missing (columns out) qis = []) by (by rewrite Hco).
    destruct (check_k_anonymity_present k_threshold out qis Hm' Hne Hnd)
      as (res2 & Hres2 & Hk2 & Hc2 & _).
    rewrite Hres2. cbn [mbind result_bind].
    exists out, res2. split; [done|].
    unfold ensure_k_anonymity. cbn [default apply_strategy mbind result_bind].
    rewrite Hres2. cbn [mbind result_bind].
    destruct (is_compliant res2) eqn:Hcomp2; cbn [negb andb]; [done|].
    (* the returned frame is not compliant: it is the empty frame *)
    assert (Hsurv : forall k c, (k, c) ∈ groups out qis <->
                      (k, c) ∈ groups df qis /\ k_threshold <= Z.of_nat c).
    { intros k c. by apply (elem_of_groups_suppressed df out qis k_threshold). }
    assert (Hnil : groups out qis = []).
    { destruct (decide (groups out qis = [])) as [|Hnn]; [done|]. exfalso.
      assert (k_threshold <= k_value res2).
      { rewrite Hk2. apply counts_min_ge; [done|].
        intros [k c] Hin. by apply Hsurv in Hin as [_ ?]. }
      symmetry in Hc2. apply Z.leb_gt in Hc2. lia. }
    assert (Hvalid : filter (fun kc : list value * nat => k_threshold <= Z.of_nat (snd kc))
                            (groups df qis) = []).
    { apply filter_none. intros [k c] Hin Hge. simpl in Hge.
      assert (Hin' : (k, c) ∈ groups out qis) by (by apply Hsurv).
      rewrite Hnil in Hin'. by apply elem_of_nil in Hin'. }
    assert (Hempty : out = {| schema := (fun c => (c, DObject)) <$> columns df;
                              rows := []; index := [] |}).
    { unfold suppress_rows in Hout. rewrite (value_counts_present _ _ Hall Hne Hnd) in Hout.
      cbn [mbind result_bind or_threshold] in Hout. rewrite Hvalid in Hout.
      cbn [fmap list_fmap] in Hout. by injection Hout as <-. }
    unfold suppress_rows. rewrite (value_counts_present _ _ Hm' Hne Hnd).
    cbn [mbind result_bind or_threshold]. rewrite Hnil. cbn [filter list_filter fmap list_fmap].
    rewrite Hco, <- Hempty. cbn [mbind result_bind]. by rewrite Hres2.
Qed.

End SuppressCheck.

Lemma suppress_then_check_complies_witness :
  well_formed example_frame /\ default_index example_frame /\
  ["zip"%string] <> [] /\ NoDup ["zip"%string] /\
  (forall q, q ∈ ["zip"%string] -> q ∈ columns example_frame) /\
  5 <= or_threshold 5 (Some 6) /\
  exists out res,
    suppress_rows 5 example_frame ["zip"%string] (Some 6) = Ok out /\
    check_k_anonymity 5 out ["zip"%string] = Ok res /\
    is_compliant res = true /\ k_value res = 8.
Proof.
  assert (Hne : ["zip"%string] <> []) by done.
  assert (Hmin : 5 <= or_threshold 5 (Some 6)) by (vm_compute; discriminate).
  split; [exact example_frame_well_formed|]. split; [exact example_frame_default_index|].
  split; [exact Hne|]. split; [exact zip_named_once|].
  split; [exact zip_in_example_frame|]. split; [exact Hmin|].
  destruct (suppress_then_check_complies 5 example_frame ["zip"%string] (Some 6)
              example_frame_well_formed example_frame_default_index Hne zip_named_once
              zip_in_example_frame Hmin)
    as (out & res & Hout & Hres & _).
  exists out, res. split; [exact Hout|]. split; [exact Hres|].
  vm_compute in Hout. injection Hout as <-.
  vm_compute in Hres. injection Hres as <-. split; reflexivity.
Defined.

Lemma ensure_k_anonymity_idempotent_witness :
  well_formed example_frame /\ default_index example_frame /\
  ["zip"%string] <> [] /\ NoDup ["zip"%string] /\
  (forall q, q ∈ ["zip"%string] -> q ∈ columns example_frame) /\
  exists out res,
    ensure_k_anonymity 5 None example_frame ["zip"%string] None true = Ok (out, res) /\
    ensure_k_anonymity 5 None out ["zip"%string] None true = Ok (out, res) /\
    length (rows out) = 18%nat.
Proof.
  assert (Hne : ["zip"%string] <> []) by done.
  split; [exact example_frame_well_formed|]. split; [exact example_frame_default_index|].
  split; [exact Hne|]. split; [exact zip_named_once|]. split; [exact zip_in_example_frame|].
  destruct (ensure_k_anonymity_idempotent 5 None example_frame ["zip"%string]
              example_frame_well_formed example_frame_default_index Hne zip_named_once
              zip_in_example_frame)
    as (out & res & Hfirst & Hsecond).
  exists out, res. split; [exact Hfirst|]. split; [exact Hsecond|].
  vm_compute in Hfirst. injection Hfirst as <- _. reflexivity.
Defined.

(** *** Aggregate-only views without a filter *)

Lemma members_length df by_columns k :
  has_null k = false ->
  length (filter (fun r => project (columns df) by_columns r = k) (rows df))
  = occurrences k (group_keys df by_columns).
Proof.
  intros Hk. unfold occurrences, group_keys.
  induction (rows df) as [|r l IH]; [done|].
  cbn [fmap list_fmap]. rewrite !filter_cons.
  destruct (decide (project (columns df) by_columns r = k)) as [Heq|Hneq].
  - rewrite decide_True by (by rewrite Heq). rewrite filter_cons, decide_True by done.
    cbn [length]. by rewrite IH.
  - destruct (decide (has_null (project (columns df) by_columns r) = false)); [|done].
    by rewrite filter_cons, decide_False.
Qed.

Section Unfiltered.

Variable k_threshold : Z.
Variable agg_apply : string -> list value -> result value.

(** X10.  With a threshold of 0 and no minimum (or a minimum of 0) nothing
    is filtered: when the group-by columns are distinct columns of the
    frame, none of them called [count], and the aggregation map names no
    column of the frame, the view has the grouping columns followed by
    [count], and its rows are the groups, each with its number of rows. *)
Theorem aggregate_view_of_group_sizes df group_by aggregate_columns mgs :
  well_formed df -> group_by <> [] -> NoDup group_by ->
  (forall c, c ∈ group_by -> c ∈ columns df) ->
  "count"%string ∉ group_by ->
  (forall cf, cf ∈ aggregate_columns -> fst cf ∉ columns df) ->
  or_threshold k_threshold mgs = 0 ->
  exists out,
    create_aggregate_only_view k_threshold agg_apply df group_by aggregate_columns mgs = Ok out /\
    columns out = group_by ++ ["count"%string] /\
    length (rows out) = length (groups df group_by) /\
    forall row, row ∈ rows out <->
      exists k c, (k, c) ∈ groups df group_by /\ row = k ++ [VInt (Z.of_nat c)].
Proof.
  intros _ Hne Hnd Hall Hcount Hagg Hmin. apply missing_nil in Hall.
  unfold create_aggregate_only_view.
  assert (Hgrouped : groupby df group_by
            = Ok ((fun k => (k, filter (fun r => project (columns df) group_by r = k) (rows df)))
                    <$> remove_dups (group_keys df group_by))).
  { unfold groupby. rewrite Hall. destruct group_by; [done|]. by destruct (rows df). }
  rewrite Hgrouped. cbn [mbind result_bind].
  rewrite (filter_none (fun cf => fst cf ∈ columns df) aggregate_columns)
    by (intros cf Hcf ?; by apply (Hagg cf)).
  assert (Hreset : reset_index group_by ["count"%string] = Ok ()).
  { apply reset_index_Ok. split; [done|]. by intros c Hc ->%list_elem_of_singleton. }
  rewrite Hreset.
  cbn [mbind result_bind]. rewrite Hmin. cbn [Z.eqb].
  eexists. split; [done|]. unfold columns at 1. cbn [schema rows].
  split; [by rewrite fmap_app, key_dtypes_columns|].
  split; [unfold groups; by rewrite !length_fmap|].
  intros row. rewrite <- list_fmap_compose, list_elem_of_fmap. split.
  - intros (k & -> & Hk). rewrite elem_of_remove_dups in Hk.
    exists k, (occurrences k (group_keys df group_by)). cbn [compose fst snd].
    split; [by apply elem_of_groups|].
    apply elem_of_group_keys in Hk as [Hnn _]. by rewrite members_length.
  - intros (k & c & [Hk ->]%elem_of_groups & ->). exists k. cbn [compose fst snd].
    split; [|by rewrite elem_of_remove_dups].
    apply elem_of_group_keys in Hk as [Hnn _]. by rewrite members_length.
Qed.

Lemma zip_with_length_same {A B C} (f : A -> B -> C) (l : list A) (k : list B) :
  length l = length k -> length (zip_with f l k) = length l.
Proof. intros H. rewrite length_zip_with. lia. Qed.

(** X11.  With a threshold of 0 and no minimum (or a minimum of 0), a view
    with statistics is returned unfiltered and still carries the helper
    column [_group_count]: one row per group, and the column is not
    dropped. *)
Theorem aggregate_view_unfiltered_keeps_group_count df group_by aggregate_columns mgs out :
  well_formed df ->
  filter (fun cf => fst cf ∈ columns df) aggregate_columns <> [] ->
  or_threshold k_threshold mgs = 0 ->
  create_aggregate_only_view k_threshold agg_apply df group_by aggregate_columns mgs = Ok out ->
  exists grouped,
    groupby df group_by = Ok grouped /\
    "_group_count"%string ∈ columns out /\
    length (rows out) = length grouped.
Proof.
  intros _ Hagg Hmin. unfold create_aggregate_only_view.
  destruct (groupby df group_by) as [grouped|e] eqn:Hgrouped; [|done].
  cbn [mbind result_bind].
  set (agg_dict := filter (fun cf => fst cf ∈ columns df) aggregate_columns) in *.
  destruct agg_dict as [|cf0 agg_rest] eqn:Hdict; [done|]. rewrite <- Hdict. clear Hagg.
  destruct (mapM _ grouped) as [stats|e] eqn:Hstats; [|done]. cbn [mbind result_bind].
  destruct (reset_index _ _) as [[]|e]; [|done]. cbn [mbind result_bind].
  rewrite Hmin. cbn [Z.eqb]. intros [= <-]. exists grouped. split; [done|].
  apply mapM_Ok in Hstats. apply Forall2_length in Hstats.
  unfold set_column.
  match goal with |- context [index_of ?c ?l] => destruct (index_of c l) as [i|] eqn:Hi end.
  - split.
    + unfold columns at 1. cbn [schema]. rewrite list_fmap_insert. cbn [fst].
      eapply list_elem_of_lookup_2. apply list_lookup_insert_eq.
      rewrite length_fmap. apply index_of_lookup, lookup_lt_Some in Hi.
      unfold columns in Hi. by rewrite length_fmap in Hi.
    + cbn [rows]. rewrite !zip_with_length_same; rewrite ?length_fmap; try done.
      by rewrite zip_with_length_same.
  - split.
    + unfold columns at 1. cbn [schema]. rewrite fmap_app. apply elem_of_app. right.
      apply list_elem_of_singleton. done.
    + cbn [rows]. rewrite !zip_with_length_same; rewrite ?length_fmap; try done.
      by rewrite zip_with_length_same.
Qed.

End Unfiltered.

Lemma aggregate_view_of_group_sizes_witness :
  well_formed example_frame /\ ["zip"%string] <> [] /\ NoDup ["zip"%string] /\
  (forall c, c ∈ ["zip"%string] -> c ∈ columns example_frame) /\
  ("count"%string ∉ ["zip"%string]) /\
  (forall cf, cf ∈ [("income"%string, "mean"%string)] -> fst cf ∉ columns example_frame) /\
  or_threshold 0 None = 0 /\
  exists out,
    create_aggregate_only_view 0 count_cells example_frame ["zip"%string]
      [("income"%string, "mean"%string)] None = Ok out /\
    rows out = [[VStr "10115"; VInt 2]; [VStr "20095"; VInt 5];
                [VStr "50667"; VInt 5]; [VStr "80331"; VInt 8]].
Proof.
  assert (Hne : ["zip"%string] <> []) by done.
  assert (Hcount : "count"%string ∉ ["zip"%string]).
  { intros Hin. apply list_elem_of_singleton in Hin. discriminate. }
  assert (Hagg : forall cf, cf ∈ [("income"%string, "mean"%string)] ->
                   fst cf ∉ columns example_frame).
  { intros cf Hcf. apply list_elem_of_singleton in Hcf. subst cf.
    apply (bool_decide_unpack _). vm_compute. exact I. }
  assert (Hmin : or_threshold 0 None = 0) by reflexivity.
  split; [exact example_frame_well_formed|].
  split; [exact Hne|]. split; [exact zip_named_once|].
  split; [exact zip_in_example_frame|]. split; [exact Hcount|].
  split; [exact Hagg|]. split; [exact Hmin|].
  destruct (aggregate_view_of_group_sizes 0 count_cells example_frame ["zip"%string]
              [("income"%string, "mean"%string)] None example_frame_well_formed Hne
              zip_named_once zip_in_example_frame Hcount Hagg Hmin)
    as (out & Hout & _).
  exists out. split; [exact Hout|].
  vm_compute in Hout. injection Hout as <-. reflexivity.
Defined.

Lemma aggregate_view_unfiltered_keeps_group_count_witness :
  exists out grouped,
    create_aggregate_only_view 0 count_cells example_frame ["zip"%string]
      [("visits"%string, "count"%string)] (Some 0) = Ok out /\
    groupby example_frame ["zip"%string] = Ok grouped /\
    "_group_count"%string ∈ columns out /\
    length (rows out) = length grouped /\
    columns out = ["zip"%string; "visits"%string; "_group_count"%string].
Proof.
  assert (Hagg : filter (fun cf : string * string => fst cf ∈ columns example_frame)
                   [("visits"%string, "count"%string)] <> []).
  { vm_compute. discriminate. }
  assert (Hmin : or_threshold 0 (Some 0) = 0) by reflexivity.
  destruct (create_aggregate_only_view 0 count_cells example_frame ["zip"%string]
              [("visits"%string, "count"%string)] (Some 0)) as [out|e] eqn:Hout;
    [|vm_compute in Hout; discriminate].
  destruct (aggregate_view_unfiltered_keeps_group_count 0 count_cells example_frame
              ["zip"%string] [("visits"%string, "count"%string)] (Some 0) out
              example_frame_well_formed Hagg Hmin Hout)
    as (grouped & Hgrouped & Hcol & Hlen).
  exists out, grouped. split; [reflexivity|]. split; [exact Hgrouped|].
  split; [exact Hcol|]. split; [exact Hlen|].
  vm_compute in Hout. injection Hout as <-. reflexivity.
Defined.

Lemma aggregate_view_rows_from_large_groups_witness :
  exists out grouped,
    ("_group_count"%string ∉ ["zip"%string]) /\
    filter (fun cf : string * string => fst cf ∈ columns example_frame)
      [("visits"%string, "count"%string)] <> [] /\
    or_threshold 5 None <> 0 /\
    create_aggregate_only_view 5 count_cells example_frame ["zip"%string]
      [("visits"%string, "count"%string)] None = Ok out /\
    groupby example_frame ["zip"%string] = Ok grouped /\
    (forall row, row ∈ rows out ->
       exists k members, (k, members) ∈ grouped /\ take 1 row = k /\
                         5 <= Z.of_nat (length members)) /\
    rows out = [[VStr "20095"; VInt 5]; [VStr "50667"; VInt 5]; [VStr "80331"; VInt 8]].
Proof.
  assert (Hgc : "_group_count"%string ∉ ["zip"%string]).
  { intros Hin. apply list_elem_of_singleton in Hin. discriminate. }
  assert (Hagg : filter (fun cf : string * string => fst cf ∈ columns example_frame)
                   [("visits"%string, "count"%string)] <> []).
  { vm_compute. discriminate. }
  assert (Hmin : or_threshold 5 None <> 0) by (vm_compute; discriminate).
  destruct (create_aggregate_only_view 5 count_cells example_frame ["zip"%string]
              [("visits"%string, "count"%string)] None) as [out|e] eqn:Hout;
    [|vm_compute in Hout; discriminate].
  destruct (aggregate_view_rows_from_large_groups 5 count_cells example_frame
              ["zip"%string] [("visits"%string, "count"%string)] None out Hgc Hagg Hmin Hout)
    as (grouped & Hgrouped & Hrows).
  exists out, grouped. split; [exact Hgc|]. split; [exact Hagg|]. split; [exact Hmin|].
  split; [reflexivity|]. split; [exact Hgrouped|]. split; [exact Hrows|].
  vm_compute in Hout. injection Hout as <-. reflexivity.
Defined.

End KAnonymityExtras.

(** ** More about [src/pii_detection.py] *)
Module PIIDetectionExtras.
Import Regex KAnonymity PIIDetection PIIDetectionFacts PIIScan.

(** *** What a match needs to see *)

Lemma elem_of_all_ascii c : c ∈ all_ascii.
Proof.
  unfold all_ascii. apply list_elem_of_fmap. exists (nat_of_ascii c).
  split; [by rewrite ascii_nat_embedding|].
  apply elem_of_seq. pose proof (nat_ascii_bounded c). lia.
Qed.

Lemma run_must_have p r :
  forall prev s k, run r prev s k = true ->
  exists prev' s1 s2,
    s = s1 ++ s2 /\ k prev' s2 = true /\
    (must_have p r = true -> exists c, c ∈ s1 /\ p c = true).
Proof.
  induction r as [|q|r1 IH1 r2 IH2|r1 IH1 r2 IH2|r1 IH1|]; intros prev s k; cbn [run must_have].
  - intros Hk. exists prev, [], s. done.
  - destruct s as [|c s']; [done|]. intros [Hq Hk]%andb_true_iff.
    exists (Some c), [c], s'. split; [done|]. split; [done|].
    intros Hall. exists c. split; [by left|].
    rewrite forallb_forall in Hall.
    specialize (Hall c ltac:(apply list_elem_of_In, elem_of_all_ascii)).
    by rewrite Hq in Hall.
  - intros H. apply IH1 in H as (prev1 & s1 & s2 & -> & H & Hm1).
    apply IH2 in H as (prev2 & s3 & s4 & -> & Hk & Hm2).
    exists prev2, (s1 ++ s3), s4. split; [by rewrite app_assoc|]. split; [done|].
    intros [Hm|Hm]%orb_true_iff.
    + destruct (Hm1 Hm) as (c & Hc & Hp). exists c. split; [|done]. apply elem_of_app. by left.
    + destruct (Hm2 Hm) as (c & Hc & Hp). exists c. split; [|done]. apply elem_of_app. by right.
  - intros [H|H]%orb_true_iff.
    + apply IH1 in H as (prev1 & s1 & s2 & -> & Hk & Hm1).
      exists prev1, s1, s2. split; [done|]. split; [done|].
      intros [Hm _]%andb_true_iff. auto.
    + apply IH2 in H as (prev1 & s1 & s2 & -> & Hk & Hm1).
      exists prev1, s1, s2. split; [done|]. split; [done|].
      intros [_ Hm]%andb_true_iff. auto.
  - generalize (length s). intros fuel. revert prev s.
    induction fuel as [|fuel IHf]; intros prev s.
    + rewrite orb_false_r. intros Hk. exists prev, [], s. done.
    + intros [Hk|H]%orb_true_iff; [exists prev, [], s; done|].
      apply IH1 in H as (prev1 & s1 & s2 & -> & H & _).
      apply andb_true_iff in H as [_ H].
      apply IHf in H as (prev2 & s3 & s4 & -> & Hk & _).
      exists prev2, (s1 ++ s3), s4. split; [by rewrite app_assoc|]. done.
  - intros [_ Hk]%andb_true_iff. exists prev, [], s. done.
Qed.

Lemma search_from_must_have p r prev s :
  must_have p r = true -> search_from r prev s = true -> exists c, c ∈ s /\ p c = true.
Proof.
  intros Hm. revert prev. induction s as [|c s IH]; intros prev; cbn [search_from].
  - rewrite orb_false_r. intros H.
    apply (run_must_have p) in H as (_ & s1 & s2 & Hs & _ & Hc).
    destruct (Hc Hm) as (c & Hin & _).
    symmetry in Hs. apply app_eq_nil in Hs as [-> _]. by apply elem_of_nil in Hin.
  - intros [H|H]%orb_true_iff.
    + apply (run_must_have p) in H as (_ & s1 & s2 & -> & _ & Hc).
      destruct (Hc Hm) as (c' & Hin & Hp). exists c'. split; [|done]. apply elem_of_app. by left.
    + destruct (IH _ H) as (c' & Hin & Hp). exists c'. split; [by right | done].
Qed.

Lemma PATTERNS_required_char :
  forallb (fun entry => must_have (required_char (fst entry)) (snd entry)) PATTERNS = true.
Proof. vm_compute. reflexivity. Qed.

Section Detector.

Variable min_confidence : float.

(** X12.  On a sample whose strings are ASCII text, a pattern never fires
    without the character it is built around: when no sampled string has
    an [@], no EMAIL classification is returned; when no sampled string has
    a digit (0 to 9), none of PHONE, SSN, CREDIT_CARD, IP_ADDRESS or
    DATE_OF_BIRTH is. *)
Theorem pattern_needs_its_character column sample fds t pattern :
  (t, pattern) ∈ PATTERNS ->
  (forall s, VStr s ∈ sample -> ascii_text s) ->
  (forall s c, VStr s ∈ sample -> c ∈ list_ascii_of_string s -> required_char t c = false) ->
  forall d, d ∈ detect_pii_in_column min_confidence column sample fds -> pii_type d <> t.
Proof.
  intros Hin _ Hfree d Hd Ht.
  apply elem_of_detect_pii_in_column in Hd as [(entry & He & Hd)|Hd].
  - apply elem_of_detect_pattern in Hd as (Hty & _ & _ & Hpos & _).
    assert (entry = (t, pattern)) as -> by (apply PATTERNS_functional; [done..|simpl; congruence]).
    cbn [snd] in Hpos.
    destruct (pattern_matches pattern sample) as [|v l] eqn:Hm; [simpl in Hpos; lia|].
    assert (Hv : v ∈ pattern_matches (snd (t, pattern)) sample) by (cbn [snd]; rewrite Hm; left).
    apply pattern_matches_strings in Hv as (Hv & s & -> & Hs); [|done].
    pose proof PATTERNS_required_char as Hall. rewrite forallb_forall in Hall.
    specialize (Hall _ ltac:(apply list_elem_of_In, Hin)). cbn [fst snd] in Hall, Hs.
    destruct (search_from_must_have _ _ _ _ Hall Hs) as (c & Hc & Hp).
    by rewrite (Hfree s c Hv Hc) in Hp.
  - apply elem_of_detect_names in Hd as [Hty _].
    apply PATTERNS_not_NAME in Hin. simpl in Hin. congruence.
Qed.

(** *** The shape of the answer *)

Lemma detect_pattern_type column sample fds entry :
  pii_type <$> detect_pattern min_confidence column sample fds entry `sublist_of` [fst entry].
Proof.
  unfold detect_pattern. destruct (pattern_matches _ _); [apply sublist_nil_l|].
  destruct (float_ge _ _); [done | apply sublist_nil_l].
Qed.

Lemma detect_names_type column sample :
  pii_type <$> _detect_names min_confidence column sample `sublist_of` [NAME].
Proof.
  unfold _detect_names. destruct (existsb _ _); [|apply sublist_nil_l].
  destruct (0 <? _)%nat; [|apply sublist_nil_l].
  destruct (float_ge _ _); [done | apply sublist_nil_l].
Qed.

(** X13.  The types of the classifications of one column, in the order
    returned, form a sub-sequence of EMAIL, PHONE, SSN, CREDIT_CARD,
    IP_ADDRESS, DATE_OF_BIRTH, NAME: each type occurs at most once, and
    PASSPORT, DRIVER_LICENSE and BANK_ACCOUNT never occur. *)
Theorem detected_types_in_pattern_order column sample fds :
  pii_type <$> detect_pii_in_column min_confidence column sample fds
  `sublist_of` [EMAIL; PHONE; SSN; CREDIT_CARD; IP_ADDRESS; DATE_OF_BIRTH; NAME].
Proof.
  unfold detect_pii_in_column. destruct sample as [|v sample]; [apply sublist_nil_l|].
  unfold PATTERNS. cbn [flat_map]. rewrite app_nil_r, !fmap_app.
  change [EMAIL; PHONE; SSN; CREDIT_CARD; IP_ADDRESS; DATE_OF_BIRTH; NAME]
    with ([EMAIL] ++ [PHONE] ++ [SSN] ++ [CREDIT_CARD] ++ [IP_ADDRESS] ++ [DATE_OF_BIRTH] ++ [NAME]).
  rewrite <- !app_assoc.
  repeat (apply sublist_app; [apply (detect_pattern_type _ _ _ (_, _))|]).
  apply detect_names_type.
Qed.

(** X14.  Every classification names the column it was asked about, has
    a confidence that reaches the minimum and does not exceed 1.0 (0.9 for
    NAME), and carries at most five sample values, each of them a value of the sample
    that Python counts as true. *)
Theorem detections_describe_the_sample column sample fds d :
  d ∈ detect_pii_in_column min_confidence column sample fds ->
  column_name d = column /\
  float_ge (confidence d) min_confidence = true /\
  PrimFloat.ltb (if decide (pii_type d = NAME) then 0.9 else 1.0) (confidence d) = false /\
  (length (sample_values d) <= 5)%nat /\
  forall v, v ∈ sample_values d -> v ∈ sample /\ truthy v = true.
Proof.
  assert (Hmin : forall x bound, PrimFloat.ltb bound bound = false ->
            PrimFloat.ltb bound (py_min x bound) = false).
  { intros x bound Hb. unfold py_min. by destruct (PrimFloat.ltb bound x) eqn:Hx. }
  intros Hd. pose proof (sample_values_at_most_five _ _ _ _ _ Hd) as Hfive.
  apply elem_of_detect_pii_in_column in Hd as [(entry & He & Hd)|Hd].
  - unfold detect_pattern in Hd.
    destruct (pattern_matches (snd entry) sample) as [|v0 l] eqn:Hm; [by apply elem_of_nil in Hd|].
    destruct (float_ge _ min_confidence) eqn:Hge; [|by apply elem_of_nil in Hd].
    apply list_elem_of_singleton in Hd as ->.
    cbn [column_name confidence sample_values pii_type] in *.
    split; [done|]. split; [done|].
    split; [rewrite decide_False by (by apply PATTERNS_not_NAME); by apply Hmin|].
    split; [done|].
    intros v Hv%subseteq_take. rewrite <- Hm in Hv.
    apply pattern_matches_strings in Hv as (Hv & s & -> & Hs); [|done].
    split; [done|]. simpl. apply negb_true_iff, bool_decide_eq_false. intros ->.
    pose proof patterns_reject_empty as Hall. rewrite forallb_forall in Hall.
    apply list_elem_of_In, Hall in He. by rewrite Hs in He.
  - unfold _detect_names in Hd.
    destruct (existsb _ name_indicators); [|by apply elem_of_nil in Hd].
    destruct (0 <? _)%nat; [|by apply elem_of_nil in Hd].
    destruct (float_ge _ min_confidence) eqn:Hge; [|by apply elem_of_nil in Hd].
    apply list_elem_of_singleton in Hd as ->.
    cbn [column_name confidence sample_values pii_type] in *.
    split; [done|]. split; [done|]. split; [by apply Hmin|]. split; [done|].
    intros v [Ht Hv%subseteq_take]%list_elem_of_filter. done.
Qed.

(** X15.  Only non-empty strings are looked at: a sample that holds no
    non-empty string yields no classification, whatever the column is
    called. *)
Theorem sample_without_text_yields_nothing column sample fds :
  (forall s, VStr s ∈ sample -> s = EmptyString) ->
  detect_pii_in_column min_confidence column sample fds = [].
Proof.
  intros Hno.
  assert (Htest : forall test v, v ∈ sample -> str_test test v <> true).
  { intros test v Hv. destruct v as [|n|s|y m d'|y m|y]; try done.
    rewrite (Hno s Hv). done. }
  unfold detect_pii_in_column. destruct sample as [|v0 sample0] eqn:Hs; [done|]. rewrite <- Hs in *.
  assert (Hpat : forall entry,
            detect_pattern min_confidence column sample fds entry = []).
  { intros entry. unfold detect_pattern, pattern_matches.
    rewrite KAnonymityFacts.filter_none; [done|]. intros v Hv. by apply Htest. }
  assert (Hflat : forall l, flat_map (detect_pattern min_confidence column sample fds) l = []).
  { induction l as [|e l IH]; [done|]. cbn [flat_map]. by rewrite Hpat, IH. }
  rewrite Hflat. cbn [app]. unfold _detect_names.
  destruct (existsb _ name_indicators); [|done].
  rewrite KAnonymityFacts.filter_none; [done|]. intros v Hv. by apply Htest.
Qed.

(** *** The name heuristic *)

Lemma prefix_app a b : String.prefix a b = true <-> exists post, b = (a +:+ post)%string.
Proof.
  revert b. induction a as [|c a IH]; intros b.
  - split; [intros _; by exists b|]. intros _. by destruct b.
  - destruct b as [|c' b]; simpl.
    + split; [done|]. by intros [post ?].
    + destruct (ascii_dec c c') as [->|Hne].
      * rewrite IH. split; intros [post Hp]; exists post.
        -- by rewrite Hp.
        -- by injection Hp.
      * split; [done|]. intros [post Hp]. injection Hp as -> _. done.
Qed.

Lemma contains_app needle s :
  contains needle s = true <-> exists pre post, s = (pre +:+ needle +:+ post)%string.
Proof.
  induction s as [|c s IH]; cbn [contains].
  - rewrite orb_false_r, prefix_app. split.
    + intros [post ->]. by exists EmptyString, post.
    + intros (pre & post & Hs). destruct pre; [by exists post|done].
  - rewrite orb_true_iff, prefix_app, IH. split.
    + intros [[post ->]|(pre & post & ->)].
      * by exists EmptyString, post.
      * by exists (String c pre), post.
    + intros (pre & post & Hs). destruct pre as [|c' pre].
      * left. by exists post.
      * right. injection Hs as -> ->. by exists pre, post.
Qed.

Lemma string_app_assoc (a b c : string) : ((a +:+ b) +:+ c = a +:+ (b +:+ c))%string.
Proof.
  induction a as [|x a IH]; [done|].
  change (String x ((a +:+ b) +:+ c) = String x (a +:+ (b +:+ c)))%string. by rewrite IH.
Qed.

Lemma contains_trans a b s :
  contains a b = true -> contains b s = true -> contains a s = true.
Proof.
  rewrite !contains_app. intros (p1 & q1 & ->) (p2 & q2 & ->).
  exists (p2 +:+ p1)%string, (q1 +:+ q2)%string. by rewrite !string_app_assoc.
Qed.

Lemma name_indicators_contain_name column :
  existsb (fun indicator => contains indicator (lower column)) name_indicators
  = contains "name" (lower column).
Proof.
  apply eq_true_iff_eq. rewrite existsb_exists. split.
  - intros (indicator & Hin & Hc). apply (contains_trans _ indicator); [|done].
    unfold name_indicators in Hin. cbn in Hin.
    repeat (destruct Hin as [<-|Hin]; [vm_compute; reflexivity|]). done.
  - intros Hc. exists "name"%string. split; [by left | done].
Qed.

(** X16.  When a NAME classification is returned: exactly when the
    lower-cased column name contains [name] (the other four indicators all
    contain it), at least one sampled string has a word among the common
    names, and min(matches / sample size * 1.5, 0.9) reaches the minimum
    confidence. *)
Theorem name_detection_emitted_iff column sample fds :
  (exists d, d ∈ detect_pii_in_column min_confidence column sample fds /\ pii_type d = NAME)
  <-> contains "name" (lower column) = true /\
      (0 < length (filter (fun v => str_test looks_like_name v = true) sample))%nat /\
      float_ge
        (py_min (PrimFloat.mul
                   (PrimFloat.div
                      (float_of_nat
                         (length (filter (fun v => str_test looks_like_name v = true) sample)))
                      (float_of_nat (length sample))) 1.5) 0.9)
        min_confidence = true.
Proof.
  set (name_count := length (filter (fun v => str_test looks_like_name v = true) sample)).
  assert (Hnonempty : sample <> [] ->
            detect_pii_in_column min_confidence column sample fds
            = flat_map (detect_pattern min_confidence column sample fds) PATTERNS
              ++ _detect_names min_confidence column sample).
  { unfold detect_pii_in_column. by destruct sample. }
  split.
  - intros (d & Hd & Ht).
    apply elem_of_detect_pii_in_column in Hd as [(entry & He & Hd)|Hd].
    + apply elem_of_detect_pattern in Hd as (Hty & _).
      apply PATTERNS_not_NAME in He. congruence.
    + unfold _detect_names in Hd. rewrite name_indicators_contain_name in Hd.
      destruct (contains "name" (lower column)); [|by apply elem_of_nil in Hd].
      fold name_count in Hd.
      destruct (0 <? name_count)%nat eqn:Hpos; [|by apply elem_of_nil in Hd].
      destruct (float_ge _ min_confidence) eqn:Hge; [|by apply elem_of_nil in Hd].
      apply Nat.ltb_lt in Hpos. done.
  - intros (Hc & Hpos & Hge).
    assert (Hne : sample <> []).
    { intros ->. subst name_count. simpl in Hpos. lia. }
    rewrite (Hnonempty Hne). eexists. split.
    + apply elem_of_app. right.
      unfold _detect_names. rewrite name_indicators_contain_name, Hc.
      fold name_count. apply Nat.ltb_lt in Hpos. rewrite Hpos, Hge.
      apply list_elem_of_singleton. reflexivity.
    + done.
Qed.

End Detector.

Lemma pattern_needs_its_character_witness :
  (PHONE, phone_pattern) ∈ PATTERNS /\
  (forall s, VStr s ∈ [VStr "n/a"; VStr "ann@example.org"] -> ascii_text s) /\
  (forall s c, VStr s ∈ [VStr "n/a"; VStr "ann@example.org"] ->
               c ∈ list_ascii_of_string s -> required_char PHONE c = false) /\
  forall d, d ∈ detect_pii_in_column 0 "contact" [VStr "n/a"; VStr "ann@example.org"] None ->
            pii_type d <> PHONE.
Proof.
  assert (Hin : (PHONE, phone_pattern) ∈ PATTERNS) by (unfold PATTERNS; right; left).
  assert (Hfree : forall s c, VStr s ∈ [VStr "n/a"; VStr "ann@example.org"] ->
                    c ∈ list_ascii_of_string s -> required_char PHONE c = false).
  { intros s c Hs Hc. rewrite !elem_of_cons, elem_of_nil in Hs.
    destruct Hs as [[= ->]|[[= ->]|[]]]; cbn in Hc;
      rewrite !elem_of_cons, elem_of_nil in Hc;
      repeat (destruct Hc as [->|Hc]; [vm_compute; reflexivity|]); done. }
  assert (Hascii : forall s, VStr s ∈ [VStr "n/a"; VStr "ann@example.org"] -> ascii_text s).
  { intros s Hs. rewrite !elem_of_cons, elem_of_nil in Hs.
    destruct Hs as [[= ->]|[[= ->]|[]]]; unfold ascii_text; cbn [list_ascii_of_string];
      repeat (constructor; [vm_compute; reflexivity|]); constructor. }
  split; [exact Hin|]. split; [exact Hascii|]. split; [exact Hfree|].
  exact (pattern_needs_its_character 0 "contact" _ None PHONE phone_pattern Hin Hascii Hfree).
Defined.

Lemma detections_describe_the_sample_witness :
  exists d,
    d ∈ detect_pii_in_column 0.7 "contact"
          (replicate 8 (VStr "ann@example.org") ++ replicate 2 (VStr "n/a")) (Some 2000) /\
    column_name d = "contact"%string /\
    float_ge (confidence d) 0.7 = true /\
    (length (sample_values d) <= 5)%nat.
Proof.
  assert (Hex : exists d, d ∈ detect_pii_in_column 0.7 "contact"
                  (replicate 8 (VStr "ann@example.org") ++ replicate 2 (VStr "n/a")) (Some 2000)).
  { eexists. vm_compute. left. }
  destruct Hex as [d Hd]. exists d. split; [exact Hd|].
  destruct (detections_describe_the_sample 0.7 "contact" _ (Some 2000) d Hd)
    as (Hcol & Hge & _ & Hfive & _).
  split; [exact Hcol|]. split; [exact Hge | exact Hfive].
Defined.

Lemma sample_without_text_yields_nothing_witness :
  (forall s, VStr s ∈ [VInt 5551234567; VNull; VStr ""] -> s = EmptyString) /\
  detect_pii_in_column 0 "phone_name" [VInt 5551234567; VNull; VStr ""] None = [].
Proof.
  assert (Hno : forall s, VStr s ∈ [VInt 5551234567; VNull; VStr ""] -> s = EmptyString).
  { intros s Hs. rewrite !elem_of_cons, elem_of_nil in Hs.
    destruct Hs as [[=]|[[=]|[[= ->]|[]]]]. reflexivity. }
  split; [exact Hno|].
  exact (sample_without_text_yields_nothing 0 "phone_name" _ None Hno).
Defined.

Lemma pattern_detection_samples_matched_witness :
  exists d,
    d ∈ detect_pii_in_column 0.7 "contact"
          (replicate 8 (VStr "ann@example.org") ++ replicate 2 (VStr "n/a")) (Some 2000) /\
    pii_type d <> NAME /\ 2000 <> 0 /\
    row_count d = 2000 /\
    exists entry, entry ∈ PATTERNS /\ pii_type d = fst entry /\
      forall v, v ∈ sample_values d ->
        v ∈ pattern_matches (snd entry)
              (replicate 8 (VStr "ann@example.org") ++ replicate 2 (VStr "n/a")).
Proof.
  set (d := {| pii_type := EMAIL; column_name := "contact"; row_count := 2000;
               sample_values := replicate 5 (VStr "ann@example.org");
               confidence := 0.96 |}).
  assert (Hd : d ∈ detect_pii_in_column 0.7 "contact"
                 (replicate 8 (VStr "ann@example.org") ++ replicate 2 (VStr "n/a")) (Some 2000)).
  { rewrite eight_of_ten_emails. left. }
  assert (Hty : pii_type d <> NAME) by discriminate.
  assert (Hn : 2000 <> 0) by discriminate.
  exists d. split; [exact Hd|]. split; [exact Hty|]. split; [exact Hn|].
  exact (pattern_detection_samples_matched 0.7 "contact" _ 2000 d Hd Hty Hn).
Defined.

(** *** Scanning a frame *)

Lemma detection_column_name min_confidence column sample fds d :
  d ∈ detect_pii_in_column min_confidence column sample fds -> column_name d = column.
Proof.
  intros [(entry & He & Hd)|Hd]%elem_of_detect_pii_in_column.
  - unfold detect_pattern in Hd.
    destruct (pattern_matches (snd entry) sample); [by apply elem_of_nil in Hd|].
    destruct (float_ge _ min_confidence); [|by apply elem_of_nil in Hd].
    by apply list_elem_of_singleton in Hd as ->.
  - unfold _detect_names in Hd.
    destruct (existsb _ name_indicators); [|by apply elem_of_nil in Hd].
    destruct (0 <? _)%nat; [|by apply elem_of_nil in Hd].
    destruct (float_ge _ min_confidence); [|by apply elem_of_nil in Hd].
    by apply list_elem_of_singleton in Hd as ->.
Qed.

Lemma detection_row_count min_confidence column sample n d :
  d ∈ detect_pii_in_column min_confidence column sample (Some n) -> n <> 0 ->
  row_count d = if decide (pii_type d = NAME) then Z.of_nat (length sample) else n.
Proof.
  intros [(entry & He & Hd)|Hd]%elem_of_detect_pii_in_column Hn.
  - unfold detect_pattern in Hd.
    destruct (pattern_matches (snd entry) sample); [by apply elem_of_nil in Hd|].
    destruct (float_ge _ min_confidence); [|by apply elem_of_nil in Hd].
    apply list_elem_of_singleton in Hd as ->. cbn [row_count pii_type].
    rewrite decide_False by (by apply PATTERNS_not_NAME).
    destruct (n =? 0) eqn:Hz; [by apply Z.eqb_eq in Hz | done].
  - apply elem_of_detect_names in Hd as (Hty & _ & Hrc). by rewrite decide_True.
Qed.

Section Scanner.

Variable min_confidence : float.
Variable sample : nat -> list (list value) -> list (list value).
Variable astype_str : list value -> list string.

(** The conversion to [str] keeps the number of values. *)
Hypothesis astype_str_length : forall l, length (astype_str l) = length l.

Lemma elem_of_scan_column df sample_rows column c ds :
  (c, ds) ∈ scan_column min_confidence astype_str df sample_rows column <->
  c = column /\ ds <> [] /\
  ds = detect_pii_in_column min_confidence column
         (VStr <$> astype_str (column_values (columns df) sample_rows column))
         (Some (Z.of_nat (length (rows df)))).
Proof.
  unfold scan_column. destruct (detect_pii_in_column _ _ _ _) as [|d ds'] eqn:Hdet.
  - split; [by intros ?%elem_of_nil|]. by intros (_ & ? & ->).
  - rewrite list_elem_of_singleton. split.
    + by intros [= -> ->].
    + by intros (-> & _ & ->).
Qed.

Lemma elem_of_scan df sample_rows cols c ds :
  (c, ds) ∈ flat_map (scan_column min_confidence astype_str df sample_rows) cols <->
  c ∈ cols /\ ds <> [] /\
  ds = detect_pii_in_column min_confidence c
         (VStr <$> astype_str (column_values (columns df) sample_rows c))
         (Some (Z.of_nat (length (rows df)))).
Proof.
  rewrite list_elem_of_In, in_flat_map. split.
  - intros (column & Hcol%list_elem_of_In & Hin%list_elem_of_In).
    apply elem_of_scan_column in Hin as (-> & Hne & Hds). done.
  - intros (Hcol & Hne & Hds). exists c. split; [by apply list_elem_of_In|].
    apply list_elem_of_In, elem_of_scan_column. done.
Qed.

Lemma scan_keys_sublist df sample_rows cols :
  fst <$> flat_map (scan_column min_confidence astype_str df sample_rows) cols
  `sublist_of` cols.
Proof.
  induction cols as [|c cols IH]; [done|]. cbn [flat_map]. rewrite fmap_app.
  change (c :: cols) with ([c] ++ cols). apply sublist_app; [|done].
  unfold scan_column. destruct (detect_pii_in_column _ _ _ _); [apply sublist_nil_l | done].
Qed.

Lemma sample_df_empty df sample_size sample_rows :
  sample_df sample df sample_size = Ok sample_rows -> rows df = [] -> sample_rows = [].
Proof.
  unfold sample_df. intros H Hrows. rewrite Hrows in H. cbn [length] in H.
  destruct (sample_size <? Z.of_nat 0) eqn:Hlt.
  - apply Z.ltb_lt in Hlt.
    assert (Hneg : (Z.min sample_size (Z.of_nat 0) <? 0) = true) by (apply Z.ltb_lt; lia).
    by rewrite Hneg in H.
  - by injection H as <-.
Qed.

(** X17.  What [scan_dataframe] returns.  The keys are columns of the
    (well-formed) frame, in the order of the frame and each at most once;
    no key maps to
    an empty list; every classification under a key names that column; a
    classification from a pattern reports the number of rows of the whole
    frame, a NAME classification the number of sampled cells of the column
    that are not missing. *)
Theorem scan_dataframe_entries df sample_size results :
  well_formed df ->
  scan_dataframe min_confidence sample astype_str df sample_size = Ok results ->
  exists sample_rows,
    sample_df sample df sample_size = Ok sample_rows /\
    fst <$> results `sublist_of` columns df /\
    forall c ds, (c, ds) ∈ results ->
      c ∈ columns df /\ ds <> [] /\
      forall d, d ∈ ds ->
        column_name d = c /\
        row_count d =
          if decide (pii_type d = NAME)
          then Z.of_nat (length (column_values (columns df) sample_rows c))
          else Z.of_nat (length (rows df)).
Proof using astype_str_length.
  intros _. unfold scan_dataframe.
  destruct (sample_df sample df sample_size) as [sample_rows|e] eqn:Hs; [|done].
  cbn [mbind result_bind]. intros [= <-]. exists sample_rows. split; [done|].
  split; [apply scan_keys_sublist|].
  intros c ds (Hc & Hne & Hds)%elem_of_scan. split; [done|]. split; [done|].
  intros d Hd. rewrite Hds in Hd. split; [by apply detection_column_name in Hd|].
  assert (Hlen : Z.of_nat (length (rows df)) <> 0).
  { intros Hz. assert (Hrows : rows df = []) by (destruct (rows df); [done | simpl in Hz; lia]).
    rewrite (sample_df_empty _ _ _ Hs Hrows) in Hd. unfold column_values in Hd.
    cbn [fmap list_fmap filter list_filter] in Hd.
    assert (Hnil : astype_str [] = []).
    { apply length_zero_iff_nil. by rewrite astype_str_length. }
    rewrite Hnil in Hd. by apply elem_of_nil in Hd. }
  rewrite (detection_row_count _ _ _ _ _ Hd Hlen).
  by rewrite length_fmap, astype_str_length.
Qed.

(** X18.  A negative [sample_size] makes every scan fail: the frame is
    then always longer than the size, and pandas refuses to draw a
    negative number of rows. *)
Theorem scan_dataframe_negative_sample_size df sample_size :
  sample_size < 0 ->
  scan_dataframe min_confidence sample astype_str df sample_size
  = Raise (ValueError "A negative number of rows requested. Please provide `n` >= 0.").
Proof.
  intros Hneg. unfold scan_dataframe, sample_df.
  assert (Hlt : (sample_size <? Z.of_nat (length (rows df))) = true) by (apply Z.ltb_lt; lia).
  assert (Hmin : (Z.min sample_size (Z.of_nat (length (rows df))) <? 0) = true)
    by (apply Z.ltb_lt; lia).
  by rewrite Hlt, Hmin.
Qed.

(** X19.  A well-formed frame of at most [sample_size] rows is scanned
    whole: the result does not depend on the random draw, and its entries
    are the columns for which [detect_pii_in_column], given the values of
    the column that are not missing and the number of rows, returns
    something. *)
Theorem scan_dataframe_small_frame df sample_size :
  well_formed df ->
  Z.of_nat (length (rows df)) <= sample_size ->
  exists results,
    (forall sample', scan_dataframe min_confidence sample' astype_str df sample_size = Ok results) /\
    forall c ds, (c, ds) ∈ results <->
      c ∈ columns df /\ ds <> [] /\
      ds = detect_pii_in_column min_confidence c
             (VStr <$> astype_str (column_values (columns df) (rows df) c))
             (Some (Z.of_nat (length (rows df)))).
Proof.
  intros _ Hle. eexists. split.
  - intros sample'. unfold scan_dataframe, sample_df.
    assert (Hlt : (sample_size <? Z.of_nat (length (rows df))) = false) by (apply Z.ltb_ge; lia).
    rewrite Hlt. cbn [mbind result_bind]. reflexivity.
  - intros c ds. apply elem_of_scan.
Qed.

(** The draw returns rows of the frame. *)
Hypothesis sample_subset : forall n l, sample n l ⊆ l.

(** X20.  A column whose cells are all missing never appears in the
    result of a scan, whatever it is called. *)
Theorem scan_dataframe_skips_empty_columns df sample_size results c :
  well_formed df ->
  (forall r, r ∈ rows df -> cell (columns df) r c = VNull) ->
  scan_dataframe min_confidence sample astype_str df sample_size = Ok results ->
  c ∉ fst <$> results.
Proof using astype_str_length sample_subset.
  intros _ Hnull. unfold scan_dataframe.
  destruct (sample_df sample df sample_size) as [sample_rows|e] eqn:Hs; [|done].
  cbn [mbind result_bind]. intros [= <-] ([c' ds] & -> & Hin)%list_elem_of_fmap.
  apply elem_of_scan in Hin as (_ & Hne & Hds). cbn [fst] in Hds.
  assert (Hsub : sample_rows ⊆ rows df).
  { unfold sample_df in Hs. destruct (_ <? _); [|by injection Hs as <-].
    destruct (_ <? 0); [done|]. injection Hs as <-. apply sample_subset. }
  assert (Hvals : column_values (columns df) sample_rows c' = []).
  { unfold column_values. apply KAnonymityFacts.filter_none.
    intros v (r & -> & Hr)%list_elem_of_fmap. rewrite Hnull by (by apply Hsub). done. }
  assert (Hnil : astype_str [] = []).
  { apply length_zero_iff_nil. by rewrite astype_str_length. }
  rewrite Hvals, Hnil in Hds. done.
Qed.

End Scanner.

Lemma str_cells_length l : length (str_cells l) = length l.
Proof. unfold str_cells. apply length_fmap. Qed.

Lemma first_rows_subset n l : first_rows n l ⊆ l.
Proof. unfold first_rows. apply subseteq_take. Qed.

Lemma customers_well_formed : well_formed customers.
Proof. split; apply (bool_decide_unpack _); vm_compute; exact I. Qed.

Lemma scan_dataframe_entries_witness :
  (forall l, length (str_cells l) = length l) /\ well_formed customers /\
  exists results,
    scan_dataframe 0.7 first_rows str_cells customers 1000 = Ok results /\
    fst <$> results = ["customer_name"; "email"]%string /\
    forall c ds, (c, ds) ∈ results -> forall d, d ∈ ds -> column_name d = c.
Proof.
  split; [exact str_cells_length|]. split; [exact customers_well_formed|].
  destruct (scan_dataframe 0.7 first_rows str_cells customers 1000) as [results|e] eqn:Hscan;
    [|vm_compute in Hscan; discriminate].
  destruct (scan_dataframe_entries 0.7 first_rows str_cells str_cells_length customers 1000
              results customers_well_formed Hscan) as (sample_rows & _ & _ & Hentries).
  exists results. split; [reflexivity|]. split.
  - vm_compute in Hscan. injection Hscan as <-. reflexivity.
  - intros c ds Hin d Hd. destruct (Hentries c ds Hin) as (_ & _ & Hds).
    exact (proj1 (Hds d Hd)).
Defined.

Lemma scan_dataframe_negative_sample_size_witness :
  -1 < 0 /\
  scan_dataframe 0.7 first_rows str_cells customers (-1)
  = Raise (ValueError "A negative number of rows requested. Please provide `n` >= 0.").
Proof.
  assert (Hneg : -1 < 0) by lia.
  split; [exact Hneg|].
  exact (scan_dataframe_negative_sample_size 0.7 first_rows str_cells customers (-1) Hneg).
Defined.

Lemma scan_dataframe_small_frame_witness :
  well_formed customers /\ Z.of_nat (length (rows customers)) <= 3 /\
  exists results,
    (forall sample', scan_dataframe 0.7 sample' str_cells customers 3 = Ok results) /\
    (fst <$> results) = ["customer_name"; "email"]%string.
Proof.
  assert (Hle : Z.of_nat (length (rows customers)) <= 3) by (vm_compute; discriminate).
  split; [exact customers_well_formed|]. split; [exact Hle|].
  destruct (scan_dataframe_small_frame 0.7 str_cells customers 3 customers_well_formed Hle)
    as (results & Hany & _).
  exists results. split; [exact Hany|].
  specialize (Hany first_rows). vm_compute in Hany. injection Hany as <-. reflexivity.
Defined.

Lemma scan_dataframe_skips_empty_columns_witness :
  (forall l, length (str_cells l) = length l) /\
  (forall n l, first_rows n l ⊆ l) /\ well_formed customers /\
  (forall r, r ∈ rows customers -> cell (columns customers) r "fax" = VNull) /\
  exists results,
    scan_dataframe 0.7 first_rows str_cells customers 2 = Ok results /\
    "fax"%string ∉ fst <$> results.
Proof.
  assert (Hnull : forall r, r ∈ rows customers -> cell (columns customers) r "fax" = VNull).
  { intros r Hr. unfold customers in Hr. cbn [rows] in Hr.
    rewrite !elem_of_cons, elem_of_nil in Hr.
    destruct Hr as [->|[->|[->|[]]]]; reflexivity. }
  split; [exact str_cells_length|]. split; [exact first_rows_subset|].
  split; [exact customers_well_formed|]. split; [exact Hnull|].
  destruct (scan_dataframe 0.7 first_rows str_cells customers 2) as [results|e] eqn:Hscan;
    [|vm_compute in Hscan; discriminate].
  exists results. split; [reflexivity|].
  exact (scan_dataframe_skips_empty_columns 0.7 first_rows str_cells str_cells_length
           first_rows_subset customers 2 results "fax" customers_well_formed Hnull Hscan).
Defined.

End PIIDetectionExtras.

(** ** More about [src/pseudonymization.py] *)
Module PseudonymizationExtras.
Import KAnonymity Pseudonymization PseudonymizationFacts PseudonymizationFrames.

(** *** The dictionary of tokens *)

Lemma dict_get_elem d k v : dict_get d k = Some v -> (k, v) ∈ d.
Proof.
  unfold dict_get. destruct (find _ d) as [[k' v']|] eqn:Hf; [|done].
  intros [= <-]. apply find_some in Hf as [Hin Hk].
  apply bool_decide_eq_true in Hk. simpl in Hk. subst k'. by apply list_elem_of_In.
Qed.

Lemma dict_get_None d k : dict_get d k = None <-> k ∉ (fst <$> d).
Proof.
  unfold dict_get. induction d as [|[k' v'] d IH]; simpl.
  - split; [intros _ ?%elem_of_nil; done | done].
  - case_bool_decide as Hk; simpl in Hk.
    + subst k'. split; [done|]. intros Hn. destruct Hn. left.
    + rewrite IH, not_elem_of_cons. split; [by intros ? | by intros [_ ?]].
Qed.

Lemma dict_set_keys d k v :
  fst <$> dict_set d k v = if decide (k ∈ (fst <$> d)) then fst <$> d else (fst <$> d) ++ [k].
Proof.
  induction d as [|[k' v'] d IH]; [done|]. cbn [dict_set].
  destruct (decide (k' = k)) as [->|Hne]; rewrite !fmap_cons; cbn [fst].
  - rewrite decide_True by left. done.
  - rewrite IH. destruct (decide (k ∈ (fst <$> d))) as [Hin|Hnin].
    + rewrite decide_True by (by right). done.
    + rewrite decide_False; [done|]. intros [?|?]%elem_of_cons; [congruence | done].
Qed.

Lemma find_by_token d k v :
  (k, v) ∈ d ->
  exists original, find (fun kv : string * string => bool_decide (snd kv = v)) d
                   = Some (original, v) /\ (original, v) ∈ d.
Proof.
  induction d as [|[k' v'] d IH]; [by intros ?%elem_of_nil|].
  intros Hin. simpl. case_bool_decide as Hv; simpl in Hv.
  - subst v'. exists k'. split; [done | left].
  - apply elem_of_cons in Hin as [[= -> ->]|Hin]; [done|].
    destruct (IH Hin) as (o & Hf & Ho). exists o. split; [done | by right].
Qed.

Section WithCrypto.

Context {C : CryptoLib}.

(** X21.  A token of the deterministic mode is not a token of the
    instance's own cipher; [depseudonymize] finds the original through the
    cache, also after further calls, as long as no other cached value has
    the same token.  An instance with the same key and an empty cache
    cannot reverse it and raises [ValueError]. *)
Theorem deterministic_token_reversed_by_cache st value calls :
  value <> EmptyString ->
  fst (pseudonymize st value true) <> EmptyString ->
  fernet_decrypt (key (fst st)) (fst (pseudonymize st value true)) = None ->
  (forall original,
     (original, fst (pseudonymize st value true))
       ∈ mapping_cache (fst (pseudonymize_all (snd (pseudonymize st value true)) calls)) ->
     original = value) ->
  depseudonymize (fst (pseudonymize_all (snd (pseudonymize st value true)) calls))
                 (fst (pseudonymize st value true))
  = Ok value /\
  depseudonymize {| key := key (fst st); mapping_cache := [] |}
                 (fst (pseudonymize st value true))
  = Raise (ValueError ("Cannot depseudonymize value: " +:+ fst (pseudonymize st value true))).
Proof.
  intros Hne Htoken Hforeign Hunique.
  set (first := pseudonymize st value true) in *.
  set (later := pseudonymize_all (snd first) calls) in *.
  split.
  - unfold depseudonymize. rewrite decide_False by done.
    unfold later at 1. rewrite pseudonymize_all_key. unfold first at 1.
    rewrite pseudonymize_key, Hforeign.
    assert (Hin : (value, fst first) ∈ mapping_cache (fst later)).
    { apply dict_get_elem. apply pseudonymize_all_keeps_cached. by apply pseudonymize_stores. }
    destruct (find_by_token _ _ _ Hin) as (o & -> & Ho). by rewrite (Hunique o Ho).
  - unfold depseudonymize. rewrite decide_False by done. cbn [key mapping_cache find].
    by rewrite Hforeign.
Qed.

Lemma nondeterministic_token_decrypts `{!CryptoLaws C} st value other :
  key other = key (fst st) ->
  depseudonymize other (fst (pseudonymize st value false)) = Ok value /\
  snd (pseudonymize st value false) = (fst st, snd (snd (pseudonymize st value false))).
Proof.
  intros Hkey. destruct st as [self w]. unfold pseudonymize.
  destruct (decide (value = EmptyString)) as [->|Hne]; [done|].
  cbn [draw fst snd]. split; [|done]. unfold depseudonymize.
  destruct (decide (_ = EmptyString)) as [Hempty|_].
  - by apply fernet_token_nonempty in Hempty.
  - cbn [fst] in Hkey. by rewrite Hkey, fernet_round_trip.
Qed.

(** X22.  What [pseudonymize] returns for a string in non-deterministic
    mode (the empty string included, which it returns as it is) can be
    reversed by any instance that holds the same key, whatever its cache
    holds. *)
Theorem nondeterministic_token_portable `{!CryptoLaws C} st value other :
  key other = key (fst st) ->
  depseudonymize other (fst (pseudonymize st value false)) = Ok value.
Proof. intros Hkey. by apply nondeterministic_token_decrypts. Qed.

Lemma pseudonymize_cache_keys st value deterministic :
  fst <$> mapping_cache (fst (snd (pseudonymize st value deterministic)))
  = if decide (deterministic = true /\ value <> EmptyString /\
               value ∉ (fst <$> mapping_cache (fst st)))
    then (fst <$> mapping_cache (fst st)) ++ [value]
    else fst <$> mapping_cache (fst st).
Proof.
  destruct st as [self w]. unfold pseudonymize. cbn [fst snd].
  destruct (decide (value = EmptyString)) as [->|Hne].
  - rewrite decide_False; [done|]. by intros (_ & ? & _).
  - destruct deterministic.
    + destruct (dict_get (mapping_cache self) value) as [t|] eqn:Hget.
      * rewrite decide_False; [done|]. intros (_ & _ & Hnin).
        apply dict_get_None in Hnin. congruence.
      * apply dict_get_None in Hget. rewrite decide_True by done.
        cbn [draw fst snd mapping_cache]. rewrite dict_set_keys. by rewrite decide_False.
    + rewrite decide_False; [done|]. by intros (? & _).
Qed.

Lemma pseudonymize_nondeterministic_cache st value :
  fst (snd (pseudonymize st value false)) = fst st.
Proof.
  destruct st as [self w]. unfold pseudonymize.
  by destruct (decide (value = EmptyString)).
Qed.

(** X23.  What the cache of an instance holds after a sequence of calls:
    the originals it held before and, in clear, every non-empty string
    that was pseudonymized in deterministic mode, and nothing else; each
    original at most once; calls in non-deterministic mode leave the
    instance as it was. *)
Theorem mapping_cache_holds_deterministic_originals st calls :
  (forall k, k ∈ (fst <$> mapping_cache (fst (pseudonymize_all st calls))) <->
     k ∈ (fst <$> mapping_cache (fst st)) \/ ((k, true) ∈ calls /\ k <> EmptyString)) /\
  (NoDup (fst <$> mapping_cache (fst st)) ->
   NoDup (fst <$> mapping_cache (fst (pseudonymize_all st calls)))) /\
  (Forall (fun call => snd call = false) calls -> fst (pseudonymize_all st calls) = fst st).
Proof.
  revert st. induction calls as [|[value deterministic] calls IH]; intros st.
  - cbn [pseudonymize_all]. split; [|done]. intros k. split; [by left|].
    intros [?|[?%elem_of_nil _]]; done.
  - cbn [pseudonymize_all].
    destruct (IH (snd (pseudonymize st value deterministic))) as (Hkeys & Hnodup & Hsame).
    pose proof (pseudonymize_cache_keys st value deterministic) as Hstep.
    split; [|split].
    + intros k. rewrite Hkeys, Hstep.
      destruct (decide (deterministic = true /\ value <> EmptyString /\ _)) as [(-> & Hne & Hnin)|Hno].
      * rewrite elem_of_app, list_elem_of_singleton, elem_of_cons. split.
        -- intros [[?| ->]|[? ?]]; [by left | right; split; [by left | done] | right; split; [by right | done]].
        -- intros [?|[[[= ->]|?] ?]]; [by left; left | by left; right | by right].
      * rewrite elem_of_cons. split.
        -- intros [?|[? ?]]; [by left | right; split; [by right | done]].
        -- intros [?|[[[= -> <-]|?] Hk]]; [by left | | by right].
           left. destruct (decide (value ∈ (fst <$> mapping_cache (fst st)))) as [|Hnin]; [done|].
           destruct Hno. split; [done|]. split; done.
    + intros Hnd. apply Hnodup. rewrite Hstep.
      destruct (decide (deterministic = true /\ value <> EmptyString /\ _)) as [(_ & _ & Hnin)|_];
        [|done].
      apply NoDup_app. split; [done|]. split; [|apply NoDup_singleton].
      intros k Hk ->%list_elem_of_singleton. done.
    + intros Hall. apply Forall_cons in Hall as [Hd Hall]. cbn [snd] in Hd. subst deterministic.
      rewrite (Hsame Hall). apply pseudonymize_nondeterministic_cache.
Qed.

(** *** The constructor *)

Lemma Fernet_accepts k raw :
  urlsafe_b64decode k = Some raw -> String.length raw = 32%nat -> Fernet k = Ok k.
Proof. intros Hk Hlen. unfold Fernet. rewrite Hk, Hlen. done. Qed.

Lemma init_str_cases `{!CodecLaws C} (s : string) :
  (exists p, init (KStr s) = Ok p /\ mapping_cache p = [] /\
             exists raw, urlsafe_b64decode (key p) = Some raw /\ String.length raw = 32%nat) \/
  hex_of_other_length s.
Proof.
  unfold init, _prepare_key, hex_of_other_length.
  destruct (try_base64 (KStr s)) as [prepared|] eqn:Hb.
  - left. unfold try_base64 in Hb.
    destruct (urlsafe_b64decode s) as [raw|] eqn:Hraw; [|done].
    destruct (String.length raw =? 32)%nat eqn:Hlen; [|done].
    injection Hb as <-. apply Nat.eqb_eq in Hlen.
    cbn [mbind result_bind]. rewrite (Fernet_accepts s raw Hraw Hlen). cbn [mbind result_bind].
    eexists. split; [done|]. split; [done|]. eauto.
  - destruct (try_hex (KStr s)) as [prepared|] eqn:Hh.
    + unfold try_hex in Hh.
      destruct (String.length s =? 64)%nat eqn:Hlen; [|done]. apply Nat.eqb_eq in Hlen.
      destruct (bytes_fromhex s) as [raw|] eqn:Hraw; [|done]. cbn in Hh. injection Hh as <-.
      cbn [mbind result_bind].
      destruct (decide (String.length raw = 32%nat)) as [H32|H32].
      * left. rewrite (Fernet_accepts _ raw (b64_round_trip raw) H32). cbn [mbind result_bind].
        eexists. split; [done|]. split; [done|]. exists raw. cbn [key]. by rewrite b64_round_trip.
      * right. split; [done|]. split; [done|]. eauto.
    + left. cbn [mbind result_bind].
      rewrite (Fernet_accepts _ _ (b64_round_trip _) (pbkdf2_length _ _ _)).
      cbn [mbind result_bind]. eexists. split; [done|]. split; [done|].
      eexists. cbn [key]. by rewrite b64_round_trip, pbkdf2_length.
Qed.

(** X24.  The constructor on a string.  For 64 characters that are not
    themselves a key and that [bytes.fromhex] turns into a number of bytes
    other than 32, the check of [Fernet] raises [ValueError]; for every
    other string the constructor returns an instance with an empty cache
    whose key is the base64 of 32 bytes. *)
Theorem init_str_outcome `{!CodecLaws C} (s : string) :
  (hex_of_other_length s ->
   init (KStr s)
   = Raise (ValueError "Fernet key must be 32 url-safe base64-encoded bytes.")) /\
  (~ hex_of_other_length s ->
   exists p, init (KStr s) = Ok p /\ mapping_cache p = [] /\
             exists raw, urlsafe_b64decode (key p) = Some raw /\ String.length raw = 32%nat).
Proof.
  split.
  - intros (Hb & Hlen & raw & Hraw & H32). unfold init, _prepare_key, try_hex.
    rewrite Hb. apply Nat.eqb_eq in Hlen. rewrite Hlen, Hraw. cbn [fmap option_fmap option_map].
    cbn [mbind result_bind]. unfold Fernet. rewrite b64_round_trip.
    apply Nat.eqb_neq in H32. by rewrite H32.
  - intros Hnot. by destruct (init_str_cases s) as [Hok|Hexc].
Qed.

End WithCrypto.

Lemma substring_length n s : (n <= String.length s)%nat -> String.length (substring 0 n s) = n.
Proof.
  revert s. induction n as [|n IH]; intros s Hn.
  - by destruct s.
  - destruct s as [|c s]; simpl in *; [lia|]. rewrite IH; [done | lia].
Qed.

Lemma string_length_app (a b : string) :
  String.length (a +:+ b) = (String.length a + String.length b)%nat.
Proof.
  induction a as [|c a IH]; [done|].
  change (S (String.length (a +:+ b)) = S (String.length a + String.length b))%nat.
  by rewrite IH.
Qed.

#[local] Instance demo_codec_laws : CodecLaws demo_crypto.
Proof.
  split; [done|]. intros salt iterations password. cbn. unfold str_prefix.
  apply substring_length. rewrite !string_length_app. simpl. lia.
Qed.

Lemma deterministic_token_reversed_by_cache_witness :
  let st := (demo_instance, demo_world) in
  let token := fst (pseudonymize st "alice" true) in
  let later := fst (pseudonymize_all (snd (pseudonymize st "alice" true)) [("bob"%string, true)]) in
  "alice"%string <> EmptyString /\
  token <> EmptyString /\
  @fernet_decrypt demo_crypto (key demo_instance) token = None /\
  (forall original, (original, token) ∈ mapping_cache later -> original = "alice"%string) /\
  depseudonymize (C := demo_crypto) later token = Ok "alice"%string /\
  depseudonymize (C := demo_crypto) {| key := key demo_instance; mapping_cache := [] |} token
  = Raise (ValueError ("Cannot depseudonymize value: " +:+ token)).
Proof.
  cbv zeta.
  assert (Hne : "alice"%string <> EmptyString) by done.
  assert (Htoken : fst (pseudonymize (demo_instance, demo_world) "alice" true) <> EmptyString)
    by (vm_compute; discriminate).
  assert (Hforeign : @fernet_decrypt demo_crypto (key (fst (demo_instance, demo_world)))
                       (fst (pseudonymize (demo_instance, demo_world) "alice" true)) = None)
    by (vm_compute; reflexivity).
  assert (Hunique : forall original,
            (original, fst (pseudonymize (demo_instance, demo_world) "alice" true))
              ∈ mapping_cache (fst (pseudonymize_all
                                      (snd (pseudonymize (demo_instance, demo_world) "alice" true))
                                      [("bob"%string, true)])) ->
            original = "alice"%string).
  { intros original Hin. apply list_elem_of_In in Hin. vm_compute in Hin.
    destruct Hin as [[= <-]|[[=]|[]]]. reflexivity. }
  split; [exact Hne|]. split; [exact Htoken|]. split; [exact Hforeign|]. split; [exact Hunique|].
  exact (deterministic_token_reversed_by_cache (C := demo_crypto) (demo_instance, demo_world)
           "alice" [("bob"%string, true)] Hne Htoken Hforeign Hunique).
Defined.

Lemma nondeterministic_token_portable_witness :
  key {| key := key demo_instance; mapping_cache := [("carol"%string, "x"%string)] |}
  = key (fst (demo_instance, demo_world)) /\
  depseudonymize (C := demo_crypto)
    {| key := key demo_instance; mapping_cache := [("carol"%string, "x"%string)] |}
    (fst (pseudonymize (demo_instance, demo_world) "alice" false))
  = Ok "alice"%string.
Proof.
  split; [reflexivity|].
  exact (@nondeterministic_token_portable demo_crypto demo_laws (demo_instance, demo_world) "alice"
           {| key := key demo_instance; mapping_cache := [("carol"%string, "x"%string)] |}
           eq_refl).
Defined.

Lemma hex_codec_laws : CodecLaws hex_crypto.
Proof.
  split; [done|]. intros salt iterations password. cbn. unfold str_prefix.
  apply substring_length. rewrite !string_length_app. simpl. lia.
Qed.

Lemma spaced_hex_of_other_length : hex_of_other_length (C := hex_crypto) spaced_hex.
Proof.
  split; [reflexivity|]. split; [reflexivity|].
  exists (string_of_list_ascii (replicate 31 (ascii_of_N 171))).
  split; [vm_compute; reflexivity | vm_compute; discriminate].
Qed.

Lemma passphrase_not_of_other_length :
  ~ hex_of_other_length (C := hex_crypto) "correct horse battery staple".
Proof. intros (_ & Hlen & _). vm_compute in Hlen. discriminate. Qed.

Lemma init_str_outcome_witness :
  hex_of_other_length (C := hex_crypto) spaced_hex /\
  init (C := hex_crypto) (KStr spaced_hex)
  = Raise (ValueError "Fernet key must be 32 url-safe base64-encoded bytes.") /\
  ~ hex_of_other_length (C := hex_crypto) "correct horse battery staple" /\
  exists p, init (C := hex_crypto) (KStr "correct horse battery staple") = Ok p /\
            mapping_cache p = [].
Proof.
  destruct (@init_str_outcome hex_crypto hex_codec_laws spaced_hex) as [Hraise _].
  destruct (@init_str_outcome hex_crypto hex_codec_laws "correct horse battery staple")
    as [_ Hok].
  split; [exact spaced_hex_of_other_length|].
  split; [exact (Hraise spaced_hex_of_other_length)|].
  split; [exact passphrase_not_of_other_length|].
  destruct (Hok passphrase_not_of_other_length) as (p & Hp & Hcache & _).
  exists p. split; [exact Hp | exact Hcache].
Defined.

(** *** A column of a pandas frame *)

Lemma zip_insert_cells (cols : list string) (rws : list (list value)) (n : nat) c i
    (cells : list value) (P : value -> value -> Prop) :
  index_of c cols = Some i -> (i < n)%nat ->
  Forall (fun r => length r = n) rws ->
  Forall2 P ((fun r => default VNull (r !! i)) <$> rws) cells ->
  Forall2 (fun r r' => length r' = n /\
                       P (cell cols r c) (cell cols r' c) /\
                       forall q, q <> c -> cell cols r' q = cell cols r q)
          rws (zip_with (fun r v => <[i:=v]> r) rws cells).
Proof.
  intros Hi Hlt Hlen. revert cells.
  induction Hlen as [|r rws Hr Hlen IH]; intros cells Hcells.
  - apply Forall2_nil_inv_l in Hcells as ->. constructor.
  - rewrite fmap_cons in Hcells. apply Forall2_cons_inv_l in Hcells as (v & cells' & Hv & Hrest & ->).
    cbn [zip_with]. constructor; [|by apply IH].
    split; [by rewrite length_insert|]. split.
    + rewrite (KAnonymityExtras.cell_insert_same _ _ _ _ _ Hi) by lia.
      unfold cell. by rewrite Hi.
    + intros q Hq. by apply (KAnonymityExtras.cell_insert_other _ _ c).
Qed.

Section Frames.

Context {C : CryptoLib}.
Variable py_str : value -> string.
Variable apply_dtype : dtype -> list value -> dtype.

Lemma apply_cells_shape deterministic cells : forall st,
  Forall2 (fun x y => if is_null x then y = x else exists token, y = VStr token)
          cells (fst (apply_cells py_str deterministic st cells)) /\
  key (fst (snd (apply_cells py_str deterministic st cells))) = key (fst st).
Proof.
  induction cells as [|x cells IH]; intros st; cbn [apply_cells]; [by split|].
  unfold pseudonymize_cell. destruct (is_null x) eqn:Hx.
  - destruct (IH st) as [Hcells Hkey].
    destruct (apply_cells py_str deterministic st cells) as [ys st2]. cbn [fst snd] in *.
    split; [|done]. constructor; [by rewrite Hx | done].
  - pose proof (pseudonymize_key st (py_str x) deterministic) as Hk.
    destruct (pseudonymize st (py_str x) deterministic) as [token st1]. cbn [fst snd] in Hk.
    destruct (IH st1) as [Hcells Hkey].
    destruct (apply_cells py_str deterministic st1 cells) as [ys st2]. cbn [fst snd] in *.
    split; [|congruence]. constructor; [rewrite Hx; eauto | done].
Qed.

Lemma apply_cells_keeps_cached deterministic cells : forall st v token,
  dict_get (mapping_cache (fst st)) v = Some token ->
  dict_get (mapping_cache (fst (snd (apply_cells py_str deterministic st cells)))) v = Some token.
Proof.
  induction cells as [|x cells IH]; intros st v token Hv; cbn [apply_cells]; [done|].
  unfold pseudonymize_cell. destruct (is_null x).
  - specialize (IH st v token Hv).
    by destruct (apply_cells py_str deterministic st cells) as [ys st2].
  - pose proof (pseudonymize_keeps_cached st (py_str x) deterministic v token Hv) as Hk.
    destruct (pseudonymize st (py_str x) deterministic) as [t st1]. cbn [fst snd] in Hk.
    specialize (IH st1 v token Hk).
    by destruct (apply_cells py_str deterministic st1 cells) as [ys st2].
Qed.

Lemma pseudonymize_empty st deterministic :
  pseudonymize st EmptyString deterministic = (EmptyString, st).
Proof. by destruct st. Qed.

Lemma apply_cells_deterministic cells : forall st,
  Forall2 (fun x y =>
             is_null x = false ->
             if decide (py_str x = EmptyString) then y = VStr EmptyString
             else exists token,
                 y = VStr token /\
                 dict_get (mapping_cache (fst (snd (apply_cells py_str true st cells)))) (py_str x)
                 = Some token)
          cells (fst (apply_cells py_str true st cells)).
Proof.
  induction cells as [|x cells IH]; intros st; cbn [apply_cells]; [constructor|].
  unfold pseudonymize_cell. destruct (is_null x) eqn:Hx.
  - specialize (IH st). destruct (apply_cells py_str true st cells) as [ys st2]. cbn [fst snd] in *.
    constructor; [intros ?; congruence | exact IH].
  - pose proof (pseudonymize_stores st (py_str x)) as Hstore.
    pose proof (pseudonymize_empty st true) as Hempty.
    destruct (pseudonymize st (py_str x) true) as [token st1] eqn:Hp. cbn [fst snd] in Hstore.
    specialize (IH st1).
    pose proof (apply_cells_keeps_cached true cells st1 (py_str x) token) as Hkeep.
    destruct (apply_cells py_str true st1 cells) as [ys st2]. cbn [fst snd] in *.
    constructor; [|exact IH]. intros _.
    destruct (decide (py_str x = EmptyString)) as [He|Hne].
    + rewrite He, Hempty in Hp. by injection Hp as <- _.
    + exists token. split; [done|]. apply Hkeep. by apply Hstore.
Qed.

Lemma apply_cells_nondeterministic `{!CryptoLaws C} cells : forall st,
  fst (snd (apply_cells py_str false st cells)) = fst st /\
  Forall2 (fun x y =>
             is_null x = false ->
             exists token, y = VStr token /\ depseudonymize (fst st) token = Ok (py_str x))
          cells (fst (apply_cells py_str false st cells)).
Proof.
  induction cells as [|x cells IH]; intros st; cbn [apply_cells]; [by split|].
  unfold pseudonymize_cell. destruct (is_null x) eqn:Hx.
  - destruct (IH st) as [Hst Hcells].
    destruct (apply_cells py_str false st cells) as [ys st2]. cbn [fst snd] in *.
    split; [done|]. constructor; [intros ?; congruence | done].
  - destruct (nondeterministic_token_decrypts st (py_str x) (fst st) eq_refl) as [Hdec Hsame].
    destruct (pseudonymize st (py_str x) false) as [token st1]. cbn [fst snd] in Hdec, Hsame.
    assert (Hf : fst st1 = fst st) by (by rewrite Hsame).
    destruct (IH st1) as [Hst Hcells]. rewrite Hf in Hst, Hcells.
    destruct (apply_cells py_str false st1 cells) as [ys st2]. cbn [fst snd] in *.
    split; [done|]. constructor; [eauto | done].
Qed.

Lemma pandas_column_unfold st df c deterministic i :
  index_of c (columns df) = Some i ->
  _pseudonymize_pandas_column py_str apply_dtype st df c deterministic
  = Ok ({| schema :=
             <[i := (c, apply_dtype (default DObject (snd <$> schema df !! i))
                                    (fst (apply_cells py_str deterministic st
                                            ((fun r => default VNull (r !! i)) <$> rows df))))]>
               (schema df);
           rows := zip_with (fun r v => <[i:=v]> r) (rows df)
                     (fst (apply_cells py_str deterministic st
                             ((fun r => default VNull (r !! i)) <$> rows df)));
           index := index df |},
        snd (apply_cells py_str deterministic st ((fun r => default VNull (r !! i)) <$> rows df))).
Proof.
  intros Hi. unfold _pseudonymize_pandas_column. rewrite Hi.
  by destruct (apply_cells py_str deterministic st _).
Qed.

Lemma index_lt_schema df c i : index_of c (columns df) = Some i -> (i < length (schema df))%nat.
Proof.
  intros Hi%KAnonymityFacts.index_of_lookup%lookup_lt_Some.
  unfold columns in Hi. by rewrite length_fmap in Hi.
Qed.

Lemma insert_column_names (sch : list (string * dtype)) c i dt :
  (fst <$> sch) !! i = Some c -> fst <$> <[i := (c, dt)]> sch = fst <$> sch.
Proof. intros Hc. rewrite list_fmap_insert. by apply list_insert_id. Qed.

(** What one pass over a column does, whatever the mode. *)
Lemma pandas_column_pass st df c deterministic i
    (P : value -> value -> Prop) :
  well_formed df -> index_of c (columns df) = Some i ->
  Forall2 P ((fun r => default VNull (r !! i)) <$> rows df)
          (fst (apply_cells py_str deterministic st ((fun r => default VNull (r !! i)) <$> rows df))) ->
  exists out st',
    _pseudonymize_pandas_column py_str apply_dtype st df c deterministic = Ok (out, st') /\
    st' = snd (apply_cells py_str deterministic st ((fun r => default VNull (r !! i)) <$> rows df)) /\
    columns out = columns df /\ well_formed out /\
    Forall2 (fun r r' => P (cell (columns df) r c) (cell (columns df) r' c) /\
                         forall q, q <> c -> cell (columns df) r' q = cell (columns df) r q)
            (rows df) (rows out).
Proof.
  intros [Hnd Hlen] Hi HP. eexists _, _. split; [by apply pandas_column_unfold|].
  split; [done|].
  pose proof (zip_insert_cells (columns df) (rows df) (length (schema df)) c i _ P Hi
                (index_lt_schema df c i Hi) Hlen HP) as Hrows.
  assert (Hcols : forall dt, fst <$> <[i := (c, dt)]> (schema df) = columns df).
  { intros dt. apply insert_column_names. by apply KAnonymityFacts.index_of_lookup. }
  split; [apply Hcols|]. split.
  - split; [unfold columns; cbn [schema]; by rewrite Hcols|]. cbn [schema rows].
    rewrite length_insert. apply Forall_forall. intros r' Hr'.
    apply list_elem_of_lookup in Hr' as [j Hj].
    destruct (Forall2_lookup_r _ _ _ _ _ Hrows Hj) as (r & _ & Hr & _). done.
  - cbn [rows]. eapply Forall2_impl; [exact Hrows|]. intros r r' (_ & ? & ?). done.
Qed.

(** X25.  One column of a pandas frame.  A column the frame does not have
    raises [KeyError].  Otherwise the pass returns a well-formed frame with
    the same columns and as many rows, in which only the cells of that
    column changed: a missing value stays missing, any other cell becomes
    a string; the key of the instance is the same afterwards. *)
Theorem pandas_column_touches_one_column st df c deterministic :
  well_formed df ->
  (c ∉ columns df ->
   _pseudonymize_pandas_column py_str apply_dtype st df c deterministic = Raise (KeyError (repr_str c))) /\
  (c ∈ columns df ->
   exists out st',
     _pseudonymize_pandas_column py_str apply_dtype st df c deterministic = Ok (out, st') /\
     columns out = columns df /\ well_formed out /\ key (fst st') = key (fst st) /\
     Forall2 (fun r r' =>
                (if is_null (cell (columns df) r c) then cell (columns df) r' c = VNull
                 else exists token, cell (columns df) r' c = VStr token) /\
                forall q, q <> c -> cell (columns df) r' q = cell (columns df) r q)
             (rows df) (rows out)).
Proof.
  intros Hwf. split.
  - intros Hnin. unfold _pseudonymize_pandas_column.
    by rewrite (KAnonymityFacts.index_of_not_elem _ _ Hnin).
  - intros Hin. destruct (KAnonymityFacts.index_of_elem _ _ Hin) as [i Hi].
    destruct (apply_cells_shape deterministic
                ((fun r => default VNull (r !! i)) <$> rows df) st) as [Hshape Hkey].
    destruct (pandas_column_pass st df c deterministic i _ Hwf Hi Hshape)
      as (out & st' & Hout & -> & Hcols & Hwf' & Hrows).
    eexists out, _. split; [done|]. split; [done|]. split; [done|]. split; [done|].
    eapply Forall2_impl; [exact Hrows|]. intros r r' [Hc Hq]. split; [|done].
    destruct (is_null (cell (columns df) r c)) eqn:Hnull; [|done].
    rewrite Hc. by destruct (cell (columns df) r c).
Qed.

(** X26.  In deterministic mode every token written into the column is
    the one the cache of the instance holds for the string of the old cell
    afterwards; so cells with the same string get the same token. *)
Theorem deterministic_column_uses_cache st df c out st' :
  well_formed df ->
  _pseudonymize_pandas_column py_str apply_dtype st df c true = Ok (out, st') ->
  Forall2 (fun r r' =>
             is_null (cell (columns df) r c) = false ->
             py_str (cell (columns df) r c) <> EmptyString ->
             exists token,
               cell (columns df) r' c = VStr token /\
               dict_get (mapping_cache (fst st')) (py_str (cell (columns df) r c)) = Some token)
          (rows df) (rows out) /\
  forall j1 j2 r1 r2 r1' r2',
    rows df !! j1 = Some r1 -> rows df !! j2 = Some r2 ->
    rows out !! j1 = Some r1' -> rows out !! j2 = Some r2' ->
    is_null (cell (columns df) r1 c) = false -> is_null (cell (columns df) r2 c) = false ->
    py_str (cell (columns df) r1 c) = py_str (cell (columns df) r2 c) ->
    cell (columns df) r1' c = cell (columns df) r2' c.
Proof.
  intros Hwf Hout.
  destruct (index_of c (columns df)) as [i|] eqn:Hi;
    [|unfold _pseudonymize_pandas_column in Hout; by rewrite Hi in Hout].
  pose proof (apply_cells_deterministic ((fun r => default VNull (r !! i)) <$> rows df) st)
    as Hdet.
  destruct (pandas_column_pass st df c true i _ Hwf Hi Hdet)
    as (out0 & st0 & Hout0 & Hst0 & _ & _ & Hrows).
  rewrite Hout in Hout0. injection Hout0 as <- <-. rewrite <- Hst0 in Hrows.
  assert (Hcell : forall j r r', rows df !! j = Some r -> rows out !! j = Some r' ->
            is_null (cell (columns df) r c) = false ->
            if decide (py_str (cell (columns df) r c) = EmptyString)
            then cell (columns df) r' c = VStr EmptyString
            else exists token,
                cell (columns df) r' c = VStr token /\
                dict_get (mapping_cache (fst st')) (py_str (cell (columns df) r c))
                = Some token).
  { intros j r r' Hr Hr' Hnull.
    destruct (Forall2_lookup_l _ _ _ _ _ Hrows Hr) as (r0 & Hr0 & Hc & _).
    rewrite Hr' in Hr0. injection Hr0 as <-. by apply Hc. }
  split.
  - apply Forall2_same_length_lookup. split; [by apply Forall2_length in Hrows|].
    intros j r r' Hr Hr' Hnull Hne.
    pose proof (Hcell j r r' Hr Hr' Hnull) as Hc. by rewrite decide_False in Hc.
  - intros j1 j2 r1 r2 r1' r2' H1 H2 H1' H2' Hn1 Hn2 Heq.
    pose proof (Hcell j1 r1 r1' H1 H1' Hn1) as Hc1.
    pose proof (Hcell j2 r2 r2' H2 H2' Hn2) as Hc2. rewrite <- Heq in Hc2.
    destruct (decide (py_str (cell (columns df) r1 c) = EmptyString)); [congruence|].
    destruct Hc1 as (t1 & -> & Ht1). destruct Hc2 as (t2 & -> & Ht2). congruence.
Qed.

(** X27.  In non-deterministic mode the pass leaves the instance as it
    was, and [depseudonymize] turns every token of the column back into
    the string of the old cell. *)
Theorem nondeterministic_column_round_trip `{!CryptoLaws C} st df c out st' :
  well_formed df ->
  _pseudonymize_pandas_column py_str apply_dtype st df c false = Ok (out, st') ->
  fst st' = fst st /\
  Forall2 (fun r r' =>
             is_null (cell (columns df) r c) = false ->
             exists token,
               cell (columns df) r' c = VStr token /\
               depseudonymize (fst st') token = Ok (py_str (cell (columns df) r c)))
          (rows df) (rows out).
Proof.
  intros Hwf Hout.
  destruct (index_of c (columns df)) as [i|] eqn:Hi;
    [|unfold _pseudonymize_pandas_column in Hout; by rewrite Hi in Hout].
  destruct (apply_cells_nondeterministic ((fun r => default VNull (r !! i)) <$> rows df) st)
    as [Hst Hcells].
  destruct (pandas_column_pass st df c false i _ Hwf Hi Hcells)
    as (out0 & st0 & Hout0 & Hst0 & _ & _ & Hrows).
  rewrite Hout in Hout0. injection Hout0 as <- <-. rewrite <- Hst0 in Hst.
  split; [done|]. rewrite Hst.
  eapply Forall2_impl; [exact Hrows|]. intros r r' [Hc _]. done.
Qed.

(** *** The dispatch on the kind of frame *)

(** X28.  A pandas frame handed over while a Spark session is passed or
    active is sent down the Spark path, where [df.withColumn] fails: with
    at least one column to pseudonymize, no frame is returned but
    [AttributeError] is raised. *)
Theorem pandas_frame_with_spark_session_fails env st df column_names deterministic
    spark_session :
  env = ActiveSession \/ (spark_session = true /\ env <> NoPyspark) ->
  column_names <> [] ->
  pseudonymize_multiple_columns py_str apply_dtype env st df column_names deterministic spark_session
  = Fails (AttributeError "'DataFrame' object has no attribute 'withColumn'").
Proof.
  intros Hsession Hne. destruct column_names as [|c names]; [done|].
  cbn [pseudonymize_multiple_columns].
  unfold pseudonymize_column.
  destruct Hsession as [->|[-> Henv]].
  - by destruct spark_session.
  - by destruct env.
Qed.

(** X29.  Without a Spark session (none passed, none active) the columns
    of a pandas frame are pseudonymized one after the other.  If the frame
    has all of them, a frame with the same columns and as many rows is
    returned in which no cell of a column that was not named has changed;
    otherwise [KeyError] is raised. *)
Theorem pandas_frame_without_spark_session st df column_names deterministic :
  well_formed df ->
  ((forall c, c ∈ column_names -> c ∈ columns df) ->
   exists out st',
     pseudonymize_multiple_columns py_str apply_dtype NoActiveSession st df column_names deterministic false
     = Returns (out, st') /\
     columns out = columns df /\ well_formed out /\ key (fst st') = key (fst st) /\
     Forall2 (fun r r' => forall q, q ∉ column_names ->
                cell (columns df) r' q = cell (columns df) r q)
             (rows df) (rows out)) /\
  (forall c, c ∈ column_names -> c ∉ columns df ->
   exists absent,
     absent ∈ column_names /\ (absent ∉ columns df) /\
     pseudonymize_multiple_columns py_str apply_dtype NoActiveSession st df column_names deterministic false
     = Fails (PyExn (KeyError (repr_str absent)))).
Proof.
  revert st df. induction column_names as [|c names IH]; intros st df Hwf.
  - split.
    + intros _. exists df, st. split; [done|]. split; [done|]. split; [done|]. split; [done|].
      by apply Forall_Forall2_diag, Forall_forall.
    + by intros c ?%elem_of_nil.
  - cbn [pseudonymize_multiple_columns].
    unfold pseudonymize_column.
    destruct (decide (c ∈ columns df)) as [Hc|Hc].
    + destruct (KAnonymityFacts.index_of_elem _ _ Hc) as [i Hi].
      destruct (apply_cells_shape deterministic
                  ((fun r => default VNull (r !! i)) <$> rows df) st) as [Hshape Hkey].
      destruct (pandas_column_pass st df c deterministic i _ Hwf Hi Hshape)
        as (mid & st1 & Hmid & -> & Hcols & Hwf' & Hrows).
      rewrite Hmid. cbn [of_result].
      destruct (IH (snd (apply_cells py_str deterministic st
                           ((fun r => default VNull (r !! i)) <$> rows df))) mid Hwf')
        as [Hgood Hbad].
      rewrite Hcols in Hgood, Hbad. split.
      * intros Hall.
        destruct Hgood as (out & st' & Hout & Hcols' & Hwf'' & Hkey' & Hrows');
          [intros q Hq; apply Hall; by right|].
        exists out, st'. split; [done|]. split; [done|]. split; [done|].
        split; [congruence|].
        eapply Forall2_trans; [|exact Hrows|exact Hrows'].
        intros r r1 r2 [_ H1] H2 q Hq. apply not_elem_of_cons in Hq as [Hqc Hqn].
        rewrite (H2 q Hqn). by apply H1.
      * intros c' [->|Hc']%elem_of_cons Hnin; [done|].
        destruct (Hbad c' Hc' Hnin) as (absent & Ha & Hna & Hfail).
        exists absent. split; [by right|]. done.
    + split; [intros Hall; destruct Hc; apply Hall; left|].
      intros _ _ _. exists c. split; [left|]. split; [done|].
      unfold _pseudonymize_pandas_column.
      by rewrite (KAnonymityFacts.index_of_not_elem _ _ Hc).
Qed.

End Frames.

Lemma contacts_well_formed : well_formed contacts.
Proof. split; apply (bool_decide_unpack _); vm_compute; exact I. Qed.

Lemma pandas_column_touches_one_column_witness :
  well_formed contacts /\
  _pseudonymize_pandas_column (C := demo_crypto) str_of_value object_dtype
    (demo_instance, demo_world) contacts "phone" true
  = Raise (KeyError "'phone'") /\
  exists out st',
    _pseudonymize_pandas_column (C := demo_crypto) str_of_value object_dtype
      (demo_instance, demo_world) contacts "backup_email" true = Ok (out, st') /\
    columns out = columns contacts /\
    (fun r => cell (columns contacts) r "email") <$> rows out
    = [VStr "ann@example.org"; VStr "bob@example.org"; VStr "ann@example.org"] /\
    (fun r => is_null (cell (columns contacts) r "backup_email")) <$> rows out
    = [false; true; false].
Proof.
  split; [exact contacts_well_formed|].
  destruct (pandas_column_touches_one_column (C := demo_crypto) str_of_value object_dtype
              (demo_instance, demo_world) contacts "phone" true contacts_well_formed)
    as [Habsent _].
  destruct (pandas_column_touches_one_column (C := demo_crypto) str_of_value object_dtype
              (demo_instance, demo_world) contacts "backup_email" true contacts_well_formed)
    as [_ Hpresent].
  split.
  - apply Habsent. apply (bool_decide_unpack _). vm_compute. exact I.
  - destruct Hpresent as (out & st' & Hout & Hcols & _).
    { apply (bool_decide_unpack _). vm_compute. exact I. }
    exists out, st'. split; [exact Hout|]. split; [exact Hcols|].
    vm_compute in Hout. injection Hout as <- _. split; reflexivity.
Defined.

Lemma deterministic_column_uses_cache_witness :
  well_formed contacts /\
  exists out st',
    _pseudonymize_pandas_column (C := demo_crypto) str_of_value object_dtype
      (demo_instance, demo_world) contacts "email" true = Ok (out, st') /\
    (forall r1' r2', rows out !! 0%nat = Some r1' -> rows out !! 2%nat = Some r2' ->
       cell (columns contacts) r1' "email" = cell (columns contacts) r2' "email") /\
    length (mapping_cache (fst st')) = 2%nat.
Proof.
  split; [exact contacts_well_formed|].
  destruct (_pseudonymize_pandas_column (C := demo_crypto) str_of_value object_dtype
              (demo_instance, demo_world) contacts "email" true) as [[out st']|e] eqn:Hout;
    [|vm_compute in Hout; discriminate].
  destruct (deterministic_column_uses_cache (C := demo_crypto) str_of_value object_dtype
              (demo_instance, demo_world) contacts "email" out st' contacts_well_formed Hout)
    as [_ Hsame].
  exists out, st'. split; [reflexivity|]. split.
  - intros r1' r2' H1 H2.
    apply (Hsame 0%nat 2%nat [VStr "ann@example.org"; VStr "bob@example.org"]
             [VStr "ann@example.org"; VStr "ann@example.org"] r1' r2');
      try reflexivity; assumption.
  - vm_compute in Hout. injection Hout as _ <-. reflexivity.
Defined.

Lemma nondeterministic_column_round_trip_witness :
  well_formed contacts /\
  exists out st',
    _pseudonymize_pandas_column (C := demo_crypto) str_of_value object_dtype
      (demo_instance, demo_world) contacts "email" false = Ok (out, st') /\
    fst st' = demo_instance /\
    (fun r => match cell (columns contacts) r "email" with
              | VStr token => depseudonymize (C := demo_crypto) (fst st') token
              | _ => Raise (TypeError "not a token")
              end) <$> rows out
    = [Ok "ann@example.org"; Ok "bob@example.org"; Ok "ann@example.org"]%string.
Proof.
  split; [exact contacts_well_formed|].
  destruct (_pseudonymize_pandas_column (C := demo_crypto) str_of_value object_dtype
              (demo_instance, demo_world) contacts "email" false) as [[out st']|e] eqn:Hout;
    [|vm_compute in Hout; discriminate].
  destruct (@nondeterministic_column_round_trip demo_crypto str_of_value object_dtype demo_laws
              (demo_instance, demo_world) contacts "email" out st' contacts_well_formed Hout)
    as [Hst _].
  exists out, st'. split; [reflexivity|]. split; [exact Hst|].
  vm_compute in Hout. injection Hout as <- <-. vm_compute. reflexivity.
Defined.

Lemma pandas_frame_with_spark_session_fails_witness :
  (ActiveSession = ActiveSession \/ (false = true /\ ActiveSession <> NoPyspark)) /\
  ["email"%string] <> [] /\
  pseudonymize_multiple_columns (C := demo_crypto) str_of_value object_dtype ActiveSession
    (demo_instance, demo_world) contacts ["email"%string] true false
  = Fails (AttributeError "'DataFrame' object has no attribute 'withColumn'").
Proof.
  assert (Hsession : ActiveSession = ActiveSession \/ (false = true /\ ActiveSession <> NoPyspark))
    by (left; reflexivity).
  assert (Hne : ["email"%string] <> []) by discriminate.
  split; [exact Hsession|]. split; [exact Hne|].
  exact (pandas_frame_with_spark_session_fails (C := demo_crypto) str_of_value object_dtype
           ActiveSession (demo_instance, demo_world) contacts ["email"%string] true false
           Hsession Hne).
Defined.

Lemma pandas_frame_without_spark_session_witness :
  well_formed contacts /\
  (exists out st',
     pseudonymize_multiple_columns (C := demo_crypto) str_of_value object_dtype NoActiveSession
       (demo_instance, demo_world) contacts ["email"; "backup_email"]%string true false
     = Returns (out, st') /\
     columns out = columns contacts /\ length (mapping_cache (fst st')) = 2%nat) /\
  exists absent,
    pseudonymize_multiple_columns (C := demo_crypto) str_of_value object_dtype NoActiveSession
      (demo_instance, demo_world) contacts ["email"; "phone"]%string true false
    = Fails (PyExn (KeyError (repr_str absent))).
Proof.
  split; [exact contacts_well_formed|]. split.
  - destruct (pandas_frame_without_spark_session (C := demo_crypto) str_of_value object_dtype
                (demo_instance, demo_world) contacts ["email"; "backup_email"]%string true
                contacts_well_formed) as [Hgood _].
    destruct Hgood as (out & st' & Hout & Hcols & _).
    { intros c Hc. rewrite !elem_of_cons, elem_of_nil in Hc.
      destruct Hc as [->|[->|[]]]; apply (bool_decide_unpack _); vm_compute; exact I. }
    exists out, st'. split; [exact Hout|]. split; [exact Hcols|].
    vm_compute in Hout. injection Hout as _ <-. reflexivity.
  - destruct (pandas_frame_without_spark_session (C := demo_crypto) str_of_value object_dtype
                (demo_instance, demo_world) contacts ["email"; "phone"]%string true
                contacts_well_formed) as [_ Hbad].
    destruct (Hbad "phone"%string) as (absent & _ & _ & Hfail).
    { right. left. }
    { apply (bool_decide_unpack _). vm_compute. exact I. }
    exists absent. exact Hfail.
Defined.

End PseudonymizationExtras.
